(** * A first-fit heap allocator over [sbrk]: model and verification

    The development embeds the allocator of the repository (the files
    [asgn01/malloc.c], the plain build with [malloc], [free], [calloc] and
    [realloc], and the logging build of the same four functions) and proves
    properties of its block directory.

    Modelling conventions.
    - [size_t] is a 64-bit unsigned integer (LP64): a [Z] in [0, 2^64) whose
      additions, subtractions and multiplications wrap ([wadd], [wsub],
      [wmul]).  [sizeof(Header)] is 32 on that target.
    - Pointers are addresses in [Z]; [NULL] is [0].  Pointer arithmetic is
      plain addition: the allocator only ever moves inside the arena.
    - Headers live in a finite map from addresses to header records and the
      payload bytes in a separate byte store, so a header write never
      changes a payload byte.  Loading a header that was never written is
      undefined behaviour, and so is writing a header that does not lie
      below the program break as a whole.
    - [memset] and [memcpy] are undefined when they reach beyond the break;
      the headers they write over are lost (what is there afterwards is not
      a header the code wrote, and loading it is undefined).
    - An operation returns [None] when it runs into undefined behaviour or
      when one of its loops does not finish within the number of headers in
      memory (a chain that long revisits a header, and the C loop spins).
    - The operating system is the pair [brk]/[brk_limit]: [sbrk] moves the
      break by its (signed) argument and fails when the new break would leave
      [0 .. brk_limit]. *)

From Stdlib Require Import ZArith Lia.
From stdpp Require Import gmap list.

Local Open Scope Z_scope.

(** ** [size_t] arithmetic *)

Definition SIZE_MOD : Z := 2 ^ 64.
Definition SIZE_MAX : Z := SIZE_MOD - 1.

Definition wrap (z : Z) : Z := z mod SIZE_MOD.
Definition wadd (a b : Z) : Z := wrap (a + b).
Definition wsub (a b : Z) : Z := wrap (a - b).
Definition wmul (a b : Z) : Z := wrap (a * b).

(** ** Constants of the source *)

Definition NULL : Z := 0.
Definition ENOMEM : Z := 12.

Definition ALGN : Z := 16.
Definition HEADER_SIZE : Z := 32.

(** [(x + (ALGN - 1)) & ~(ALGN - 1)] on [size_t]. *)
Definition align_up (x : Z) : Z :=
  Z.land (wadd x (ALGN - 1)) (wrap (Z.lnot (ALGN - 1))).

Definition PADDED_HEADER_SIZE : Z := Eval cbv in align_up HEADER_SIZE.

(** ** Memory *)

Record Header : Type := mkHeader {
  size : Z;
  is_free : bool;
  next : Z;
  prev : Z
}.

Inductive Trace : Type :=
| TraceMalloc (requested ptr sz : Z)
| TraceFree (ptr : Z)
| TraceCalloc (nmemb requested ptr sz : Z)
| TraceRealloc (ptr requested new_ptr sz : Z).

Record State : Type := mkState {
  heap_head : Z;               (* static Header *heap_head *)
  hdr : gmap Z Header;         (* the headers written so far *)
  bytes : Z -> Z;              (* payload bytes *)
  brk : Z;                     (* program break *)
  brk_limit : Z;               (* highest break the system grants *)
  errno : Z;
  debug_mode : Z;              (* static int debug_mode *)
  env_DEBUG_MALLOC : bool;     (* getenv("DEBUG_MALLOC") != NULL *)
  out : list Trace             (* lines printed so far, oldest first *)
}.

Definition with_hdr (m : gmap Z Header) (s : State) : State :=
  mkState (heap_head s) m (bytes s) (brk s) (brk_limit s) (errno s)
          (debug_mode s) (env_DEBUG_MALLOC s) (out s).
Definition with_heap_head (a : Z) (s : State) : State :=
  mkState a (hdr s) (bytes s) (brk s) (brk_limit s) (errno s)
          (debug_mode s) (env_DEBUG_MALLOC s) (out s).
Definition with_bytes (b : Z -> Z) (s : State) : State :=
  mkState (heap_head s) (hdr s) b (brk s) (brk_limit s) (errno s)
          (debug_mode s) (env_DEBUG_MALLOC s) (out s).
Definition with_brk (b : Z) (s : State) : State :=
  mkState (heap_head s) (hdr s) (bytes s) b (brk_limit s) (errno s)
          (debug_mode s) (env_DEBUG_MALLOC s) (out s).
Definition with_errno (e : Z) (s : State) : State :=
  mkState (heap_head s) (hdr s) (bytes s) (brk s) (brk_limit s) e
          (debug_mode s) (env_DEBUG_MALLOC s) (out s).
Definition with_debug_mode (d : Z) (s : State) : State :=
  mkState (heap_head s) (hdr s) (bytes s) (brk s) (brk_limit s) (errno s)
          d (env_DEBUG_MALLOC s) (out s).
Definition with_out (o : list Trace) (s : State) : State :=
  mkState (heap_head s) (hdr s) (bytes s) (brk s) (brk_limit s) (errno s)
          (debug_mode s) (env_DEBUG_MALLOC s) o.

(** The state of a fresh process whose break is [b] and may rise to [lim]. *)
Definition initial_state (b lim : Z) (env : bool) : State :=
  mkState NULL ∅ (fun _ => 0) b lim 0 (-1) env [].

(** ** The monad of the C statements: state, and undefined behaviour *)

Definition M (A : Type) : Type := State -> option (A * State).

Definition ret {A} (a : A) : M A := fun s => Some (a, s).
Definition bind {A B} (c : M A) (k : A -> M B) : M B :=
  fun s => match c s with
           | Some (a, s') => k a s'
           | None => None
           end.
Definition undefined {A} : M A := fun _ => None.

Declare Scope c_scope.
Delimit Scope c_scope with C.
Notation "x <- c ;; k" := (bind c (fun x => k))
  (at level 100, c at next level, right associativity) : c_scope.
Notation "c ;;; k" := (bind c (fun _ => k))
  (at level 100, right associativity) : c_scope.
Local Open Scope c_scope.

(** The contents of memory that was never written as a header.  A store
    to a field of such a place makes a header of it; the code assigns all
    four fields of every header it creates before it reads any. *)
Definition raw_header : Header := mkHeader 0 false 0 0.

Definition load {A} (f : Header -> A) (a : Z) : M A :=
  fun s => match hdr s !! a with
           | Some h => Some (f h, s)
           | None => None
           end.

(** An assignment to a field of the header at [a].  The header has to lie
    below the break as a whole: the code writes all four fields of every
    header it creates, so a header that sticks out is written past the
    break in one of them. *)
Definition store (f : Header -> Header) (a : Z) : M unit :=
  fun s =>
    if a + PADDED_HEADER_SIZE <=? brk s
    then Some (tt, with_hdr (<[a := f (default raw_header (hdr s !! a))]> (hdr s)) s)
    else None.

Definition set_size (v : Z) (h : Header) := mkHeader v (is_free h) (next h) (prev h).
Definition set_is_free (v : bool) (h : Header) := mkHeader (size h) v (next h) (prev h).
Definition set_next (v : Z) (h : Header) := mkHeader (size h) (is_free h) v (prev h).
Definition set_prev (v : Z) (h : Header) := mkHeader (size h) (is_free h) (next h) v.

(** [p->size], [p->is_free], ... and the assignments to them. *)
Definition ld_size := load size.
Definition ld_is_free := load is_free.
Definition ld_next := load next.
Definition ld_prev := load prev.
Definition st_size (a v : Z) := store (set_size v) a.
Definition st_is_free (a : Z) (v : bool) := store (set_is_free v) a.
Definition st_next (a v : Z) := store (set_next v) a.
Definition st_prev (a v : Z) := store (set_prev v) a.

Definition get_heap_head : M Z := fun s => Some (heap_head s, s).
Definition put_heap_head (a : Z) : M unit := fun s => Some (tt, with_heap_head a s).
Definition put_errno (e : Z) : M unit := fun s => Some (tt, with_errno e s).

(** The bound on loop iterations: the number of headers in memory. *)
Definition get_fuel : M nat := fun s => Some (base.size (hdr s), s).

(** ** The operating system *)

(** [sbrk] takes an [intptr_t]: a [size_t] above [2^63 - 1] arrives negative. *)
Definition to_intptr (z : Z) : Z := if z <? 2 ^ 63 then z else z - SIZE_MOD.

(** [sbrk(incr)]: [Some old_break], or [None] for [(void * ) -1]. *)
Definition sbrk (incr : Z) : M (option Z) :=
  fun s =>
    let nb := brk s + to_intptr incr in
    if (0 <=? nb) && (nb <=? brk_limit s)
    then Some (Some (brk s), with_brk nb s)
    else Some (None, s).

(** The headers that [n] bytes written at [p] leave alone: a header that
    the bytes run over is no header of the code any more. *)
Definition clobber (p n : Z) (m : gmap Z Header) : gmap Z Header :=
  filter (fun ah => n <= 0 \/ ah.1 + PADDED_HEADER_SIZE <= p \/ p + n <= ah.1) m.

(** [memset(p, c, n)] of the C library: undefined when it writes a byte at
    or above the break. *)
Definition memset (p c n : Z) : M unit :=
  fun s =>
    if (n <=? 0) || (p + n <=? brk s)
    then Some (tt, with_hdr (clobber p n (hdr s))
                     (with_bytes
                        (fun a => if (p <=? a) && (a <? p + n) then c
                                  else bytes s a) s))
    else None.

(** [memcpy(dst, src, n)] of the C library: undefined when it reads or
    writes a byte at or above the break. *)
Definition memcpy (dst src n : Z) : M unit :=
  fun s =>
    if (n <=? 0) || ((dst + n <=? brk s) && (src + n <=? brk s))
    then Some (tt, with_hdr (clobber dst n (hdr s))
                     (with_bytes
                        (fun a => if (dst <=? a) && (a <? dst + n)
                                  then bytes s (src + (a - dst))
                                  else bytes s a) s))
    else None.

(** ** Code shared by the two builds

    The bodies below are the same text in both files (and, for [malloc], in
    [asgn01/malloc.c]); the logging build only adds its trace lines around
    them. *)

(** The growth size of the first call. *)
Definition request_size (sz : Z) : Z :=
  let initial_chunk_size := 64 * 1024 in
  if wadd PADDED_HEADER_SIZE sz >? initial_chunk_size
  then wadd (wadd PADDED_HEADER_SIZE sz) ALGN
  else initial_chunk_size.

(** [if (heap_head == NULL) { ... }] of [malloc]; [false] when [sbrk] failed
    (the caller then returns [NULL]). *)
Definition heap_init (sz : Z) : M bool :=
  hh <- get_heap_head ;;
  if hh =? NULL then
    r <- sbrk (request_size sz) ;;
    match r with
    | None => put_errno ENOMEM ;;; ret false
    | Some block =>
        st_size block (wsub (request_size sz) PADDED_HEADER_SIZE) ;;;
        st_is_free block true ;;;
        st_next block NULL ;;;
        st_prev block NULL ;;;
        put_heap_head block ;;;
        ret true
    end
  else ret true.

(** The split of [malloc]: carve a free block out of the tail of [current]. *)
Definition split (current sz : Z) : M unit :=
  let new_block := current + PADDED_HEADER_SIZE + sz in
  csz <- ld_size current ;;
  st_size new_block (wsub (wsub csz sz) PADDED_HEADER_SIZE) ;;;
  st_is_free new_block true ;;;
  cn <- ld_next current ;;
  st_next new_block cn ;;;
  st_prev new_block current ;;;
  cn <- ld_next current ;;
  (if cn =? NULL then ret tt else st_prev cn new_block) ;;;
  st_size current sz ;;;
  st_next current new_block.

(** The search loop of [malloc]: the header of the block handed out (already
    split and marked in use), or [NULL] when the chain ends without a fit. *)
Fixpoint first_fit (fuel : nat) (sz current : Z) : M Z :=
  if current =? NULL then ret NULL else
  match fuel with
  | O => undefined
  | S fuel' =>
      cf <- ld_is_free current ;;
      csz <- ld_size current ;;
      if cf && (csz >=? sz) then
        (if csz >=? wadd (wadd sz PADDED_HEADER_SIZE) ALGN
         then split current sz else ret tt) ;;;
        st_is_free current false ;;;
        ret current
      else
        cn <- ld_next current ;;
        first_fit fuel' sz cn
  end.

(** [while (last_block->next != NULL) last_block = last_block->next;] *)
Fixpoint find_last (fuel : nat) (last_block : Z) : M Z :=
  ln <- ld_next last_block ;;
  if ln =? NULL then ret last_block else
  match fuel with
  | O => undefined
  | S fuel' => find_last fuel' ln
  end.

(** The arena growth at the end of [malloc]: the new header, or [None] when
    [sbrk] failed ([errno] is set, the caller returns [NULL]). *)
Definition grow (sz : Z) : M (option Z) :=
  hh <- get_heap_head ;;
  fuel <- get_fuel ;;
  last_block <- find_last fuel hh ;;
  r <- sbrk (wadd (wadd PADDED_HEADER_SIZE sz) ALGN) ;;
  match r with
  | None => put_errno ENOMEM ;;; ret None
  | Some new_block =>
      st_size new_block sz ;;;
      st_is_free new_block false ;;;
      st_next new_block NULL ;;;
      st_prev new_block last_block ;;;
      st_next last_block new_block ;;;
      ret (Some new_block)
  end.

(** The forward merge loop of [free]. *)
Fixpoint merge_next (fuel : nat) (current : Z) : M unit :=
  cn <- ld_next current ;;
  if cn =? NULL then ret tt else
  nf <- ld_is_free cn ;;
  if negb nf then ret tt else
  match fuel with
  | O => undefined
  | S fuel' =>
      let next_block := cn in
      csz <- ld_size current ;;
      nsz <- ld_size next_block ;;
      st_size current (wadd csz (wadd PADDED_HEADER_SIZE nsz)) ;;;
      nn <- ld_next next_block ;;
      st_next current nn ;;;
      nn <- ld_next next_block ;;
      (if nn =? NULL then ret tt else st_prev nn current) ;;;
      merge_next fuel' current
  end.

(** The backward merge of [free]. *)
Definition merge_prev (current : Z) : M unit :=
  cp <- ld_prev current ;;
  if cp =? NULL then ret tt else
  pf <- ld_is_free cp ;;
  if negb pf then ret tt else
  let prev_block := cp in
  psz <- ld_size prev_block ;;
  csz <- ld_size current ;;
  st_size prev_block (wadd psz (wadd PADDED_HEADER_SIZE csz)) ;;;
  cn <- ld_next current ;;
  st_next prev_block cn ;;;
  cn <- ld_next current ;;
  (if cn =? NULL then ret tt else st_prev cn prev_block).

(** [free] from the double-free test on (the pointer is not [NULL]). *)
Definition release (ptr : Z) : M unit :=
  let current := ptr - PADDED_HEADER_SIZE in
  cf <- ld_is_free current ;;
  if cf then ret tt else
  st_is_free current true ;;;
  fuel <- get_fuel ;;
  merge_next fuel current ;;;
  merge_prev current.

(** Case 1 of [realloc], the block is large enough: split off the surplus. *)
Definition shrink_split (current aligned_size : Z) : M unit :=
  let new_block := current + PADDED_HEADER_SIZE + aligned_size in
  csz <- ld_size current ;;
  st_size new_block (wsub (wsub csz aligned_size) PADDED_HEADER_SIZE) ;;;
  st_is_free new_block true ;;;
  cn <- ld_next current ;;
  st_next new_block cn ;;;
  st_prev new_block current ;;;
  cn <- ld_next current ;;
  (if cn =? NULL then ret tt else st_prev cn new_block) ;;;
  st_size current aligned_size ;;;
  st_next current new_block.

(** The overflow guard of [calloc]. *)
Definition calloc_overflows (nmemb sz : Z) : bool :=
  (nmemb >? 0) && (sz >? 0) && (nmemb >? SIZE_MAX / sz).

(** ** The plain build *)

Module Plain.

Definition malloc (sz : Z) : M Z :=
  if sz =? 0 then ret NULL else
  let sz := align_up sz in
  ok <- heap_init sz ;;
  if negb ok then ret NULL else
  hh <- get_heap_head ;;
  fuel <- get_fuel ;;
  current <- first_fit fuel sz hh ;;
  if negb (current =? NULL) then ret (current + PADDED_HEADER_SIZE) else
  r <- grow sz ;;
  match r with
  | None => ret NULL
  | Some new_block => ret (new_block + PADDED_HEADER_SIZE)
  end.

Definition free (ptr : Z) : M unit :=
  if ptr =? NULL then ret tt else release ptr.

Definition calloc (nmemb sz : Z) : M Z :=
  if calloc_overflows nmemb sz then put_errno ENOMEM ;;; ret NULL else
  let total_size := wmul nmemb sz in
  ptr <- malloc total_size ;;
  (if negb (ptr =? NULL) then memset ptr 0 total_size else ret tt) ;;;
  ret ptr.

Definition realloc (ptr sz : Z) : M Z :=
  if ptr =? NULL then malloc sz else
  if sz =? 0 then free ptr ;;; ret NULL else
  let aligned_size := align_up sz in
  let current := ptr - PADDED_HEADER_SIZE in
  csz <- ld_size current ;;
  if csz >=? aligned_size then
    (if csz >=? wadd (wadd aligned_size PADDED_HEADER_SIZE) ALGN
     then shrink_split current aligned_size else ret tt) ;;;
    ret ptr
  else
  cn <- ld_next current ;;
  nf <- (if cn =? NULL then ret false else ld_is_free cn) ;;
  merged <- (if nf then
      let next_block := cn in
      csz <- ld_size current ;;
      nsz <- ld_size next_block ;;
      let merged_size := wadd (wadd csz PADDED_HEADER_SIZE) nsz in
      if merged_size >=? aligned_size then
        st_size current merged_size ;;;
        nn <- ld_next next_block ;;
        st_next current nn ;;;
        nn <- ld_next next_block ;;
        (if nn =? NULL then ret tt else st_prev nn current) ;;;
        (* the split after the merge is left out, its branch is empty *)
        csz <- ld_size current ;;
        (if csz >=? wadd (wadd aligned_size PADDED_HEADER_SIZE) ALGN
         then ret tt else ret tt) ;;;
        st_size current aligned_size ;;;
        ret true
      else ret false
    else ret false) ;;
  if (merged : bool) then ret ptr else
  new_ptr <- malloc sz ;;
  if new_ptr =? NULL then ret NULL else
  csz <- ld_size current ;;
  let copy_size := if csz <? aligned_size then csz else aligned_size in
  memcpy new_ptr ptr copy_size ;;;
  free ptr ;;;
  ret new_ptr.

End Plain.

(** ** The logging build *)

Module Debug.

(** [check_debug_mode()]: reads the environment on its first call only. *)
Definition check_debug_mode : M Z :=
  fun s =>
    if debug_mode s =? -1 then
      let d := if env_DEBUG_MALLOC s then 1 else 0 in
      Some (d, with_debug_mode d s)
    else Some (debug_mode s, s).

(** Every logging site of the source tests [check_debug_mode] itself, the
    function designator, and not the result of a call: the designator
    converts to the address of the function, which is not null. *)
Definition check_debug_mode_designator : bool := true.

(** [pp(stdout, ...)]: one more trace line. *)
Definition pp (t : Trace) : M unit :=
  fun s => Some (tt, with_out (out s ++ [t]) s).

Definition malloc (sz : Z) : M Z :=
  let requested_size := sz in
  if sz =? 0 then ret NULL else
  let sz := align_up sz in
  ok <- heap_init sz ;;
  if negb ok then ret NULL else
  hh <- get_heap_head ;;
  fuel <- get_fuel ;;
  current <- first_fit fuel sz hh ;;
  if negb (current =? NULL) then
    let ptr := current + PADDED_HEADER_SIZE in
    csz <- ld_size current ;;
    (if check_debug_mode_designator
     then pp (TraceMalloc requested_size ptr csz) else ret tt) ;;;
    ret ptr
  else
  r <- grow sz ;;
  match r with
  | None => ret NULL
  | Some new_block =>
      let ptr := new_block + PADDED_HEADER_SIZE in
      nsz <- ld_size new_block ;;
      (if check_debug_mode_designator
       then pp (TraceMalloc requested_size ptr nsz) else ret tt) ;;;
      ret ptr
  end.

Definition free (ptr : Z) : M unit :=
  (if check_debug_mode_designator then pp (TraceFree ptr) else ret tt) ;;;
  if ptr =? NULL then ret tt else release ptr.

Definition calloc (nmemb sz : Z) : M Z :=
  let requested_nmemb := nmemb in
  let requested_size := sz in
  if calloc_overflows nmemb sz then put_errno ENOMEM ;;; ret NULL else
  let total_size := wmul nmemb sz in
  ptr <- malloc total_size ;;
  (if negb (ptr =? NULL) then memset ptr 0 total_size else ret tt) ;;;
  (if negb (ptr =? NULL) then
     let h := ptr - PADDED_HEADER_SIZE in
     hsz <- ld_size h ;;
     if check_debug_mode_designator
     then pp (TraceCalloc requested_nmemb requested_size ptr hsz) else ret tt
   else ret tt) ;;;
  ret ptr.

(** The split of [realloc] after it merged the successor in: as
    [shrink_split], but the size of [current] is set by the caller. *)
Definition merge_split (current aSize : Z) : M unit :=
  let new_block := current + PADDED_HEADER_SIZE + aSize in
  csz <- ld_size current ;;
  st_size new_block (wsub csz aSize) ;;;
  nbsz <- ld_size new_block ;;
  st_size new_block (wsub nbsz PADDED_HEADER_SIZE) ;;;
  st_is_free new_block true ;;;
  cn <- ld_next current ;;
  st_next new_block cn ;;;
  st_prev new_block current ;;;
  cn <- ld_next current ;;
  (if cn =? NULL then ret tt else st_prev cn new_block) ;;;
  st_next current new_block.

(** Case 1 split of this build: the new size is computed in two steps. *)
Definition shrink_split (current aSize : Z) : M unit :=
  let new_block := current + PADDED_HEADER_SIZE + aSize in
  csz <- ld_size current ;;
  st_size new_block (wsub csz aSize) ;;;
  nbsz <- ld_size new_block ;;
  st_size new_block (wsub nbsz PADDED_HEADER_SIZE) ;;;
  st_is_free new_block true ;;;
  cn <- ld_next current ;;
  st_next new_block cn ;;;
  st_prev new_block current ;;;
  cn <- ld_next current ;;
  (if cn =? NULL then ret tt else st_prev cn new_block) ;;;
  st_size current aSize ;;;
  st_next current new_block.

Definition realloc (ptr sz : Z) : M Z :=
  let requested_size := sz in
  if ptr =? NULL then malloc sz else
  if sz =? 0 then free ptr ;;; ret NULL else
  let aSize := align_up sz in
  let current := ptr - PADDED_HEADER_SIZE in
  csz <- ld_size current ;;
  if csz >=? aSize then
    (if csz >=? wadd (wadd aSize PADDED_HEADER_SIZE) ALGN
     then shrink_split current aSize else ret tt) ;;;
    csz <- ld_size current ;;
    (if check_debug_mode_designator
     then pp (TraceRealloc ptr requested_size ptr csz) else ret tt) ;;;
    ret ptr
  else
  cn <- ld_next current ;;
  nf <- (if cn =? NULL then ret false else ld_is_free cn) ;;
  merged <- (if nf then
      let next_block := cn in
      csz <- ld_size current ;;
      nsz <- ld_size next_block ;;
      let msize := wadd (wadd csz PADDED_HEADER_SIZE) nsz in
      if msize >=? aSize then
        st_size current msize ;;;
        nn <- ld_next next_block ;;
        st_next current nn ;;;
        nn <- ld_next next_block ;;
        (if nn =? NULL then ret tt else st_prev nn current) ;;;
        csz <- ld_size current ;;
        (if csz >=? wadd (wadd aSize PADDED_HEADER_SIZE) ALGN
         then merge_split current aSize else ret tt) ;;;
        st_size current aSize ;;;
        csz <- ld_size current ;;
        (if check_debug_mode_designator
         then pp (TraceRealloc ptr requested_size ptr csz) else ret tt) ;;;
        ret true
      else ret false
    else ret false) ;;
  if (merged : bool) then ret ptr else
  new_ptr <- malloc sz ;;
  if new_ptr =? NULL then ret NULL else
  csz <- ld_size current ;;
  let cs := if csz <? aSize then csz else aSize in
  memcpy new_ptr ptr cs ;;;
  free ptr ;;;
  let h := new_ptr - PADDED_HEADER_SIZE in
  hsz <- ld_size h ;;
  (if check_debug_mode_designator
   then pp (TraceRealloc ptr requested_size new_ptr hsz) else ret tt) ;;;
  ret new_ptr.

End Debug.

(** ** The block directory as a list *)

Record Block : Type := mkBlock {
  baddr : Z;      (* address of the header *)
  bsize : Z;      (* recorded usable size *)
  bfree : bool    (* free flag *)
}.

(** The blocks met from [a] on along the [next] pointers. *)
Fixpoint walk (fuel : nat) (m : gmap Z Header) (a : Z) : option (list Block) :=
  if a =? NULL then Some [] else
  match fuel with
  | O => None
  | S fuel' =>
      match m !! a with
      | None => None
      | Some h =>
          match walk fuel' m (next h) with
          | None => None
          | Some l => Some (mkBlock a (size h) (is_free h) :: l)
          end
      end
  end.

Definition directory (s : State) : option (list Block) :=
  walk (base.size (hdr s)) (hdr s) (heap_head s).

(** Two neighbours of the directory are both free. *)
Fixpoint adjacent_free (l : list Block) : bool :=
  match l with
  | b :: ((b' :: _) as l') => (bfree b && bfree b') || adjacent_free l'
  | _ => false
  end.

Definition run {A} (c : M A) (s : State) : option State :=
  match c s with Some (_, s') => Some s' | None => None end.

(** ** The directory a state represents

    [linked s l]: the chain of headers from [heap_head] is exactly [l], with
    consistent [next] and [prev] pointers.  [ordered]: the addresses are
    positive and strictly ascending.  [geom]: consecutive blocks do not
    overlap and the last one ends at or below the break.  [repr] is the
    invariant of a directory built by calls that never wrapped. *)

Definition hd_addr (l : list Block) (e : Z) : Z :=
  match l with
  | [] => e
  | b :: _ => baddr b
  end.

Fixpoint last_addr (pv : Z) (l : list Block) : Z :=
  match l with
  | [] => pv
  | b :: l' => last_addr (baddr b) l'
  end.

(** The headers of the blocks of [l], when the block before is [pv] and the
    block after is [e]. *)
Fixpoint cells (pv : Z) (l : list Block) (e : Z) : list (Z * Header) :=
  match l with
  | [] => []
  | b :: l' =>
      (baddr b, mkHeader (bsize b) (bfree b) (hd_addr l' e) pv)
        :: cells (baddr b) l' e
  end.

Definition holds (m : gmap Z Header) (c : Z * Header) : Prop :=
  m !! c.1 = Some c.2.

Definition chain (m : gmap Z Header) (pv : Z) (l : list Block) (e : Z) : Prop :=
  Forall (holds m) (cells pv l e).

Definition linked (s : State) (l : list Block) : Prop :=
  heap_head s = hd_addr l NULL /\ chain (hdr s) NULL l NULL.

Fixpoint ordered (lo : Z) (l : list Block) : Prop :=
  match l with
  | [] => True
  | b :: l' => lo < baddr b /\ ordered (baddr b) l'
  end.

Fixpoint geom (lo : Z) (l : list Block) (hi : Z) : Prop :=
  match l with
  | [] => lo <= hi
  | b :: l' =>
      lo <= baddr b /\ 0 <= bsize b /\
      geom (baddr b + PADDED_HEADER_SIZE + bsize b) l' hi
  end.

Definition repr (s : State) (l : list Block) : Prop :=
  linked s l /\ geom 1 l (brk s) /\ brk s <= brk_limit s < 2 ^ 63.

(** Headers that lie below the break as a whole. *)
Definition inside (s : State) (l : list Block) : Prop :=
  Forall (fun x => baddr x + PADDED_HEADER_SIZE <= brk s) l.

(** The payload pointer of a block. *)
Definition payload (b : Block) : Z := baddr b + PADDED_HEADER_SIZE.

(** ** What the operations do to the directory, on lists *)

(** The test of the search loop of [malloc]. *)
Definition fits (asz : Z) (b : Block) : bool :=
  bfree b && (bsize b >=? asz).

(** The block [b] handed out for an aligned request [asz]: split or whole. *)
Definition carve (asz : Z) (b : Block) : list Block :=
  if bsize b >=? asz + PADDED_HEADER_SIZE + ALGN
  then [mkBlock (baddr b) asz false;
        mkBlock (baddr b + PADDED_HEADER_SIZE + asz)
                (bsize b - asz - PADDED_HEADER_SIZE) true]
  else [mkBlock (baddr b) (bsize b) false].

(** [b] absorbs its successor [n]. *)
Definition merge (b n : Block) : Block :=
  mkBlock (baddr b) (wadd (bsize b) (wadd PADDED_HEADER_SIZE (bsize n)))
          (bfree b).

(** The forward loop of [free]: [b] absorbs the free run that follows it. *)
Fixpoint absorb (b : Block) (l : list Block) : list Block :=
  match l with
  | n :: l' => if bfree n then absorb (merge b n) l' else b :: l
  | [] => [b]
  end.

Definition mark_free (b : Block) : Block := mkBlock (baddr b) (bsize b) true.

(** [free] of the block whose header is at [a]. *)
Fixpoint free_list (a : Z) (l : list Block) : list Block :=
  match l with
  | [] => []
  | b :: l' =>
      if baddr b =? a then
        if bfree b then l else absorb (mark_free b) l'
      else
        match l' with
        | c :: l'' =>
            if (baddr c =? a) && negb (bfree c) && bfree b then
              match absorb (mark_free c) l'' with
              | c' :: r => merge b c' :: r
              | [] => [b]
              end
            else b :: free_list a l'
        | [] => [b]
        end
  end.

(** The backward merge of [free]: the block [c] joins the last block of
    [l1] when that one is free. *)
Fixpoint join_prev (l1 : list Block) (c : Block) (r : list Block) : list Block :=
  match l1 with
  | [] => c :: r
  | p :: l1' =>
      match l1' with
      | [] => if bfree p then merge p c :: r else p :: c :: r
      | _ :: _ => p :: join_prev l1' c r
      end
  end.

(** ** Sample states *)

(** A fresh process. *)
Definition fresh : State := initial_state 4096 (2 ^ 30) false.

(** A bootstrapped arena holding one 16-byte allocation. *)
Definition demo_state : State :=
  mkState 4096
          (<[4096 := mkHeader 16 false 4144 0]>
             (<[4144 := mkHeader 65456 true 0 4096]> ∅))
          (fun _ => 0) 69632 (2 ^ 30) 0 (-1) false [].

Definition demo_dir : list Block :=
  [mkBlock 4096 16 false; mkBlock 4144 65456 true].

(** A bootstrapped arena holding two neighbouring 16-byte allocations. *)
Definition pair_state : State :=
  mkState 4096
          (<[4096 := mkHeader 16 false 4144 0]>
             (<[4144 := mkHeader 16 false 4192 4096]>
                (<[4192 := mkHeader 65408 true 0 4144]> ∅)))
          (fun _ => 0) 69632 (2 ^ 30) 0 (-1) false [].

(** Three allocations in a row, nothing free. *)
Definition triple_state : State :=
  mkState 4096
          (<[4096 := mkHeader 16 false 4144 0]>
             (<[4144 := mkHeader 16 false 4192 4096]>
                (<[4192 := mkHeader 65408 false 0 4144]> ∅)))
          (fun _ => 0) 69632 (2 ^ 30) 0 (-1) false [].

(** The result of a run together with the directory it leaves. *)
Definition observe {A} (c : M A) (s : State)
  : option (A * option (list Block)) :=
  match c s with
  | Some (a, s') => Some (a, directory s')
  | None => None
  end.

(** The free flags at the two ends of a piece of the directory. *)
Definition head_free (l : list Block) : bool :=
  match head l with Some b => bfree b | None => false end.
Definition last_free (l : list Block) : bool :=
  match last l with Some b => bfree b | None => false end.

(** ** Further notions used by the properties of the remaining paths *)

(** Headers on 16-byte boundaries, sizes in whole alignment units. *)
Definition aligned_block (b : Block) : Prop :=
  baddr b mod 16 = 0 /\ bsize b mod 16 = 0.

Definition aligned_dir (l : list Block) : Prop := Forall aligned_block l.

(** The bytes the directory accounts for: every header and every payload. *)
Fixpoint span (l : list Block) : Z :=
  match l with
  | [] => 0
  | b :: l' => PADDED_HEADER_SIZE + bsize b + span l'
  end.

(** The environment changes under a running process. *)
Definition with_env (e : bool) (s : State) : State :=
  mkState (heap_head s) (hdr s) (bytes s) (brk s) (brk_limit s) (errno s)
          (debug_mode s) e (out s).

(** Free flags are kept from one header store to another. *)
Definition flags_kept (m m' : gmap Z Header) : Prop :=
  forall x h, m !! x = Some h ->
              exists h', m' !! x = Some h' /\ is_free h' = is_free h.

(** Every returning run of [c] relates the state before to the state after
    by [R]. *)
Definition respects (R : State -> State -> Prop) {A} (c : M A) : Prop :=
  forall s a s', c s = Some (a, s') -> R s s'.

(** Only headers change, and no free flag does: what the merge loops of
    [free] do to the state. *)
Definition merge_safe (s s' : State) : Prop :=
  (exists m', s' = with_hdr m' s) /\ flags_kept (hdr s) (hdr s').

(** A computation that neither reads nor writes the trace. *)
Definition out_blind {A} (c : M A) : Prop :=
  forall o s,
    c (with_out o s)
    = match c s with
      | Some (a, s') => Some (a, with_out o s')
      | None => None
      end.


(** The size field of the header in front of the payload pointer [p]. *)
Definition size_at (s : State) (p : Z) : Z :=
  size (default raw_header (hdr s !! (p - PADDED_HEADER_SIZE))).

(** The trace line of [malloc] in the logging build: none for [NULL]. *)
Definition malloc_line (requested p : Z) (s : State) : list Trace :=
  if p =? NULL then [] else [TraceMalloc requested p (size_at s p)].

(** The trace lines of [calloc] in the logging build. *)
Definition calloc_lines (nmemb sz p : Z) (s : State) : list Trace :=
  if p =? NULL then []
  else [TraceMalloc (wmul nmemb sz) p (size_at s p);
        TraceCalloc nmemb sz p (size_at s p)].

(** No header and no break below address zero. *)
Definition addresses_nonneg (s : State) : Prop :=
  (forall a h, hdr s !! a = Some h -> 0 <= a) /\ 0 <= brk s.

(** Only the header store changes, and no header is lost. *)
Definition hdr_grows (s s' : State) : Prop :=
  (exists m', s' = with_hdr m' s)
  /\ forall a, is_Some (hdr s !! a) -> is_Some (hdr s' !! a).

(** The tests that send [realloc] into its in-place growth: the block is
    too small, it has a successor, the successor is free, and the two
    together are large enough. *)
Definition grows_in_place (p sz : Z) (s : State) : bool :=
  match hdr s !! (p - PADDED_HEADER_SIZE) with
  | Some h =>
      negb (size h >=? align_up sz) && negb (next h =? NULL) &&
      match hdr s !! next h with
      | Some hn =>
          is_free hn &&
          (wadd (wadd (size h) PADDED_HEADER_SIZE) (size hn) >=? align_up sz)
      | None => false
      end
  | None => false
  end.

(** The trace lines of [realloc] in the logging build, outside the in-place
    growth: [s] is the state before, [q] and [s1] the result. *)
Definition realloc_lines (p sz q : Z) (s s1 : State) : list Trace :=
  if p =? NULL then malloc_line sz q s1
  else if sz =? 0 then [TraceFree p]
  else if size_at s p >=? align_up sz
  then [TraceRealloc p sz p (size_at s1 p)]
  else match Plain.malloc sz s with
       | Some (q', sm) => malloc_line sz q' sm
       | None => []
       end
       ++ (if q =? NULL then []
           else [TraceFree p; TraceRealloc p sz q (size_at s1 q)]).
(** * Arithmetic of [size_t] and of the alignment *)

Lemma wrap_small z : 0 <= z < SIZE_MOD -> wrap z = z.
Proof. intros H. unfold wrap. apply Z.mod_small. exact H. Qed.

Lemma wrap_range z : 0 <= wrap z < SIZE_MOD.
Proof. unfold wrap. apply Z.mod_pos_bound. reflexivity. Qed.

Lemma wadd_small a b : 0 <= a + b < SIZE_MOD -> wadd a b = a + b.
Proof. apply wrap_small. Qed.

Lemma wsub_small a b : 0 <= a - b < SIZE_MOD -> wsub a b = a - b.
Proof. apply wrap_small. Qed.

Lemma mask_bits n : 0 <= n ->
  Z.testbit (wrap (Z.lnot (ALGN - 1))) n = (4 <=? n) && (n <? 64).
Proof.
  intros Hn.
  replace (wrap (Z.lnot (ALGN - 1))) with (Z.shiftl (Z.ones 60) 4) by reflexivity.
  rewrite Z.shiftl_spec by exact Hn.
  destruct (Z.leb_spec 4 n) as [H4|H4]; simpl.
  - rewrite Z.testbit_ones_nonneg by lia.
    destruct (Z.ltb_spec (n - 4) 60), (Z.ltb_spec n 64); try lia; reflexivity.
  - apply Z.testbit_neg_r. lia.
Qed.

Lemma land_mask y : 0 <= y < SIZE_MOD ->
  Z.land y (wrap (Z.lnot (ALGN - 1))) = 16 * (y / 16).
Proof.
  intros Hy.
  transitivity (Z.shiftl (Z.shiftr y 4) 4).
  2:{ rewrite Z.shiftl_mul_pow2, Z.shiftr_div_pow2 by lia.
      change (2 ^ 4) with 16. lia. }
  apply Z.bits_inj'. intros n Hn.
  rewrite Z.land_spec, mask_bits by exact Hn.
  rewrite Z.shiftl_spec by exact Hn.
  destruct (Z.leb_spec 4 n) as [H4|H4]; simpl.
  - rewrite Z.shiftr_spec by lia. replace (n - 4 + 4) with n by lia.
    destruct (Z.ltb_spec n 64) as [H64|H64]; simpl.
    + apply andb_true_r.
    + rewrite andb_false_r. symmetry.
      destruct (Z.eq_dec y 0) as [->|Hy0]; [apply Z.bits_0|].
      apply Z.bits_above_log2; [lia|].
      apply Z.log2_lt_pow2; [lia|].
      unfold SIZE_MOD in Hy.
      apply Z.lt_le_trans with (2 ^ 64); [lia|].
      apply Z.pow_le_mono_r; lia.
  - rewrite andb_false_r. symmetry. apply Z.testbit_neg_r. lia.
Qed.

Lemma align_up_eq x : align_up x = 16 * (wrap (x + 15) / 16).
Proof.
  unfold align_up, wadd. change (ALGN - 1) with 15.
  apply land_mask, wrap_range.
Qed.

Lemma align_up_range x : 0 <= align_up x < SIZE_MOD.
Proof.
  rewrite align_up_eq. pose proof (wrap_range (x + 15)) as H.
  unfold SIZE_MOD in *.
  pose proof (Z.mul_div_le (wrap (x + 15)) 16 ltac:(lia)).
  pose proof (Z.div_pos (wrap (x + 15)) 16 ltac:(lia) ltac:(lia)).
  lia.
Qed.

Lemma align_up_multiple x : align_up x mod 16 = 0.
Proof.
  rewrite align_up_eq, Z.mul_comm. apply Z.mod_mul. lia.
Qed.

(** Without wrap-around the aligned size is the next multiple of 16. *)
Lemma align_up_bounds x :
  0 <= x <= SIZE_MAX - 15 -> x <= align_up x < x + 16.
Proof.
  intros Hx. rewrite align_up_eq.
  rewrite wrap_small by (unfold SIZE_MAX, SIZE_MOD in *; lia).
  pose proof (Z.div_mod (x + 15) 16 ltac:(lia)).
  pose proof (Z.mod_pos_bound (x + 15) 16 ltac:(lia)).
  lia.
Qed.

(** A request that fits a multiple of 16 still fits once aligned. *)
Lemma align_up_le x n :
  0 <= x <= n -> n mod 16 = 0 -> n <= SIZE_MAX - 15 -> align_up x <= n.
Proof.
  intros Hx Hn Hmax.
  pose proof (align_up_bounds x ltac:(lia)) as Hb.
  pose proof (align_up_multiple x) as Hm.
  apply Z.mod_divide in Hn; [|lia]. destruct Hn as [k ->].
  apply Z.mod_divide in Hm; [|lia]. destruct Hm as [j Hj].
  rewrite Hj in *. nia.
Qed.

(** * Chains of headers *)

Lemma hd_addr_app l1 l2 e : hd_addr (l1 ++ l2) e = hd_addr l1 (hd_addr l2 e).
Proof. destruct l1; reflexivity. Qed.

Lemma last_addr_app pv l1 l2 :
  last_addr pv (l1 ++ l2) = last_addr (last_addr pv l1) l2.
Proof. revert pv. induction l1 as [|b l1 IH]; intros pv; simpl; auto. Qed.

Lemma cells_app pv l1 l2 e :
  cells pv (l1 ++ l2) e
  = cells pv l1 (hd_addr l2 e) ++ cells (last_addr pv l1) l2 e.
Proof.
  revert pv. induction l1 as [|b l1 IH]; intros pv; simpl; [reflexivity|].
  rewrite IH, hd_addr_app. reflexivity.
Qed.

Lemma chain_nil m pv e : chain m pv [] e.
Proof. constructor. Qed.

Lemma chain_cons m pv b l e :
  chain m pv (b :: l) e <->
  m !! baddr b = Some (mkHeader (bsize b) (bfree b) (hd_addr l e) pv)
  /\ chain m (baddr b) l e.
Proof. unfold chain. simpl. rewrite Forall_cons. reflexivity. Qed.

Lemma chain_app m pv l1 l2 e :
  chain m pv (l1 ++ l2) e <->
  chain m pv l1 (hd_addr l2 e) /\ chain m (last_addr pv l1) l2 e.
Proof. unfold chain. rewrite cells_app, Forall_app. reflexivity. Qed.

(** A chain only depends on the headers of its own blocks. *)
Lemma chain_frame m m' pv l e :
  chain m pv l e ->
  Forall (fun b => m' !! baddr b = m !! baddr b) l ->
  chain m' pv l e.
Proof.
  revert pv. induction l as [|b l IH]; intros pv Hc Hf; [apply chain_nil|].
  apply chain_cons in Hc as [Hb Hc]. inversion Hf as [|? ? Hb' Hf']; subst.
  apply chain_cons. split; [congruence|]. apply IH; assumption.
Qed.

(** The first block of a chain can be given another predecessor by
    rewriting its [prev] field alone. *)
Lemma chain_reprev m pv pv' l e :
  chain m pv l e ->
  match l with
  | [] => True
  | c :: l' => Forall (fun b => baddr b <> baddr c) l'
  end ->
  chain (match l with
         | [] => m
         | c :: _ =>
             <[baddr c := set_prev pv' (default raw_header (m !! baddr c))]> m
         end) pv' l e.
Proof.
  destruct l as [|c l']; intros Hc Hd; [apply chain_nil|].
  apply chain_cons in Hc as [Hb Hc]. apply chain_cons. split.
  - rewrite lookup_insert_eq, Hb. reflexivity.
  - eapply chain_frame; [exact Hc|].
    eapply Forall_impl; [exact Hd|]. intros x Hx. simpl in Hx.
    rewrite lookup_insert_ne by congruence. reflexivity.
Qed.

Lemma ordered_mono lo lo' l : lo' <= lo -> ordered lo l -> ordered lo' l.
Proof. destruct l; simpl; [tauto|]. intros ? [? ?]. split; [lia|assumption]. Qed.

Lemma ordered_app lo l1 l2 :
  ordered lo (l1 ++ l2) <-> ordered lo l1 /\ ordered (last_addr lo l1) l2.
Proof.
  revert lo. induction l1 as [|b l1 IH]; intros lo; simpl; [tauto|].
  rewrite IH. tauto.
Qed.

Lemma ordered_above lo l : ordered lo l -> Forall (fun b => lo < baddr b) l.
Proof.
  revert lo. induction l as [|b l IH]; intros lo; simpl; [constructor|].
  intros [Hlo Ho]. constructor; [exact Hlo|].
  eapply Forall_impl; [apply IH, Ho|]. simpl. intros; lia.
Qed.

Lemma ordered_below lo l :
  ordered lo l -> Forall (fun b => baddr b <= last_addr lo l) l /\ lo <= last_addr lo l.
Proof.
  revert lo. induction l as [|b l IH]; intros lo; simpl.
  - intros _. split; [constructor|lia].
  - intros [Hlo Ho]. destruct (IH _ Ho) as [Hf Hle]. split; [|lia].
    constructor; [lia|exact Hf].
Qed.

(** Around a block [b] of an ordered directory: everything before is below
    it, everything after is above it. *)
Lemma ordered_split lo l1 b l2 :
  ordered lo (l1 ++ b :: l2) ->
  Forall (fun x => lo < baddr x < baddr b) l1
  /\ lo < baddr b
  /\ last_addr lo l1 < baddr b
  /\ Forall (fun x => baddr b < baddr x) l2.
Proof.
  intros Ho. apply ordered_app in Ho as [H1 H2]. simpl in H2.
  destruct H2 as [Hb H2].
  destruct (ordered_below _ _ H1) as [Hle Hlo].
  pose proof (ordered_above _ _ H1) as Hab.
  pose proof (ordered_above _ _ H2) as Hab2.
  repeat split; try lia; try assumption.
  apply Forall_and. split.
  - exact Hab.
  - eapply Forall_impl; [exact Hle|]. simpl. intros; lia.
Qed.

Lemma geom_app lo l1 l2 hi :
  geom lo (l1 ++ l2) hi <->
  exists mid, geom lo l1 mid /\ geom mid l2 hi.
Proof.
  revert lo. induction l1 as [|b l1 IH]; intros lo; simpl.
  - split.
    + intros H. exists lo. split; [lia|exact H].
    + intros (mid & Hle & H). revert H. clear -Hle.
      destruct l2 as [|c l2]; simpl; intros; [lia|].
      intuition lia.
  - rewrite IH. split.
    + intros (? & ? & mid & ? & ?). exists mid. tauto.
    + intros (mid & (? & ? & ?) & ?). repeat split; try assumption.
      exists mid. tauto.
Qed.

Lemma geom_le lo l hi : geom lo l hi -> lo <= hi.
Proof.
  revert lo. induction l as [|b l IH]; intros lo; simpl; [tauto|].
  intros (? & ? & H). apply IH in H. unfold PADDED_HEADER_SIZE in H. lia.
Qed.

Lemma geom_weaken lo lo' l hi hi' :
  lo' <= lo -> hi <= hi' -> geom lo l hi -> geom lo' l hi'.
Proof.
  revert lo lo'. induction l as [|b l IH]; intros lo lo' Hlo Hhi; simpl.
  - lia.
  - intros (? & ? & H). repeat split; [lia|lia|].
    eapply IH; [| |exact H]; lia.
Qed.

(** Every block of a well-laid-out directory lies between the bounds. *)
Lemma geom_bounds lo l hi :
  geom lo l hi ->
  Forall (fun b => lo <= baddr b /\ 0 <= bsize b
                   /\ baddr b + PADDED_HEADER_SIZE + bsize b <= hi) l.
Proof.
  revert lo. induction l as [|b l IH]; intros lo; simpl; [constructor|].
  intros (Hlo & Hsz & H). pose proof (geom_le _ _ _ H) as Hle.
  constructor; [lia|].
  eapply Forall_impl; [apply IH, H|]. simpl.
  unfold PADDED_HEADER_SIZE. intros; lia.
Qed.

Lemma geom_ordered lo l hi : geom lo l hi -> ordered (lo - 1) l.
Proof.
  revert lo. induction l as [|b l IH]; intros lo; simpl; [tauto|].
  intros (Hlo & Hsz & H). split; [lia|].
  eapply ordered_mono; [|apply IH, H]. unfold PADDED_HEADER_SIZE. lia.
Qed.

Lemma geom_split lo l1 b l2 hi :
  geom lo (l1 ++ b :: l2) hi <->
  geom lo l1 (baddr b) /\ 0 <= bsize b
  /\ geom (baddr b + PADDED_HEADER_SIZE + bsize b) l2 hi.
Proof.
  rewrite geom_app. simpl. split.
  - intros (mid & H1 & Hm & Hs & H2). repeat split; try assumption.
    eapply geom_weaken; [| |exact H1]; lia.
  - intros (H1 & Hs & H2). exists (baddr b). repeat split; try assumption. lia.
Qed.

(** The chain of a directory has no more blocks than there are headers. *)
Lemma chain_length (m : gmap Z Header) pv l e lo :
  chain m pv l e -> ordered lo l -> (length l <= base.size m)%nat.
Proof.
  revert m pv lo. induction l as [|b l IH]; intros m pv lo Hc Ho; simpl; [lia|].
  apply chain_cons in Hc as [Hb Hc]. destruct Ho as [Hlo Ho].
  pose proof (ordered_above _ _ Ho) as Hab.
  assert (chain (delete (baddr b) m) (baddr b) l e) as Hc'.
  { eapply chain_frame; [exact Hc|].
    eapply Forall_impl; [exact Hab|]. intros x Hx. simpl in Hx.
    apply lookup_delete_ne. lia. }
  specialize (IH _ _ _ Hc' Ho).
  rewrite map_size_delete, Hb in IH.
  assert (base.size m <> 0%nat) by (eapply map_size_ne_0_lookup_2; eauto).
  simpl in IH. lia.
Qed.

(** * Running the statements *)

Lemma with_hdr_id s : with_hdr (hdr s) s = s.
Proof. destruct s; reflexivity. Qed.

Ltac state_cbn :=
  cbn [hdr with_hdr with_brk with_errno with_heap_head with_bytes
       heap_head bytes brk brk_limit errno debug_mode env_DEBUG_MALLOC out].

(** The header stores of a run lie below the break: each test is settled
    from the bounds at hand. *)
Ltac below :=
  repeat match goal with
         | |- context [?a + PADDED_HEADER_SIZE <=? ?b] =>
             let E := fresh in
             assert (E : (a + PADDED_HEADER_SIZE <=? b) = true)
               by (apply Z.leb_le; state_cbn;
                   first [ lia
                         | unfold PADDED_HEADER_SIZE in *; lia
                         | unfold PADDED_HEADER_SIZE, ALGN in *; lia ]);
             rewrite E; clear E; state_cbn
         end.

Ltac exec_unfold :=
  unfold ld_size, ld_is_free, ld_next, ld_prev,
         st_size, st_is_free, st_next, st_prev, load, store, bind, ret,
         get_heap_head, get_fuel, put_heap_head, put_errno, sbrk;
  state_cbn; below.

Lemma geom_below lo l hi :
  geom lo l hi -> Forall (fun x => baddr x + PADDED_HEADER_SIZE <= hi) l.
Proof.
  intros Hg. eapply Forall_impl; [apply (geom_bounds _ _ _ Hg)|].
  simpl. intros x Hx. lia.
Qed.

Lemma geom_inside s lo l hi : geom lo l hi -> hi <= brk s -> inside s l.
Proof.
  intros Hg Hhi. eapply Forall_impl; [apply (geom_below _ _ _ Hg)|].
  simpl. intros x Hx. lia.
Qed.

Lemma repr_inside s l : repr s l -> inside s l.
Proof. intros (_ & Hg & _). apply (geom_inside s 1 l (brk s) Hg). lia. Qed.

Lemma inside_app s l1 l2 : inside s (l1 ++ l2) <-> inside s l1 /\ inside s l2.
Proof. unfold inside. apply Forall_app. Qed.

Lemma inside_cons s b l :
  inside s (b :: l) <-> baddr b + PADDED_HEADER_SIZE <= brk s /\ inside s l.
Proof.
  unfold inside. split.
  - intros H. inversion H; subst. split; assumption.
  - intros [H1 H2]. constructor; assumption.
Qed.

Lemma chain_update_head m pv b l e sz' f' :
  chain m pv (b :: l) e ->
  Forall (fun x => baddr b < baddr x) l ->
  chain (<[baddr b := mkHeader sz' f' (hd_addr l e) pv]> m) pv
        (mkBlock (baddr b) sz' f' :: l) e.
Proof.
  intros Hc Hab. apply chain_cons in Hc as [Hb Hc].
  apply chain_cons. cbn [baddr bsize bfree]. split.
  - apply lookup_insert_eq.
  - eapply chain_frame; [exact Hc|].
    eapply Forall_impl; [exact Hab|]. intros x Hx. simpl in Hx.
    rewrite lookup_insert_ne by lia. reflexivity.
Qed.

(** The split, on a chain: the block is cut in two, the headers below it
    are not touched. *)
Lemma split_chain s pv b l2 asz :
  chain (hdr s) pv (b :: l2) NULL ->
  0 < baddr b < baddr b + PADDED_HEADER_SIZE + asz ->
  ordered (baddr b + PADDED_HEADER_SIZE + asz) l2 ->
  baddr b + PADDED_HEADER_SIZE + asz + PADDED_HEADER_SIZE <= brk s ->
  Forall (fun x => baddr x + PADDED_HEADER_SIZE <= brk s) l2 ->
  exists m',
    split (baddr b) asz s = Some (tt, with_hdr m' s)
    /\ chain m' pv
         (mkBlock (baddr b) asz (bfree b)
          :: mkBlock (baddr b + PADDED_HEADER_SIZE + asz)
                     (wsub (wsub (bsize b) asz) PADDED_HEADER_SIZE) true
          :: l2) NULL
    /\ (forall x, x < baddr b -> m' !! x = hdr s !! x).
Proof.
  intros Hc Ha Ho Hnb Hin.
  apply chain_cons in Hc as [Hb Hc].
  set (a := baddr b) in *. set (nb := a + PADDED_HEADER_SIZE + asz) in *.
  assert (Hne : nb <> a) by lia.
  assert (a + PADDED_HEADER_SIZE <= brk s) as Hab0 by lia.
  destruct l2 as [|c l2'].
  - eexists. split; [|split].
    + unfold split. fold a nb. exec_unfold. simpl hd_addr in Hb.
      rewrite Hb. cbn [size is_free next prev].
      repeat (below; simplify_map_eq). reflexivity.
    + rewrite !chain_cons. cbn [baddr bsize bfree hd_addr]. fold a nb.
      split; [|split; [|apply chain_nil]].
      * simplify_map_eq. reflexivity.
      * simplify_map_eq. reflexivity.
    + intros x Hx. rewrite !lookup_insert_ne by lia. reflexivity.
  - simpl in Ho. destruct Ho as [Hcn Ho].
    pose proof (ordered_above _ _ Ho) as Hab.
    apply chain_cons in Hc as [Hcb Hc]. simpl hd_addr in Hb.
    assert (baddr c <> a) by lia. assert (baddr c <> nb) by lia.
    assert ((baddr c =? NULL) = false) as Hnz by (unfold NULL; lia).
    apply Forall_cons in Hin as [Hcin _].
    eexists. split; [|split].
    + unfold split. fold a nb. exec_unfold.
      rewrite Hb. cbn [size is_free next prev].
      repeat (below; simplify_map_eq). rewrite Hnz.
      repeat (below; simplify_map_eq). reflexivity.
    + rewrite !chain_cons. cbn [baddr bsize bfree hd_addr]. fold a nb.
      split; [|split; [|split]].
      * simplify_map_eq. reflexivity.
      * simplify_map_eq. reflexivity.
      * simplify_map_eq. reflexivity.
      * eapply chain_frame; [exact Hc|].
        eapply Forall_impl; [exact Hab|]. intros x Hx. simpl in Hx.
        rewrite !lookup_insert_ne by lia. reflexivity.
    + intros x Hx. rewrite !lookup_insert_ne by lia. reflexivity.
Qed.

Ltac reads H := repeat (rewrite H; cbn [size is_free next prev]).

Lemma first_fit_unfold fuel sz current :
  first_fit (S fuel) sz current =
  if current =? NULL then ret NULL else
    (cf <- ld_is_free current ;;
     csz <- ld_size current ;;
     if cf && (csz >=? sz) then
       (if csz >=? wadd (wadd sz PADDED_HEADER_SIZE) ALGN
        then split current sz else ret tt) ;;;
       st_is_free current false ;;;
       ret current
     else
       cn <- ld_next current ;;
       first_fit fuel sz cn).
Proof. reflexivity. Qed.

Lemma first_fit_null fuel sz s : first_fit fuel sz NULL s = Some (NULL, s).
Proof. destruct fuel; reflexivity. Qed.

(** The loop walks over the blocks that do not fit without a change. *)
Lemma first_fit_skip s sz l1 : forall pv rest fuel,
  chain (hdr s) pv (l1 ++ rest) NULL ->
  Forall (fun x => 0 < baddr x) l1 ->
  Forall (fun x => fits sz x = false) l1 ->
  first_fit (length l1 + fuel) sz (hd_addr (l1 ++ rest) NULL) s
  = first_fit fuel sz (hd_addr rest NULL) s.
Proof.
  induction l1 as [|x l1 IH]; intros pv rest fuel Hc Hpos Hnf; [reflexivity|].
  simpl app in *. apply chain_cons in Hc as [Hx Hc].
  inversion Hpos as [|? ? Hx0 Hpos']; subst.
  inversion Hnf as [|? ? Hxf Hnf']; subst.
  cbn [length Nat.add hd_addr]. rewrite first_fit_unfold.
  assert ((baddr x =? NULL) = false) as -> by (unfold NULL; lia).
  exec_unfold. reads Hx.
  unfold fits in Hxf. rewrite Hxf. reads Hx.
  apply (IH _ _ _ Hc Hpos' Hnf').
Qed.

(** The loop at a block that fits: it is carved and marked in use. *)
Lemma first_fit_hit s sz pv b l2 fuel hi :
  chain (hdr s) pv (b :: l2) NULL ->
  fits sz b = true ->
  0 <= sz -> 0 < baddr b -> hi < 2 ^ 63 -> hi <= brk s ->
  geom (baddr b + PADDED_HEADER_SIZE + bsize b) l2 hi ->
  exists m',
    first_fit (S fuel) sz (baddr b) s = Some (baddr b, with_hdr m' s)
    /\ chain m' pv (carve sz b ++ l2) NULL
    /\ (forall x, x < baddr b -> m' !! x = hdr s !! x).
Proof.
  intros Hc Hfit Hsz Ha Hhi Hbrk Hg.
  unfold fits in Hfit. apply andb_true_iff in Hfit as [Hfree Hge].
  pose proof (geom_le _ _ _ Hg) as Hle.
  assert (Forall (fun x => baddr x + PADDED_HEADER_SIZE <= brk s) l2) as Hin.
  { eapply Forall_impl; [apply (geom_below _ _ _ Hg)|]. simpl. intros; lia. }
  assert (bsize b < 2 ^ 63) by (unfold PADDED_HEADER_SIZE in *; lia).
  assert (wadd (wadd sz PADDED_HEADER_SIZE) ALGN = sz + PADDED_HEADER_SIZE + ALGN) as Hthr.
  { unfold wadd. rewrite (wrap_small (sz + _)); [apply wrap_small|];
      unfold SIZE_MOD, PADDED_HEADER_SIZE, ALGN in *; lia. }
  rewrite first_fit_unfold.
  assert ((baddr b =? NULL) = false) as -> by (unfold NULL; lia).
  pose proof Hc as Hc0. apply chain_cons in Hc0 as [Hb _].
  unfold bind at 1. unfold ld_is_free at 1, load at 1. rewrite Hb.
  unfold bind at 1. unfold ld_size at 1, load at 1. rewrite Hb.
  cbn [size is_free]. rewrite Hfree, Hge. cbn [andb].
  rewrite Hthr. unfold carve.
  destruct (bsize b >=? sz + PADDED_HEADER_SIZE + ALGN) eqn:Hsplit.
  - assert (ordered (baddr b + PADDED_HEADER_SIZE + sz) l2) as Ho.
    { pose proof Hsplit as Hsplit'. apply Z.geb_le in Hsplit'.
      apply geom_ordered in Hg. eapply ordered_mono; [|exact Hg].
      unfold PADDED_HEADER_SIZE, ALGN in *. lia. }
    destruct (split_chain s pv b l2 sz Hc) as (m1 & Hrun & Hc1 & Hfr);
      [unfold PADDED_HEADER_SIZE; lia|exact Ho
      |apply Z.geb_le in Hsplit; unfold PADDED_HEADER_SIZE, ALGN in *; lia
      |exact Hin|].
    unfold bind at 1. rewrite Hrun.
    rewrite Hfree in Hc1.
    apply Z.geb_le in Hsplit.
    rewrite (wsub_small (bsize b) sz), wsub_small in Hc1
      by (unfold SIZE_MOD, PADDED_HEADER_SIZE, ALGN in *; lia).
    eexists. split; [|split].
    + exec_unfold. reflexivity.
    + apply chain_cons in Hc1 as Hc1'. destruct Hc1' as [Hb1 _].
      cbn [baddr bsize bfree hd_addr] in Hb1. rewrite Hb1. cbn [default set_is_free size is_free next prev].
      apply (chain_update_head _ _ _ _ _ sz false) in Hc1.
      * exact Hc1.
      * constructor; [simpl; unfold PADDED_HEADER_SIZE; lia|].
        eapply Forall_impl; [apply (ordered_above _ _ Ho)|]. simpl.
        unfold PADDED_HEADER_SIZE. intros; lia.
    + intros x Hx. rewrite lookup_insert_ne by lia. apply Hfr, Hx.
  - eexists. split; [|split].
    + exec_unfold. reflexivity.
    + rewrite Hb. cbn [default set_is_free size is_free next prev].
      apply (chain_update_head _ _ _ _ _ (bsize b) false) in Hc.
      * exact Hc.
      * apply geom_ordered in Hg.
        eapply Forall_impl; [apply (ordered_above _ _ Hg)|]. simpl.
        unfold PADDED_HEADER_SIZE. intros; lia.
    + intros x Hx. rewrite lookup_insert_ne by lia. reflexivity.
Qed.

Lemma find_last_unfold fuel last_block :
  find_last fuel last_block =
  (ln <- ld_next last_block ;;
   if ln =? NULL then ret last_block else
   match fuel with
   | O => undefined
   | S fuel' => find_last fuel' ln
   end).
Proof. destruct fuel; reflexivity. Qed.

(** The second loop of [malloc] stops at the last block of the chain. *)
Lemma find_last_chain s l : forall pv b fuel,
  chain (hdr s) pv (b :: l) NULL ->
  Forall (fun x => 0 < baddr x) l ->
  (length l <= fuel)%nat ->
  find_last fuel (baddr b) s = Some (last_addr pv (b :: l), s).
Proof.
  induction l as [|c l IH]; intros pv b fuel Hc Hpos Hlen;
    rewrite find_last_unfold; apply chain_cons in Hc as [Hb Hc].
  - exec_unfold. reads Hb. reflexivity.
  - inversion Hpos as [|? ? Hc0 Hpos']; subst.
    exec_unfold. reads Hb. cbn [hd_addr].
    assert ((baddr c =? NULL) = false) as -> by (unfold NULL; lia).
    destruct fuel as [|fuel]; [simpl in Hlen; lia|].
    rewrite (IH (baddr b) c fuel Hc Hpos') by (simpl in Hlen; lia).
    reflexivity.
Qed.

Lemma geom_positive lo l hi :
  0 < lo -> geom lo l hi -> Forall (fun x => 0 < baddr x) l.
Proof.
  intros Hlo Hg. eapply Forall_impl; [apply (geom_bounds _ _ _ Hg)|].
  simpl. intros; lia.
Qed.

Lemma linked_fuel s l lo hi :
  linked s l -> geom lo l hi -> (length l <= base.size (hdr s))%nat.
Proof.
  intros [_ Hc] Hg. eapply chain_length; [exact Hc|].
  apply (geom_ordered _ _ _ Hg).
Qed.

(** The growth of the arena: a refused [sbrk] changes [errno] only, a granted
    one appends an in-use block at the old break. *)
Lemma grow_spec s l sz :
  linked s l -> l <> [] -> geom 1 l (brk s) ->
  let incr := to_intptr (wadd (wadd PADDED_HEADER_SIZE sz) ALGN) in
  let nb := brk s + incr in
  if (0 <=? nb) && (nb <=? brk_limit s)
  then if PADDED_HEADER_SIZE <=? incr
       then exists m',
           grow sz s = Some (Some (brk s), with_hdr m' (with_brk nb s))
           /\ chain m' NULL (l ++ [mkBlock (brk s) sz false]) NULL
       else grow sz s = None
  else grow sz s = Some (None, with_errno ENOMEM s).
Proof.
  intros Hl Hne Hg incr nb. subst incr.
  pose proof (linked_fuel _ _ _ _ Hl Hg) as Hfuel.
  destruct Hl as [Hh Hc].
  destruct l as [|b0 l0]; [congruence|].
  assert (find_last (base.size (hdr s)) (heap_head s) s
          = Some (last_addr NULL (b0 :: l0), s)) as Hfl.
  { rewrite Hh. cbn [hd_addr]. apply find_last_chain; [exact Hc| |cbn [length] in Hfuel; lia].
    simpl in Hg. destruct Hg as (? & ? & Hg).
    eapply geom_positive; [|exact Hg]. unfold PADDED_HEADER_SIZE. lia. }
  subst nb.
  destruct ((0 <=? _) && (_ <=? brk_limit s)) eqn:Hok.
  2:{ unfold grow. exec_unfold. rewrite Hfl. cbn [hdr brk brk_limit].
      rewrite Hok. reflexivity. }
  assert (forall k : Z -> M (option Z),
            (last_block <- find_last (base.size (hdr s)) (heap_head s) ;; k last_block) s
            = k (last_addr NULL (b0 :: l0)) s) as Hfl'.
  { intros k. unfold bind. rewrite Hfl. reflexivity. }
  destruct (PADDED_HEADER_SIZE <=? _) eqn:Hincr.
  2:{ apply Z.leb_gt in Hincr.
      unfold grow. unfold bind at 1, get_heap_head at 1.
      unfold bind at 1, get_fuel at 1. rewrite Hfl'.
      unfold bind at 1, sbrk at 1. rewrite Hok.
      unfold bind at 1, st_size at 1, store at 1. state_cbn.
      assert ((brk s + PADDED_HEADER_SIZE
               <=? brk s + to_intptr (wadd (wadd PADDED_HEADER_SIZE sz) ALGN))
              = false) as -> by (apply Z.leb_gt; lia).
      reflexivity. }
  apply Z.leb_le in Hincr.
  unfold grow. unfold bind at 1, get_heap_head at 1.
  unfold bind at 1, get_fuel at 1. rewrite Hfl'.
  unfold bind at 1, sbrk at 1. rewrite Hok.
  clear Hfl'.
  clear Hfl Hfuel Hh.
  destruct (exists_last Hne) as (l' & z & Hlz). rewrite Hlz in *. clear Hlz Hne.
  rewrite last_addr_app. cbn [last_addr].
  apply chain_app in Hc as [Hc1 Hc2]. cbn [hd_addr] in Hc1.
  apply chain_cons in Hc2 as [Hz _]. cbn [hd_addr] in Hz.
  apply geom_split in Hg as (Hg1 & Hzs & Hg2). simpl in Hg2.
  pose proof (geom_bounds _ _ _ Hg1) as Hb1.
  assert (baddr z < brk s) by (unfold PADDED_HEADER_SIZE in *; lia).
  eexists. split.
  - exec_unfold. reflexivity.
  - rewrite <- app_assoc. cbn [app]. apply chain_app. split.
    + cbn [hd_addr]. eapply chain_frame; [exact Hc1|].
      eapply Forall_impl; [exact Hb1|]. intros x Hx. simpl in Hx.
      unfold PADDED_HEADER_SIZE in *.
      rewrite !lookup_insert_ne by lia. reflexivity.
    + rewrite !chain_cons. cbn [baddr bsize bfree hd_addr].
      split; [|split; [|apply chain_nil]].
      * rewrite lookup_insert_eq, !lookup_insert_ne by lia.
        rewrite Hz. reflexivity.
      * rewrite lookup_insert_ne by lia. simplify_map_eq. reflexivity.
Qed.

Lemma heap_init_nonnull s sz :
  heap_head s <> NULL -> heap_init sz s = Some (true, s).
Proof.
  intros Hh. unfold heap_init. exec_unfold.
  apply Z.eqb_neq in Hh. rewrite Hh. reflexivity.
Qed.

Lemma linked_head_nonnull s l :
  linked s l -> geom 1 l (brk s) -> l <> [] -> heap_head s <> NULL.
Proof.
  intros [Hh _] Hg Hne. destruct l as [|b l]; [congruence|].
  simpl in *. unfold NULL. lia.
Qed.

(** The search loop on a whole directory whose first fitting block is [b]. *)
Lemma first_fit_spec s l1 b l2 sz hi :
  linked s (l1 ++ b :: l2) ->
  geom 1 (l1 ++ b :: l2) hi -> hi < 2 ^ 63 -> hi <= brk s -> 0 <= sz ->
  Forall (fun x => fits sz x = false) l1 ->
  fits sz b = true ->
  exists m',
    first_fit (base.size (hdr s)) sz (heap_head s) s
      = Some (baddr b, with_hdr m' s)
    /\ chain m' NULL (l1 ++ carve sz b ++ l2) NULL.
Proof.
  intros Hl Hg Hhi Hbrk Hsz Hnf Hfit.
  pose proof (linked_fuel _ _ _ _ Hl Hg) as Hfuel.
  destruct Hl as [Hh Hc].
  rewrite length_app in Hfuel. cbn [length] in Hfuel.
  assert (exists f, base.size (hdr s) = (length l1 + S f)%nat) as [f ->].
  { exists (base.size (hdr s) - length l1 - 1)%nat. lia. }
  pose proof Hg as Hg0. apply geom_split in Hg0 as (Hg1 & Hbs & Hg2).
  rewrite Hh.
  rewrite (first_fit_skip s sz l1 NULL (b :: l2) (S f) Hc);
    [|eapply geom_positive; [|exact Hg1]; lia|exact Hnf].
  cbn [hd_addr].
  apply chain_app in Hc as [Hc1 Hc2]. cbn [hd_addr] in Hc1.
  pose proof (geom_bounds _ _ _ Hg1) as Hb1.
  pose proof (geom_le _ _ _ Hg1) as Hle1.
  destruct (first_fit_hit s sz _ b l2 f hi Hc2 Hfit Hsz) as (m' & Hrun & Hc' & Hfr);
    [lia|exact Hhi|exact Hbrk|exact Hg2|].
  exists m'. split; [exact Hrun|].
  apply chain_app. split.
  - replace (hd_addr (carve sz b ++ l2) NULL) with (baddr b)
      by (unfold carve; destruct (_ >=? _); reflexivity).
    eapply chain_frame; [exact Hc1|].
    eapply Forall_impl; [exact Hb1|]. intros x Hx. simpl in Hx.
    apply Hfr. unfold PADDED_HEADER_SIZE in *. lia.
  - exact Hc'.
Qed.

(** The search loop on a directory without a fitting block. *)
Lemma first_fit_none s l sz hi :
  linked s l -> geom 1 l hi ->
  Forall (fun x => fits sz x = false) l ->
  first_fit (base.size (hdr s)) sz (heap_head s) s = Some (NULL, s).
Proof.
  intros Hl Hg Hnf.
  pose proof (linked_fuel _ _ _ _ Hl Hg) as Hfuel.
  destruct Hl as [Hh Hc].
  assert (exists f, base.size (hdr s) = (length l + f)%nat) as [f ->].
  { exists (base.size (hdr s) - length l)%nat. lia. }
  rewrite Hh.
  pose proof (first_fit_skip s sz l NULL [] f) as Hskip.
  rewrite app_nil_r in Hskip. rewrite Hskip.
  - apply first_fit_null.
  - exact Hc.
  - eapply geom_positive; [|exact Hg]. lia.
  - exact Hnf.
Qed.

Lemma geom_carve lo l1 b l2 hi sz :
  geom lo (l1 ++ b :: l2) hi -> 0 <= sz -> fits sz b = true ->
  geom lo (l1 ++ carve sz b ++ l2) hi.
Proof.
  intros Hg Hsz Hfit. apply geom_split in Hg as (Hg1 & Hbs & Hg2).
  unfold fits in Hfit. apply andb_true_iff in Hfit as [_ Hge].
  apply Z.geb_le in Hge.
  unfold carve. destruct (bsize b >=? _) eqn:Hsp.
  - apply Z.geb_le in Hsp. cbn [app].
    apply (geom_split lo l1 (mkBlock (baddr b) sz false)).
    cbn [baddr bsize]. repeat split; try assumption; cbn [baddr bsize].
    + unfold PADDED_HEADER_SIZE, ALGN in *. lia.
    + unfold PADDED_HEADER_SIZE, ALGN in *. lia.
    + eapply geom_weaken; [| |exact Hg2];
        unfold PADDED_HEADER_SIZE, ALGN in *; lia.
  - cbn [app]. apply (geom_split lo l1 (mkBlock (baddr b) (bsize b) false)).
    cbn [baddr bsize]. repeat split; assumption.
Qed.

(** [malloc] on a directory with a fitting block. *)
Lemma malloc_fit s l1 b l2 sz :
  repr s (l1 ++ b :: l2) -> sz <> 0 ->
  Forall (fun x => fits (align_up sz) x = false) l1 ->
  fits (align_up sz) b = true ->
  exists m',
    Plain.malloc sz s = Some (payload b, with_hdr m' s)
    /\ repr (with_hdr m' s) (l1 ++ carve (align_up sz) b ++ l2).
Proof.
  intros (Hl & Hg & Hbrk) Hsz Hnf Hfit.
  pose proof (align_up_range sz) as Hasz.
  destruct (first_fit_spec s l1 b l2 (align_up sz) (brk s) Hl Hg)
    as (m' & Hrun & Hc'); [lia|lia|lia|exact Hnf|exact Hfit|].
  assert (heap_head s <> NULL) as Hhn.
  { eapply linked_head_nonnull; [exact Hl|exact Hg|]. destruct l1; discriminate. }
  assert (0 < baddr b) as Hbpos.
  { apply geom_split in Hg as (Hg1 & _). apply geom_le in Hg1. lia. }
  exists m'. split.
  - unfold Plain.malloc. apply Z.eqb_neq in Hsz. rewrite Hsz.
    unfold bind at 1. rewrite (heap_init_nonnull _ _ Hhn). cbn [negb].
    unfold bind at 1, get_heap_head at 1.
    unfold bind at 1, get_fuel at 1.
    unfold bind at 1. rewrite Hrun.
    assert ((baddr b =? NULL) = false) as -> by (unfold NULL; lia).
    reflexivity.
  - split; [|split].
    + split; [|exact Hc']. cbn [heap_head with_hdr].
      destruct Hl as [Hh _]. rewrite Hh, !hd_addr_app.
      f_equal. unfold carve. destruct (_ >=? _); reflexivity.
    + cbn [brk with_hdr]. apply geom_carve; [exact Hg|lia|exact Hfit].
    + exact Hbrk.
Qed.

Lemma ordered_snoc lo l b :
  ordered lo l -> last_addr lo l < baddr b -> ordered lo (l ++ [b]).
Proof.
  intros Ho Hlt. apply ordered_app. split; [exact Ho|]. simpl. tauto.
Qed.

Lemma geom_last_below lo l hi :
  geom lo l hi -> l <> [] -> last_addr (lo - 1) l < hi.
Proof.
  intros Hg Hne. destruct (exists_last Hne) as (l' & z & ->).
  rewrite last_addr_app. cbn [last_addr].
  apply geom_split in Hg as (_ & ? & Hg). simpl in Hg.
  unfold PADDED_HEADER_SIZE in *. lia.
Qed.

(** [malloc] on a non-empty directory without a fitting block: it asks the
    system for [padded header + aligned size + ALGN] bytes. *)
Lemma malloc_nofit s l sz :
  repr s l -> l <> [] -> sz <> 0 ->
  Forall (fun x => fits (align_up sz) x = false) l ->
  let incr := to_intptr (wadd (wadd PADDED_HEADER_SIZE (align_up sz)) ALGN) in
  let nb := brk s + incr in
  if (0 <=? nb) && (nb <=? brk_limit s)
  then if PADDED_HEADER_SIZE <=? incr
       then exists m',
           Plain.malloc sz s
             = Some (brk s + PADDED_HEADER_SIZE, with_hdr m' (with_brk nb s))
           /\ linked (with_hdr m' (with_brk nb s))
                     (l ++ [mkBlock (brk s) (align_up sz) false])
           /\ ordered 0 (l ++ [mkBlock (brk s) (align_up sz) false])
       else Plain.malloc sz s = None
  else Plain.malloc sz s = Some (NULL, with_errno ENOMEM s).
Proof.
  intros (Hl & Hg & Hbrk) Hne Hsz Hnf incr nb.
  pose proof (first_fit_none s l (align_up sz) (brk s) Hl Hg Hnf) as Hff.
  pose proof (linked_head_nonnull _ _ Hl Hg Hne) as Hhn.
  pose proof (grow_spec s l (align_up sz) Hl Hne Hg) as Hgrow.
  cbv zeta in Hgrow. fold incr in Hgrow. fold nb in Hgrow.
  assert (Plain.malloc sz s
          = match grow (align_up sz) s with
            | Some (r, s') =>
                Some (match r with
                      | None => NULL
                      | Some new_block => new_block + PADDED_HEADER_SIZE
                      end, s')
            | None => None
            end) as Hm.
  { unfold Plain.malloc. apply Z.eqb_neq in Hsz. rewrite Hsz.
    unfold bind at 1. rewrite (heap_init_nonnull _ _ Hhn). cbn [negb].
    unfold bind at 1, get_heap_head at 1.
    unfold bind at 1, get_fuel at 1.
    unfold bind at 1. rewrite Hff. rewrite Z.eqb_refl. cbn [negb].
    unfold bind at 1.
    destruct (grow (align_up sz) s) as [[[r|] s']|]; reflexivity. }
  destruct ((0 <=? nb) && (nb <=? brk_limit s)).
  - destruct (PADDED_HEADER_SIZE <=? incr).
    + destruct Hgrow as (m' & Hrun & Hc). exists m'. split; [|split].
      * rewrite Hm, Hrun. reflexivity.
      * split; [|exact Hc]. cbn [heap_head with_hdr with_brk].
        destruct Hl as [Hh _]. rewrite Hh.
        destruct l; [congruence|reflexivity].
      * apply ordered_snoc.
        -- eapply ordered_mono; [|apply (geom_ordered _ _ _ Hg)]. lia.
        -- cbn [baddr]. pose proof (geom_last_below _ _ _ Hg Hne) as Hlb.
           exact Hlb.
    + rewrite Hm, Hgrow. reflexivity.
  - rewrite Hm, Hgrow. reflexivity.
Qed.

(** When the request does not wrap, the grown directory is well laid out. *)
Lemma geom_grown l sz b0 :
  geom 1 l b0 -> 0 <= sz ->
  geom 1 (l ++ [mkBlock b0 sz false]) (b0 + (PADDED_HEADER_SIZE + sz + ALGN)).
Proof.
  intros Hg Hsz. apply geom_app. exists b0. split; [exact Hg|].
  simpl. unfold ALGN. lia.
Qed.

Lemma to_intptr_small z : 0 <= z < 2 ^ 63 -> to_intptr z = z.
Proof.
  intros Hz. unfold to_intptr.
  destruct (Z.ltb_spec z (2 ^ 63)); [reflexivity|lia].
Qed.

(** The first call: the bootstrap of the directory. *)
Lemma heap_init_first s sz :
  heap_head s = NULL ->
  let incr := to_intptr (request_size sz) in
  let nb := brk s + incr in
  if (0 <=? nb) && (nb <=? brk_limit s)
  then if PADDED_HEADER_SIZE <=? incr
       then heap_init sz s
            = Some (true,
                    with_heap_head (brk s)
                      (with_hdr (<[brk s := mkHeader (wsub (request_size sz) PADDED_HEADER_SIZE)
                                                     true NULL NULL]> (hdr s))
                                (with_brk nb s)))
       else heap_init sz s = None
  else heap_init sz s = Some (false, with_errno ENOMEM s).
Proof.
  intros Hh incr nb.
  assert (heap_init sz s
          = (r <- sbrk (request_size sz) ;;
             match r with
             | None => put_errno ENOMEM ;;; ret false
             | Some block =>
                 st_size block (wsub (request_size sz) PADDED_HEADER_SIZE) ;;;
                 st_is_free block true ;;;
                 st_next block NULL ;;;
                 st_prev block NULL ;;;
                 put_heap_head block ;;;
                 ret true
             end) s) as ->.
  { unfold heap_init. unfold bind at 1, get_heap_head at 1. rewrite Hh.
    reflexivity. }
  destruct ((0 <=? nb) && (nb <=? brk_limit s)) eqn:Hok.
  2:{ unfold bind at 1, sbrk at 1. fold incr. fold nb. rewrite Hok.
      reflexivity. }
  destruct (PADDED_HEADER_SIZE <=? incr) eqn:Hincr.
  - apply Z.leb_le in Hincr.
    assert (brk s + PADDED_HEADER_SIZE <= nb) as Hnb by (subst nb; lia).
    unfold bind at 1, sbrk at 1. fold incr. fold nb. rewrite Hok.
    exec_unfold.
    repeat (rewrite !lookup_insert_eq; cbn [default from_option id]; below).
    rewrite !insert_insert_eq. reflexivity.
  - apply Z.leb_gt in Hincr.
    unfold bind at 1, sbrk at 1. fold incr. fold nb. rewrite Hok.
    unfold bind at 1, st_size at 1, store at 1. state_cbn.
    assert ((brk s + PADDED_HEADER_SIZE <=? nb) = false) as ->
      by (apply Z.leb_gt; lia).
    reflexivity.
Qed.

(** * The release path *)

Lemma merge_next_unfold fuel current :
  merge_next fuel current =
  (cn <- ld_next current ;;
   if cn =? NULL then ret tt else
   nf <- ld_is_free cn ;;
   if negb nf then ret tt else
   match fuel with
   | O => undefined
   | S fuel' =>
       let next_block := cn in
       csz <- ld_size current ;;
       nsz <- ld_size next_block ;;
       st_size current (wadd csz (wadd PADDED_HEADER_SIZE nsz)) ;;;
       nn <- ld_next next_block ;;
       st_next current nn ;;;
       nn <- ld_next next_block ;;
       (if nn =? NULL then ret tt else st_prev nn current) ;;;
       merge_next fuel' current
   end).
Proof. destruct fuel; reflexivity. Qed.

(** One round of the forward loop: [b] absorbs its successor [n]. *)
Lemma merge_step_chain s pv b n l2 (k : M unit) :
  chain (hdr s) pv (b :: n :: l2) NULL ->
  0 < baddr b -> ordered (baddr b) (n :: l2) ->
  inside s (b :: n :: l2) ->
  exists m',
    (csz <- ld_size (baddr b) ;;
     nsz <- ld_size (baddr n) ;;
     st_size (baddr b) (wadd csz (wadd PADDED_HEADER_SIZE nsz)) ;;;
     nn <- ld_next (baddr n) ;;
     st_next (baddr b) nn ;;;
     nn <- ld_next (baddr n) ;;
     (if nn =? NULL then ret tt else st_prev nn (baddr b)) ;;;
     k) s = k (with_hdr m' s)
    /\ chain m' pv (merge b n :: l2) NULL
    /\ (forall x, x < baddr b -> m' !! x = hdr s !! x).
Proof.
  intros Hc Ha Ho Hin.
  apply inside_cons in Hin as [Hbi Hin]. apply inside_cons in Hin as [Hni Hin].
  apply chain_cons in Hc as [Hb Hc]. apply chain_cons in Hc as [Hn Hc].
  cbn [hd_addr] in Hb. destruct Ho as [Hbn Ho].
  pose proof (ordered_above _ _ Ho) as Hab.
  assert (baddr n <> baddr b) by lia.
  destruct l2 as [|c l2'].
  - cbn [hd_addr] in Hn. eexists. split; [|split].
    + exec_unfold. reads Hb. reads Hn.
      repeat (below; simplify_map_eq). reflexivity.
    + rewrite chain_cons. cbn [merge baddr bsize bfree hd_addr].
      split; [|apply chain_nil]. simplify_map_eq. reflexivity.
    + intros x Hx. rewrite !lookup_insert_ne by lia. reflexivity.
  - cbn [hd_addr] in Hn. apply chain_cons in Hc as [Hcc Hc].
    destruct Ho as [Hnc Ho]. pose proof (ordered_above _ _ Ho) as Hab2.
    assert (baddr c <> baddr b) by lia. assert (baddr c <> baddr n) by lia.
    assert ((baddr c =? NULL) = false) as Hnz by (unfold NULL; lia).
    apply inside_cons in Hin as [Hci Hin].
    eexists. split; [|split].
    + exec_unfold. reads Hb. reads Hn.
      repeat (below; simplify_map_eq). rewrite Hnz.
      repeat (below; simplify_map_eq). reflexivity.
    + rewrite !chain_cons. cbn [merge baddr bsize bfree hd_addr].
      split; [|split].
      * simplify_map_eq. reflexivity.
      * simplify_map_eq. reflexivity.
      * eapply chain_frame; [exact Hc|].
        eapply Forall_impl; [exact Hab2|]. intros x Hx. simpl in Hx.
        rewrite !lookup_insert_ne by lia. reflexivity.
    + intros x Hx. rewrite !lookup_insert_ne by lia. reflexivity.
Qed.

(** The forward loop: [b] absorbs the run of free blocks after it. *)
Lemma merge_next_chain l2 : forall s pv b fuel,
  chain (hdr s) pv (b :: l2) NULL ->
  0 < baddr b -> ordered (baddr b) l2 ->
  inside s (b :: l2) ->
  (length l2 <= fuel)%nat ->
  exists m',
    merge_next fuel (baddr b) s = Some (tt, with_hdr m' s)
    /\ chain m' pv (absorb b l2) NULL
    /\ (forall x, x < baddr b -> m' !! x = hdr s !! x).
Proof.
  induction l2 as [|n l2 IH]; intros s pv b fuel Hc Ha Ho Hin Hlen.
  - exists (hdr s). rewrite with_hdr_id. split; [|split; [exact Hc|reflexivity]].
    rewrite merge_next_unfold. apply chain_cons in Hc as [Hb _].
    exec_unfold. reads Hb. reflexivity.
  - pose proof Hc as Hc0. apply chain_cons in Hc0 as [Hb Hc1].
    apply chain_cons in Hc1 as [Hn _]. cbn [hd_addr] in Hb.
    pose proof Ho as Ho0. destruct Ho0 as [Hbn Ho'].
    assert ((baddr n =? NULL) = false) as Hnz by (unfold NULL; lia).
    rewrite merge_next_unfold.
    unfold bind at 1, ld_next at 1, load at 1. rewrite Hb. cbn [next].
    rewrite Hnz.
    unfold bind at 1, ld_is_free at 1, load at 1. rewrite Hn. cbn [is_free].
    cbn [absorb]. destruct (bfree n) eqn:Hnf; cbn [negb].
    + destruct fuel as [|fuel]; [cbn [length] in Hlen; lia|].
      cbv zeta.
      destruct (merge_step_chain s pv b n l2 (merge_next fuel (baddr b)) Hc Ha Ho Hin)
        as (m1 & Hrun & Hc' & Hfr).
      rewrite Hrun.
      destruct (IH (with_hdr m1 s) pv (merge b n) fuel) as (m' & Hrun' & Hc'' & Hfr').
      * exact Hc'.
      * exact Ha.
      * cbn [merge baddr]. eapply ordered_mono; [|exact Ho']. lia.
      * apply inside_cons in Hin as [Hbi Hin].
        apply inside_cons in Hin as [_ Hin].
        apply inside_cons. split; [exact Hbi|exact Hin].
      * cbn [length] in Hlen. lia.
      * exists m'. split; [exact Hrun'|]. split; [exact Hc''|].
        intros x Hx. rewrite (Hfr' x Hx). apply (Hfr x Hx).
    + exists (hdr s). rewrite with_hdr_id.
      split; [reflexivity|]. split; [exact Hc|reflexivity].
Qed.

Lemma absorb_head b l :
  exists c r, absorb b l = c :: r /\ baddr c = baddr b /\ bfree c = bfree b.
Proof.
  revert b. induction l as [|n l IH]; intros b; simpl.
  - exists b, []. auto.
  - destruct (bfree n).
    + destruct (IH (merge b n)) as (c & r & -> & Ha & Hf).
      exists c, r. auto.
    + exists b, (n :: l). auto.
Qed.

Lemma join_prev_nil c r : join_prev [] c r = c :: r.
Proof. reflexivity. Qed.

Lemma join_prev_snoc l1 p c r :
  join_prev (l1 ++ [p]) c r
  = l1 ++ (if bfree p then [merge p c] else [p; c]) ++ r.
Proof.
  induction l1 as [|x l1 IH].
  - simpl. destruct (bfree p); reflexivity.
  - cbn [app]. rewrite <- IH. cbn [join_prev].
    destruct (l1 ++ [p]) eqn:E; [destruct l1; discriminate|reflexivity].
Qed.

Lemma hd_addr_join_prev l1 c r e :
  hd_addr (join_prev l1 c r) e = hd_addr (l1 ++ [c]) e.
Proof.
  destruct l1 as [|p l1]; [reflexivity|].
  cbn [join_prev app hd_addr].
  destruct l1; [destruct (bfree p)|]; reflexivity.
Qed.

(** The backward merge, on a chain. *)
Lemma merge_prev_chain s l1 c r :
  chain (hdr s) NULL (l1 ++ c :: r) NULL ->
  ordered 0 (l1 ++ c :: r) ->
  inside s (l1 ++ c :: r) ->
  exists m',
    merge_prev (baddr c) s = Some (tt, with_hdr m' s)
    /\ chain m' NULL (join_prev l1 c r) NULL.
Proof.
  intros Hc Ho Hin.
  destruct (decide (l1 = [])) as [->|Hne].
  - exists (hdr s). rewrite with_hdr_id. split; [|exact Hc].
    apply chain_cons in Hc as [Hcc _].
    unfold merge_prev. exec_unfold. reads Hcc. reflexivity.
  - destruct (exists_last Hne) as (l1' & p & ->). clear Hne.
    rewrite join_prev_snoc. rewrite <- app_assoc in Hc, Ho, Hin.
    cbn [app] in Hc, Ho, Hin.
    apply inside_app in Hin as [_ Hin].
    apply inside_cons in Hin as [Hpi Hin].
    apply inside_cons in Hin as [Hci Hin].
    pose proof (ordered_split _ _ _ _ Ho) as (Hb1 & Hp0 & _ & Hab).
    apply chain_app in Hc as [Hc1 Hc2]. cbn [hd_addr] in Hc1.
    pose proof Hc2 as Hc2'.
    apply chain_cons in Hc2 as [Hp Hc2]. cbn [hd_addr] in Hp.
    apply chain_cons in Hc2 as [Hcc Hc3].
    inversion Hab as [|? ? Hpc Hab']; subst.
    assert ((baddr p =? NULL) = false) as Hnz by (unfold NULL; lia).
    assert (baddr c <> baddr p) by lia.
    destruct (bfree p) eqn:Hpf.
    2:{ exists (hdr s). rewrite with_hdr_id. split.
        - unfold merge_prev. exec_unfold. reads Hcc. rewrite Hnz.
          reads Hp. reflexivity.
        - apply chain_app. split; [exact Hc1|exact Hc2']. }
    destruct r as [|d r'].
    + cbn [hd_addr] in Hcc. eexists. split.
      * unfold merge_prev. exec_unfold. reads Hcc. rewrite Hnz.
        reads Hp. cbn [negb]. reads Hcc.
        repeat (below; simplify_map_eq). reflexivity.
      * apply chain_app. split.
        -- cbn [app hd_addr merge baddr]. eapply chain_frame; [exact Hc1|].
           eapply Forall_impl; [exact Hb1|]. intros x Hx. simpl in Hx.
           rewrite !lookup_insert_ne by lia. reflexivity.
        -- cbn [app]. rewrite chain_cons. cbn [merge baddr bsize bfree hd_addr].
           split; [|apply chain_nil]. simplify_map_eq. rewrite Hpf. reflexivity.
    + cbn [hd_addr] in Hcc. apply chain_cons in Hc3 as [Hd Hc3].
      inversion Hab' as [|? ? Hpd Hab'']; subst.
      apply ordered_app in Ho as [_ Ho]. cbn [ordered] in Ho.
      destruct Ho as (_ & Hcd0 & Hdd & Ho).
      pose proof (ordered_above _ _ Ho) as Habd.
      assert (baddr d <> baddr p) by lia. assert (baddr d <> baddr c) by lia.
      assert ((baddr d =? NULL) = false) as Hdz by (unfold NULL; lia).
      apply inside_cons in Hin as [Hdi Hin].
      eexists. split.
      * unfold merge_prev. exec_unfold. reads Hcc. rewrite Hnz.
        reads Hp. cbn [negb]. reads Hcc.
        repeat (below; simplify_map_eq). rewrite Hdz.
        repeat (below; simplify_map_eq). reflexivity.
      * apply chain_app. split.
        -- cbn [app hd_addr merge baddr]. eapply chain_frame; [exact Hc1|].
           eapply Forall_impl; [exact Hb1|]. intros x Hx. simpl in Hx.
           rewrite !lookup_insert_ne by lia. reflexivity.
        -- cbn [app]. rewrite !chain_cons. cbn [merge baddr bsize bfree hd_addr].
           split; [|split].
           ++ simplify_map_eq. rewrite Hpf. reflexivity.
           ++ simplify_map_eq. reflexivity.
           ++ eapply chain_frame; [exact Hc3|].
              eapply Forall_impl; [exact Habd|]. intros x Hx. simpl in Hx.
              rewrite !lookup_insert_ne by lia. reflexivity.
Qed.

Lemma ordered_absorb lo b l :
  ordered lo (b :: l) -> ordered lo (absorb b l).
Proof.
  revert b. induction l as [|n l IH]; intros b Ho; [exact Ho|].
  cbn [absorb]. destruct (bfree n); [|exact Ho].
  apply IH. destruct Ho as (Hb & Hn & Ho). split; [exact Hb|].
  cbn [merge baddr]. eapply ordered_mono; [|exact Ho]. lia.
Qed.

Lemma ordered_join_prev lo l1 c r :
  ordered lo (l1 ++ c :: r) -> ordered lo (join_prev l1 c r).
Proof.
  intros Ho. destruct (decide (l1 = [])) as [->|Hne]; [exact Ho|].
  destruct (exists_last Hne) as (l1' & p & ->). rewrite join_prev_snoc.
  rewrite <- app_assoc in Ho. cbn [app] in Ho.
  destruct (bfree p); [|exact Ho].
  apply ordered_app in Ho as [Ho1 Ho2]. apply ordered_app. split; [exact Ho1|].
  cbn [app]. destruct Ho2 as (Hp & Hc & Ho2). split; [exact Hp|].
  cbn [merge baddr]. eapply ordered_mono; [|exact Ho2]. lia.
Qed.

Lemma inside_absorb s b l : inside s (b :: l) -> inside s (absorb b l).
Proof.
  revert b. induction l as [|n l IH]; intros b Hin; [exact Hin|].
  cbn [absorb]. destruct (bfree n); [|exact Hin].
  apply IH. apply inside_cons in Hin as [Hb Hin].
  apply inside_cons in Hin as [_ Hin]. apply inside_cons. split; assumption.
Qed.

(** [free] of an in-use block [b] of the directory [l1 ++ b :: l2]. *)
Lemma release_chain s l1 b l2 :
  linked s (l1 ++ b :: l2) ->
  ordered 0 (l1 ++ b :: l2) ->
  inside s (l1 ++ b :: l2) ->
  bfree b = false ->
  exists m' c r,
    release (payload b) s = Some (tt, with_hdr m' s)
    /\ absorb (mark_free b) l2 = c :: r
    /\ linked (with_hdr m' s) (join_prev l1 c r)
    /\ ordered 0 (join_prev l1 c r).
Proof.
  intros [Hh Hc] Ho Hin Hbf.
  pose proof Hin as Hin0. apply inside_app in Hin0 as [Hin1 Hin2].
  pose proof Hin2 as Hin2'. apply inside_cons in Hin2' as [Hbi _].
  pose proof (ordered_split _ _ _ _ Ho) as (Hb1 & Hb0 & _ & Hab).
  pose proof Hc as Hc0. apply chain_app in Hc0 as [Hc1 Hc2].
  pose proof Hc2 as Hc2'. apply chain_cons in Hc2' as [Hb _].
  (* the block is marked free *)
  set (m1 := <[baddr b := set_is_free true
                 (mkHeader (bsize b) (bfree b) (hd_addr l2 NULL) (last_addr NULL l1))]>
               (hdr s)).
  assert (chain m1 (last_addr NULL l1) (mark_free b :: l2) NULL) as Hm1b.
  { apply (chain_update_head _ _ _ _ _ (bsize b) true) in Hc2; [exact Hc2|exact Hab]. }
  assert (chain m1 NULL (l1 ++ mark_free b :: l2) NULL) as Hm1.
  { apply chain_app. split; [|exact Hm1b].
    cbn [hd_addr mark_free baddr]. eapply chain_frame; [exact Hc1|].
    eapply Forall_impl; [exact Hb1|]. intros x Hx. simpl in Hx.
    unfold m1. rewrite lookup_insert_ne by lia. reflexivity. }
  assert (ordered 0 (l1 ++ mark_free b :: l2)) as Ho1.
  { apply ordered_app in Ho as [Ho1 Ho2]. apply ordered_app. split; assumption. }
  pose proof (chain_length _ _ _ _ _ Hm1 Ho1) as Hfuel.
  rewrite length_app in Hfuel. cbn [length] in Hfuel.
  (* forward loop *)
  destruct (merge_next_chain l2 (with_hdr m1 s) (last_addr NULL l1) (mark_free b)
              (base.size m1)) as (m2 & Hrun2 & Hc2n & Hfr2).
  { exact Hm1b. }
  { exact Hb0. }
  { apply ordered_app in Ho as [_ [_ Ho2]]. exact Ho2. }
  { apply inside_cons in Hin2 as [Hx Hy]. apply inside_cons.
    split; [exact Hx|exact Hy]. }
  { lia. }
  destruct (absorb_head (mark_free b) l2) as (c & r & Habs & Hca & Hcf).
  cbn [mark_free baddr bfree] in Hca, Hcf, Hrun2, Hfr2.
  rewrite Habs in Hc2n.
  assert (chain m2 NULL (l1 ++ c :: r) NULL) as Hm2.
  { apply chain_app. split; [|exact Hc2n].
    cbn [hd_addr]. rewrite Hca.
    eapply chain_frame; [exact Hc1|].
    eapply Forall_impl; [exact Hb1|]. intros x Hx. simpl in Hx.
    rewrite Hfr2 by lia. cbn [hdr with_hdr]. unfold m1.
    rewrite lookup_insert_ne by lia. reflexivity. }
  assert (ordered 0 (l1 ++ c :: r)) as Ho2.
  { apply ordered_app in Ho1 as [Hoa Hob]. apply ordered_app. split; [exact Hoa|].
    rewrite <- Habs. apply ordered_absorb. exact Hob. }
  (* backward merge *)
  assert (inside (with_hdr m2 s) (l1 ++ c :: r)) as Hin3.
  { apply inside_app. split; [exact Hin1|]. rewrite <- Habs.
    apply (inside_absorb s (mark_free b) l2).
    apply inside_cons in Hin2 as [Hx Hy]. apply inside_cons.
    split; [exact Hx|exact Hy]. }
  destruct (merge_prev_chain (with_hdr m2 s) l1 c r Hm2 Ho2 Hin3)
    as (m3 & Hrun3 & Hc3).
  exists m3, c, r. split; [|split; [exact Habs|split]].
  - unfold release, payload.
    replace (baddr b + PADDED_HEADER_SIZE - PADDED_HEADER_SIZE) with (baddr b) by lia.
    unfold bind at 1, ld_is_free at 1, load at 1. rewrite Hb. cbn [is_free].
    rewrite Hbf.
    unfold bind at 1, st_is_free at 1, store at 1. below.
    rewrite Hb. cbn [from_option id].
    fold m1.
    unfold bind at 1, get_fuel at 1. cbn [hdr with_hdr].
    unfold bind at 1. rewrite Hrun2.
    rewrite <- Hca. exact Hrun3.
  - split; [|exact Hc3]. cbn [heap_head with_hdr].
    rewrite Hh, hd_addr_join_prev, !hd_addr_app. cbn [hd_addr].
    rewrite Hca. reflexivity.
  - apply ordered_join_prev. exact Ho2.
Qed.

Lemma free_list_split lo l1 b l2 c r :
  ordered lo (l1 ++ b :: l2) -> bfree b = false ->
  absorb (mark_free b) l2 = c :: r ->
  free_list (baddr b) (l1 ++ b :: l2) = join_prev l1 c r.
Proof.
  revert lo. induction l1 as [|p l1 IH]; intros lo Ho Hbf Habs.
  - cbn [app free_list join_prev]. rewrite Z.eqb_refl, Hbf. exact Habs.
  - pose proof (ordered_split _ _ _ _ Ho) as (Hb1 & _ & _ & _).
    inversion Hb1 as [|? ? Hp Hb1']; subst.
    cbn [app] in Ho. destruct Ho as [Hlo Ho].
    cbn [app free_list].
    assert ((baddr p =? baddr b) = false) as -> by lia.
    destruct l1 as [|q l1].
    + cbn [app join_prev]. rewrite Z.eqb_refl, Hbf. cbn [andb negb].
      destruct (bfree p).
      * rewrite Habs. reflexivity.
      * cbn [free_list]. rewrite Z.eqb_refl, Hbf. rewrite Habs. reflexivity.
    + inversion Hb1' as [|? ? Hq _]; subst.
      cbn [app]. assert ((baddr q =? baddr b) = false) as -> by lia.
      cbn [andb]. cbn [join_prev]. f_equal.
      apply (IH _ Ho Hbf Habs).
Qed.

(** [free], on directories. *)
Lemma free_linked s l b :
  linked s l -> ordered 0 l -> inside s l -> b ∈ l -> bfree b = false ->
  exists m',
    Plain.free (payload b) s = Some (tt, with_hdr m' s)
    /\ linked (with_hdr m' s) (free_list (baddr b) l)
    /\ ordered 0 (free_list (baddr b) l).
Proof.
  intros Hl Ho Hins Hin Hbf.
  apply list_elem_of_split in Hin as (l1 & l2 & ->).
  destruct (release_chain s l1 b l2 Hl Ho Hins Hbf)
    as (m' & c & r & Hrun & Habs & Hl' & Ho').
  rewrite (free_list_split _ _ _ _ _ _ Ho Hbf Habs).
  exists m'. split; [|split; assumption].
  unfold Plain.free.
  pose proof (ordered_split _ _ _ _ Ho) as (_ & Hb0 & _).
  assert ((payload b =? NULL) = false) as ->
    by (unfold payload, NULL, PADDED_HEADER_SIZE; lia).
  exact Hrun.
Qed.

(** Inside a well-laid-out arena the merged size does not wrap. *)
Lemma merge_size lo b n l hi :
  geom lo (b :: n :: l) hi -> 0 <= lo -> hi < SIZE_MOD ->
  bsize (merge b n) = bsize b + PADDED_HEADER_SIZE + bsize n.
Proof.
  intros (Hlo & Hb & Hn & Hns & Hg) Hlo0 Hhi. apply geom_le in Hg.
  cbn [merge bsize]. unfold wadd.
  rewrite (wrap_small (_ + bsize n)), wrap_small;
    unfold SIZE_MOD, PADDED_HEADER_SIZE in *; lia.
Qed.

Lemma geom_merge lo b n l hi :
  geom lo (b :: n :: l) hi -> 0 <= lo -> hi < SIZE_MOD ->
  geom lo (merge b n :: l) hi.
Proof.
  intros Hg Hlo0 Hhi. pose proof (merge_size _ _ _ _ _ Hg Hlo0 Hhi) as Hsz.
  destruct Hg as (Hlo & Hb & Hn & Hns & Hg).
  cbn [geom]. rewrite Hsz. cbn [merge baddr].
  repeat split; [lia|unfold PADDED_HEADER_SIZE; lia|].
  eapply geom_weaken; [| |exact Hg]; unfold PADDED_HEADER_SIZE in *; lia.
Qed.

Lemma geom_absorb lo b l hi :
  geom lo (b :: l) hi -> 0 <= lo -> hi < SIZE_MOD ->
  geom lo (absorb b l) hi.
Proof.
  revert b. induction l as [|n l IH]; intros b Hg Hlo Hhi; [exact Hg|].
  cbn [absorb]. destruct (bfree n); [|exact Hg].
  apply IH; [|exact Hlo|exact Hhi]. apply geom_merge; assumption.
Qed.

Lemma geom_join_prev lo l1 c r hi :
  geom lo (l1 ++ c :: r) hi -> 0 <= lo -> hi < SIZE_MOD ->
  geom lo (join_prev l1 c r) hi.
Proof.
  intros Hg Hlo Hhi. destruct (decide (l1 = [])) as [->|Hne]; [exact Hg|].
  destruct (exists_last Hne) as (l1' & p & ->). rewrite join_prev_snoc.
  rewrite <- app_assoc in Hg. cbn [app] in Hg.
  destruct (bfree p); [|exact Hg].
  apply geom_app in Hg as (mid & Hg1 & Hg2). apply geom_app.
  exists mid. split; [exact Hg1|]. cbn [app].
  apply geom_merge; [exact Hg2| |exact Hhi].
  apply geom_le in Hg1. lia.
Qed.

Lemma geom_free_list lo l b hi :
  geom lo l hi -> 0 < lo -> hi < SIZE_MOD -> b ∈ l -> bfree b = false ->
  geom lo (free_list (baddr b) l) hi.
Proof.
  intros Hg Hlo Hhi Hin Hbf.
  apply list_elem_of_split in Hin as (l1 & l2 & ->).
  destruct (absorb_head (mark_free b) l2) as (c & r & Habs & _).
  rewrite (free_list_split (lo - 1) _ _ _ _ _ (geom_ordered _ _ _ Hg) Hbf Habs).
  apply geom_join_prev; [|lia|exact Hhi].
  apply geom_app in Hg as (mid & Hg1 & Hg2). apply geom_app.
  exists mid. split; [exact Hg1|]. rewrite <- Habs.
  apply geom_absorb; [exact Hg2| |exact Hhi].
  apply geom_le in Hg1. lia.
Qed.

(** [free] keeps the invariant of the directory. *)
Lemma free_repr s l b :
  repr s l -> b ∈ l -> bfree b = false ->
  exists m',
    Plain.free (payload b) s = Some (tt, with_hdr m' s)
    /\ repr (with_hdr m' s) (free_list (baddr b) l).
Proof.
  intros (Hl & Hg & Hbrk) Hin Hbf.
  assert (ordered 0 l) as Ho by apply (geom_ordered _ _ _ Hg).
  assert (inside s l) as Hins by (apply (geom_inside s 1 l (brk s) Hg); lia).
  destruct (free_linked s l b Hl Ho Hins Hin Hbf) as (m' & Hrun & Hl' & _).
  exists m'. split; [exact Hrun|]. split; [exact Hl'|]. split; [|exact Hbrk].
  cbn [brk with_hdr]. apply geom_free_list; try assumption; [lia|].
  unfold SIZE_MOD. lia.
Qed.

Lemma absorb_stop b l :
  (forall n, head l = Some n -> bfree n = false) -> absorb b l = b :: l.
Proof.
  destruct l as [|n l]; [reflexivity|]. intros H. cbn [absorb].
  rewrite (H n eq_refl). reflexivity.
Qed.

Lemma join_prev_keep l1 c r :
  (forall p, last l1 = Some p -> bfree p = false) ->
  join_prev l1 c r = l1 ++ c :: r.
Proof.
  intros H. destruct (decide (l1 = [])) as [->|Hne]; [reflexivity|].
  destruct (exists_last Hne) as (l1' & p & ->). rewrite join_prev_snoc.
  rewrite (H p) by apply last_snoc. rewrite <- app_assoc. reflexivity.
Qed.

(** The first block that fits, if any. *)
Lemma fit_dec asz l :
  Forall (fun x => fits asz x = false) l
  \/ exists l1 b l2,
       l = l1 ++ b :: l2
       /\ Forall (fun x => fits asz x = false) l1
       /\ fits asz b = true.
Proof.
  induction l as [|x l IH]; [left; constructor|].
  destruct (fits asz x) eqn:Hx.
  - right. exists [], x, l. repeat split; [constructor|exact Hx].
  - destruct IH as [IH|(l1 & b & l2 & -> & Hnf & Hb)].
    + left. constructor; assumption.
    + right. exists (x :: l1), b, l2. repeat split; [constructor; assumption|exact Hb].
Qed.

(** * The directory as the chain walked from [heap_head] *)

Lemma walk_chain m l : forall pv fuel,
  chain m pv l NULL -> Forall (fun x => 0 < baddr x) l ->
  (length l <= fuel)%nat ->
  walk fuel m (hd_addr l NULL) = Some l.
Proof.
  induction l as [|b l IH]; intros pv fuel Hc Hpos Hlen.
  - destruct fuel; reflexivity.
  - apply chain_cons in Hc as [Hb Hc].
    inversion Hpos as [|? ? Hb0 Hpos']; subst.
    destruct fuel as [|fuel]; [cbn [length] in Hlen; lia|].
    cbn [walk hd_addr].
    assert ((baddr b =? NULL) = false) as -> by (unfold NULL; lia).
    rewrite Hb. cbn [next size is_free].
    rewrite (IH (baddr b) fuel Hc Hpos') by (cbn [length] in Hlen; lia).
    destruct b; reflexivity.
Qed.

Lemma linked_directory s l :
  linked s l -> ordered 0 l -> directory s = Some l.
Proof.
  intros [Hh Hc] Ho. unfold directory. rewrite Hh.
  apply (walk_chain _ _ NULL); [exact Hc|apply (ordered_above _ _ Ho)|].
  apply (chain_length _ _ _ _ _ Hc Ho).
Qed.

Lemma repr_directory s l : repr s l -> directory s = Some l.
Proof.
  intros (Hl & Hg & _). apply linked_directory; [exact Hl|].
  apply (geom_ordered _ _ _ Hg).
Qed.

Lemma repr_demo : repr demo_state demo_dir.
Proof.
  split; [split|split].
  - reflexivity.
  - repeat constructor.
  - simpl. unfold PADDED_HEADER_SIZE. lia.
  - simpl. lia.
Qed.

(** * The allocation path *)

(** C2. For a non-zero request, [malloc] (the same text in [asgn01/malloc.c]
    and in the plain build) hands out the first block, in address order from
    the head, that is free and at least as large as the aligned request: the
    blocks [l1] before it are in use or too small.  The block is split
    exactly when its size reaches the aligned request plus a padded header
    plus one alignment unit: its size then becomes the aligned request and a
    free block with the rest follows it at once; otherwise the whole block
    is handed out.  Nothing is asked from the system. *)
Theorem malloc_first_fit s l1 b l2 sz :
  repr s (l1 ++ b :: l2) ->
  sz <> 0 ->
  Forall (fun x => bfree x = false \/ bsize x < align_up sz) l1 ->
  bfree b = true ->
  align_up sz <= bsize b ->
  exists s',
    Plain.malloc sz s = Some (payload b, s')
    /\ (align_up sz + PADDED_HEADER_SIZE + ALGN <= bsize b ->
        repr s' (l1 ++ mkBlock (baddr b) (align_up sz) false
                    :: mkBlock (baddr b + PADDED_HEADER_SIZE + align_up sz)
                               (bsize b - align_up sz - PADDED_HEADER_SIZE)
                               true
                    :: l2))
    /\ (bsize b < align_up sz + PADDED_HEADER_SIZE + ALGN ->
        repr s' (l1 ++ mkBlock (baddr b) (bsize b) false :: l2))
    /\ brk s' = brk s /\ errno s' = errno s /\ bytes s' = bytes s.
Proof.
  intros Hr Hsz Hnf Hbf Hge.
  assert (Forall (fun x => fits (align_up sz) x = false) l1) as Hnf'.
  { eapply Forall_impl; [exact Hnf|]. intros x [Hx|Hx]; unfold fits.
    - rewrite Hx. reflexivity.
    - apply andb_false_iff. right. lia. }
  assert (fits (align_up sz) b = true) as Hfit.
  { unfold fits. rewrite Hbf. cbn [andb]. lia. }
  destruct (malloc_fit s l1 b l2 sz Hr Hsz Hnf' Hfit) as (m' & Hrun & Hr').
  exists (with_hdr m' s). split; [exact Hrun|].
  unfold carve in Hr'. split; [|split; [|repeat split]].
  - intros Hsp. destruct (bsize b >=? _) eqn:E; [exact Hr'|lia].
  - intros Hsp. destruct (bsize b >=? _) eqn:E; [lia|exact Hr'].
Qed.

Lemma malloc_first_fit_witness :
  exists s',
    Plain.malloc 100 demo_state = Some (4176, s')
    /\ repr s' [mkBlock 4096 16 false; mkBlock 4144 112 false;
                mkBlock 4288 65312 true].
Proof.
  destruct (malloc_first_fit demo_state [mkBlock 4096 16 false]
              (mkBlock 4144 65456 true) [] 100)
    as (s' & Hrun & Hsplit & _).
  - exact repr_demo.
  - lia.
  - repeat constructor.
  - reflexivity.
  - vm_compute. discriminate.
  - exists s'. split; [exact Hrun|]. apply Hsplit. vm_compute. discriminate.
Defined.

(** C8. [malloc(0)] returns [NULL] and leaves the whole state as it was: no
    header, size or flag changes, the break does not move and [errno] is
    not set.  The same holds in the logging build. *)
Theorem malloc_zero s :
  Plain.malloc 0 s = Some (NULL, s) /\ Debug.malloc 0 s = Some (NULL, s).
Proof. split; reflexivity. Qed.

(** * The first call *)

Lemma request_size_plain asz :
  0 <= asz -> asz + PADDED_HEADER_SIZE + ALGN <= SIZE_MAX ->
  request_size asz
  = (if PADDED_HEADER_SIZE + asz >? 64 * 1024
     then PADDED_HEADER_SIZE + asz + ALGN else 64 * 1024)
  /\ wsub (request_size asz) PADDED_HEADER_SIZE
     = request_size asz - PADDED_HEADER_SIZE.
Proof.
  intros H0 Hmax. unfold request_size. cbv zeta.
  rewrite (wadd_small PADDED_HEADER_SIZE asz)
    by (unfold SIZE_MAX, SIZE_MOD, PADDED_HEADER_SIZE, ALGN in *; lia).
  rewrite wadd_small
    by (unfold SIZE_MAX, SIZE_MOD, PADDED_HEADER_SIZE, ALGN in *; lia).
  split; [reflexivity|].
  destruct (_ >? _) eqn:E; apply wsub_small;
    unfold SIZE_MAX, SIZE_MOD, PADDED_HEADER_SIZE, ALGN in *; lia.
Qed.

Lemma malloc_after_init s s1 sz :
  sz <> 0 -> heap_init (align_up sz) s = Some (true, s1) ->
  heap_head s1 <> NULL ->
  Plain.malloc sz s = Plain.malloc sz s1.
Proof.
  intros Hsz Hinit Hh. unfold Plain.malloc.
  apply Z.eqb_neq in Hsz. rewrite Hsz.
  unfold bind at 1. rewrite Hinit. symmetry.
  unfold bind at 1. rewrite (heap_init_nonnull _ _ Hh). reflexivity.
Qed.

(** C4, as the code has it.  On the first request (empty directory) with
    aligned need [asz], [malloc] asks the system for
    [padded header + asz + ALGN] bytes when [padded header + asz] exceeds
    64 KiB and for exactly 64 KiB otherwise, the sums taken in [size_t].
    Short of wrap-around this is [max (64 KiB) (padded header + asz + ALGN)]
    for every aligned need but [64 KiB - padded header], where 64 KiB are
    asked.  When [padded header + asz + ALGN] stays below [2^63] (the
    argument of [sbrk] is signed: beyond that the request is no request
    for that many bytes), a granted request is installed as one free block
    of the grant minus the padded header, the only entry of the directory,
    and the call goes on as a call on that directory; a refused one sets
    [errno] and returns [NULL]. *)
Theorem first_call_bootstrap s sz :
  heap_head s = NULL -> brk s <> NULL ->
  let asz := align_up sz in
  let req := request_size asz in
  let nb := brk s + to_intptr req in
  (asz + PADDED_HEADER_SIZE + ALGN <= SIZE_MAX ->
     req = (if PADDED_HEADER_SIZE + asz >? 64 * 1024
            then PADDED_HEADER_SIZE + asz + ALGN else 64 * 1024)
     /\ wsub req PADDED_HEADER_SIZE = req - PADDED_HEADER_SIZE
     /\ (asz <> 64 * 1024 - PADDED_HEADER_SIZE ->
         req = Z.max (64 * 1024) (PADDED_HEADER_SIZE + asz + ALGN)))
  /\ (asz + PADDED_HEADER_SIZE + ALGN < 2 ^ 63 ->
      0 <= nb <= brk_limit s ->
      exists s1,
        heap_init asz s = Some (true, s1)
        /\ brk s1 = nb
        /\ directory s1
           = Some [mkBlock (brk s) (wsub req PADDED_HEADER_SIZE) true]
        /\ (sz <> 0 -> Plain.malloc sz s = Plain.malloc sz s1))
  /\ (~ 0 <= nb <= brk_limit s ->
      heap_init asz s = Some (false, with_errno ENOMEM s)
      /\ (sz <> 0 -> Plain.malloc sz s = Some (NULL, with_errno ENOMEM s))).
Proof.
  intros Hh Hb asz req nb.
  pose proof (heap_init_first s asz Hh) as Hinit. cbv zeta in Hinit.
  fold req nb in Hinit.
  split; [|split].
  - intros Hmax. pose proof (align_up_range sz) as Hr.
    destruct (request_size_plain asz) as [E1 E2]; [unfold asz; lia|exact Hmax|].
    fold req in E1, E2. split; [exact E1|split; [exact E2|]].
    intros Hne. rewrite E1.
    pose proof (align_up_multiple sz) as Hm. fold asz in Hm.
    apply Z.mod_divide in Hm; [|lia]. destruct Hm as [k Hk].
    unfold PADDED_HEADER_SIZE, ALGN in *.
    destruct (_ >? _) eqn:E; lia.
  - intros Hsmall Hok.
    assert ((0 <=? nb) && (nb <=? brk_limit s) = true) as E.
    { apply andb_true_iff. split; lia. }
    rewrite E in Hinit.
    assert ((PADDED_HEADER_SIZE <=? to_intptr req) = true) as E'.
    { pose proof (align_up_range sz) as Hr. fold asz in Hr.
      destruct (request_size_plain asz) as [E1 _];
        [lia|unfold SIZE_MAX, SIZE_MOD; lia|].
      fold req in E1. apply Z.leb_le. rewrite E1. unfold to_intptr.
      unfold PADDED_HEADER_SIZE, ALGN in *.
      destruct (_ >? _); destruct (_ <? _) eqn:E2;
        try apply Z.ltb_ge in E2; lia. }
    rewrite E' in Hinit. eexists. split; [exact Hinit|].
    split; [reflexivity|]. split.
    + unfold directory. cbn [hdr heap_head with_heap_head with_hdr with_brk].
      assert (base.size (<[brk s := mkHeader (wsub req PADDED_HEADER_SIZE) true NULL NULL]> (hdr s)) <> 0%nat) as Hsz.
      { eapply map_size_ne_0_lookup_2. rewrite lookup_insert_eq. eauto. }
      destruct (base.size _) as [|f]; [congruence|].
      cbn [walk]. apply Z.eqb_neq in Hb. rewrite Hb.
      rewrite lookup_insert_eq. cbn [next size is_free].
      destruct f; reflexivity.
    + intros Hsz. apply (malloc_after_init _ _ _ Hsz Hinit). exact Hb.
  - intros Hno.
    assert ((0 <=? nb) && (nb <=? brk_limit s) = false) as E.
    { apply andb_false_iff. lia. }
    rewrite E in Hinit. split; [exact Hinit|].
    intros Hsz. unfold Plain.malloc. apply Z.eqb_neq in Hsz. rewrite Hsz.
    unfold bind at 1. fold asz. rewrite Hinit. reflexivity.
Qed.

Lemma first_call_bootstrap_witness :
  exists s1,
    heap_init (align_up 100) fresh = Some (true, s1)
    /\ brk s1 = 4096 + 65536
    /\ directory s1 = Some [mkBlock 4096 65504 true].
Proof.
  destruct (first_call_bootstrap fresh 100) as (_ & Hok & _).
  - reflexivity.
  - discriminate.
  - destruct Hok as (s1 & H1 & H2 & H3 & _).
    + vm_compute. reflexivity.
    + vm_compute. split; discriminate.
    + exists s1. split; [exact H1|]. split; [exact H2|exact H3].
Defined.

(** The claim as the spec words it fails for an aligned need of
    [64 KiB - padded header]: 64 KiB are asked, not the maximum. *)
Lemma first_call_not_max :
  exists p s',
    Plain.malloc 65504 fresh = Some (p, s')
    /\ align_up 65504 = 65504
    /\ brk s' - brk fresh = 65536
    /\ brk s' - brk fresh
       <> Z.max (64 * 1024) (PADDED_HEADER_SIZE + align_up 65504 + ALGN).
Proof.
  eexists _, _. split; [vm_compute; reflexivity|].
  split; [reflexivity|]. split; [reflexivity|]. vm_compute. discriminate.
Qed.

(** * The invariant along a run *)



(** * Zero-allocate *)



(** * Resize: the two degenerate calls *)

(** [free] of a block, seen through the list [free_list], leaves a free
    block that starts at or below the block and is at least as large. *)
Lemma free_list_covers lo l b hi :
  geom lo l hi -> 0 < lo -> hi < SIZE_MOD -> b ∈ l -> bfree b = false ->
  exists l1 f l2,
    free_list (baddr b) l = l1 ++ f :: l2
    /\ bfree f = true
    /\ baddr f <= baddr b
    /\ bsize b <= bsize f.
Proof.
  intros Hg Hlo Hhi Hin Hbf.
  apply list_elem_of_split in Hin as (l1 & l2 & ->).
  destruct (absorb_head (mark_free b) l2) as (c & r & Habs & Hca & Hcf).
  rewrite (free_list_split (lo - 1) _ _ _ _ _ (geom_ordered _ _ _ Hg) Hbf Habs).
  cbn [mark_free baddr bfree] in Hca, Hcf.
  apply geom_app in Hg as (mid & Hg1 & Hg2).
  pose proof (geom_le _ _ _ Hg1) as Hmid.
  assert (geom mid (c :: r) hi) as Hgc.
  { rewrite <- Habs. apply geom_absorb; [exact Hg2|lia|exact Hhi]. }
  (* the absorbing block is at least as large as [b] *)
  assert (bsize b <= bsize c) as Hsz.
  { clear -Habs Hg2 Hmid Hlo Hhi.
    assert (forall l x, geom mid (x :: l) hi ->
              forall c r, absorb x l = c :: r -> bsize x <= bsize c) as Hgen.
    { induction l as [|n l IH]; intros x Hx c0 r0 Ha.
      - simpl in Ha. injection Ha as <- _. lia.
      - cbn [absorb] in Ha. destruct (bfree n).
        + pose proof (merge_size _ _ _ _ _ Hx ltac:(lia) Hhi) as Hm.
          pose proof (geom_merge _ _ _ _ _ Hx ltac:(lia) Hhi) as Hx'.
          specialize (IH _ Hx' _ _ Ha).
          destruct Hx as (_ & _ & _ & Hn & _).
          unfold PADDED_HEADER_SIZE in *. lia.
        + injection Ha as <- _. lia. }
    apply (Hgen l2 (mark_free b) Hg2 c r Habs). }
  destruct (decide (l1 = [])) as [->|Hne].
  - exists [], c, r. cbn [join_prev app]. repeat split; [exact Hcf|lia|lia].
  - destruct (exists_last Hne) as (l1' & p & ->). rewrite join_prev_snoc.
    destruct (bfree p) eqn:Hpf.
    + exists l1', (merge p c), r. split; [reflexivity|].
      cbn [merge baddr bfree]. split; [exact Hpf|].
      apply geom_app in Hg1 as (mid' & Hg1a & Hg1b).
      assert (geom mid' (p :: c :: r) hi) as Hpc.
      { cbn [geom] in Hg1b, Hgc.
        destruct Hg1b as (? & ? & ?). destruct Hgc as (? & ? & ?).
        cbn [geom]. repeat split; try assumption; lia. }
      pose proof (merge_size _ _ _ _ _ Hpc) as Hm.
      destruct Hpc as (? & ? & ? & ? & ?).
      apply geom_le in Hg1a.
      rewrite Hm by lia. unfold PADDED_HEADER_SIZE in *. lia.
    + exists (l1' ++ [p]), c, r. rewrite <- !app_assoc. cbn [app].
      split; [reflexivity|]. repeat split; [exact Hcf|lia|lia].
Qed.



(** Bytes written outside a header leave it alone. *)
Lemma clobber_lookup p n m a :
  n <= 0 \/ a + PADDED_HEADER_SIZE <= p \/ p + n <= a ->
  clobber p n m !! a = m !! a.
Proof.
  intros H. unfold clobber. destruct (m !! a) as [h|] eqn:E.
  - apply map_lookup_filter_Some. split; [exact E|exact H].
  - apply map_lookup_filter_None. left. exact E.
Qed.






(** * Resize *)





Lemma fits_first_before lo l1 g l2 f asz :
  ordered lo (l1 ++ g :: l2) ->
  Forall (fun x => fits asz x = false) l1 ->
  f ∈ l1 ++ g :: l2 -> fits asz f = true ->
  baddr g <= baddr f.
Proof.
  intros Ho Hnf Hin Hfit.
  pose proof (ordered_split _ _ _ _ Ho) as (_ & _ & _ & Hab).
  apply elem_of_app in Hin as [Hin|Hin].
  - rewrite Forall_forall in Hnf. rewrite (Hnf f Hin) in Hfit. discriminate.
  - apply elem_of_cons in Hin as [->|Hin]; [lia|].
    rewrite Forall_forall in Hab. specialize (Hab f Hin). lia.
Qed.

(** C7. [realloc(NULL, s)] is [malloc(s)], and [realloc(p, 0)] for a
    non-null [p] is [free(p)] followed by the return of [NULL]: the same
    result and the same state, in both builds.  After [realloc(p, 0)] on a
    block in use whose size is a multiple of 16, the directory holds a free
    block, starting at or below the released one and at least as large, and
    a following [malloc] of a non-zero size up to the released size is
    served from the directory, at or below that block, without moving the
    break and without an error. *)
Theorem realloc_degenerate :
  (forall sz s, Plain.realloc NULL sz s = Plain.malloc sz s)
  /\ (forall sz s, Debug.realloc NULL sz s = Debug.malloc sz s)
  /\ (forall p s, p <> NULL ->
        Plain.realloc p 0 s = (Plain.free p ;;; ret NULL) s)
  /\ (forall p s, p <> NULL ->
        Debug.realloc p 0 s = (Debug.free p ;;; ret NULL) s)
  /\ (forall s l b m,
        repr s l -> b ∈ l -> bfree b = false -> bsize b mod 16 = 0 ->
        0 < m <= bsize b ->
        exists s' f q s'',
          Plain.realloc (payload b) 0 s = Some (NULL, s')
          /\ Plain.free (payload b) s = Some (tt, s')
          /\ repr s' (free_list (baddr b) l)
          /\ f ∈ free_list (baddr b) l /\ bfree f = true
          /\ baddr f <= baddr b /\ bsize b <= bsize f
          /\ Plain.malloc m s' = Some (q, s'')
          /\ q <> NULL /\ q <= payload f
          /\ brk s'' = brk s' /\ errno s'' = errno s').
Proof.
  split; [reflexivity|]. split; [reflexivity|]. split; [|split].
  - intros p s Hp. unfold Plain.realloc.
    apply Z.eqb_neq in Hp. rewrite Hp. reflexivity.
  - intros p s Hp. unfold Debug.realloc.
    apply Z.eqb_neq in Hp. rewrite Hp. reflexivity.
  - intros s l b m Hr Hin Hbf Hal Hm.
    destruct (free_repr s l b Hr Hin Hbf) as (m' & Hfree & Hr').
    pose proof Hr as (Hl & Hg & Hbrk).
    destruct (free_list_covers 1 l b (brk s) Hg) as (k1 & f & k2 & Hfl & Hff & Hfa & Hfs);
      [lia|unfold SIZE_MOD; lia|exact Hin|exact Hbf|].
    pose proof (geom_bounds _ _ _ Hg) as Hbd. rewrite Forall_forall in Hbd.
    destruct (Hbd b Hin) as (Hb1 & Hb0 & Hbe).
    assert (align_up m <= bsize b) as Hasz.
    { apply align_up_le; [lia|exact Hal|].
      unfold SIZE_MAX, SIZE_MOD, PADDED_HEADER_SIZE in *. lia. }
    assert (f ∈ free_list (baddr b) l) as Hfin.
    { rewrite Hfl. apply elem_of_app. right. apply elem_of_cons. left. reflexivity. }
    assert (fits (align_up m) f = true) as Hfit.
    { unfold fits. rewrite Hff. cbn [andb]. lia. }
    destruct (fit_dec (align_up m) (free_list (baddr b) l))
      as [Hnone|(j1 & g & j2 & Hj & Hnf & Hgfit)].
    { rewrite Forall_forall in Hnone. rewrite (Hnone f Hfin) in Hfit. discriminate. }
    rewrite Hj in Hr'.
    destruct (malloc_fit (with_hdr m' s) j1 g j2 m Hr') as (m'' & Hrun & Hr'');
      [lia|exact Hnf|exact Hgfit|].
    destruct Hr' as (_ & Hg' & _).
    assert (baddr g <= baddr f) as Hgf.
    { apply (fits_first_before 0 j1 g j2 f (align_up m));
        [apply (geom_ordered _ _ _ Hg')|exact Hnf|rewrite <- Hj; exact Hfin|exact Hfit]. }
    apply geom_split in Hg' as (Hg1' & _). apply geom_le in Hg1'.
    exists (with_hdr m' s), f, (payload g), (with_hdr m'' (with_hdr m' s)).
    split; [|split; [exact Hfree|split]].
    + unfold Plain.realloc.
      assert ((payload b =? NULL) = false) as ->
        by (unfold payload, NULL, PADDED_HEADER_SIZE; lia).
      cbn [Z.eqb]. unfold bind. rewrite Hfree. reflexivity.
    + rewrite Hj. destruct Hr'' as (Hl'' & _).
      destruct (free_repr s l b Hr Hin Hbf) as (m3 & Hfree3 & Hr3).
      rewrite Hfree in Hfree3. injection Hfree3 as <-. rewrite <- Hj. exact Hr3.
    + split; [exact Hfin|]. split; [exact Hff|]. split; [exact Hfa|].
      split; [exact Hfs|]. split; [exact Hrun|].
      unfold payload, NULL, PADDED_HEADER_SIZE. repeat split; lia.
Qed.

Lemma realloc_degenerate_witness :
  exists s' q s'',
    Plain.realloc 4128 0 demo_state = Some (NULL, s')
    /\ Plain.malloc 10 s' = Some (q, s'')
    /\ q <> NULL /\ brk s'' = brk s'.
Proof.
  destruct realloc_degenerate as (_ & _ & _ & _ & H).
  destruct (H demo_state demo_dir (mkBlock 4096 16 false) 10)
    as (s' & f & q & s'' & H1 & _ & _ & _ & _ & _ & _ & H2 & H3 & _ & H4 & _).
  - exact repr_demo.
  - apply elem_of_cons. left. reflexivity.
  - reflexivity.
  - reflexivity.
  - simpl. lia.
  - exists s', q, s''. repeat split; assumption.
Defined.

(** * Releasing two neighbours *)

Lemma free_list_at lo l1 b l2 :
  ordered lo (l1 ++ b :: l2) -> bfree b = false ->
  (forall p, last l1 = Some p -> bfree p = false) ->
  (forall n, head l2 = Some n -> bfree n = false) ->
  free_list (baddr b) (l1 ++ b :: l2) = l1 ++ mark_free b :: l2.
Proof.
  intros Ho Hbf Hp Hn.
  rewrite (free_list_split lo l1 b l2 (mark_free b) l2 Ho Hbf (absorb_stop _ _ Hn)).
  apply join_prev_keep, Hp.
Qed.

(** C3, as the code has it.  Two blocks in use that follow one another in
    the directory, with the block before the pair and the block after it in
    use or absent: releasing both, in either order, puts one free block in
    the place of the two, at the address of the first and of size the sum of
    the two sizes plus one padded header; the rest of the directory is as it
    was. *)
Theorem free_adjacent_pair s l1 a b l2 :
  repr s (l1 ++ a :: b :: l2) ->
  bfree a = false -> bfree b = false ->
  (forall p, last l1 = Some p -> bfree p = false) ->
  (forall n, head l2 = Some n -> bfree n = false) ->
  let merged :=
    mkBlock (baddr a) (bsize a + bsize b + PADDED_HEADER_SIZE) true in
  (exists s',
      (Plain.free (payload a) ;;; Plain.free (payload b)) s = Some (tt, s')
      /\ repr s' (l1 ++ merged :: l2))
  /\ (exists s',
      (Plain.free (payload b) ;;; Plain.free (payload a)) s = Some (tt, s')
      /\ repr s' (l1 ++ merged :: l2)).
Proof.
  intros Hr Ha Hb Hp Hn merged.
  pose proof Hr as (_ & Hg & Hbrk).
  pose proof (geom_ordered _ _ _ Hg) as Ho.
  assert (merge (mark_free a) (mark_free b) = merged) as Hmerge.
  { apply geom_app in Hg as (mid & Hg1 & Hg2). apply geom_le in Hg1.
    pose proof (merge_size mid (mark_free a) (mark_free b) l2 (brk s) Hg2) as Hm.
    unfold merged, merge in *. cbn [bsize mark_free baddr bfree] in *.
    rewrite Hm by (unfold SIZE_MOD; lia). f_equal. lia. }
  split.
  - (* the first block, then the second *)
    destruct (free_repr s _ a Hr) as (m1 & Hrun1 & Hr1);
      [apply elem_of_app; right; apply elem_of_cons; left; reflexivity|exact Ha|].
    rewrite (free_list_at _ l1 a (b :: l2) Ho Ha Hp) in Hr1
      by (intros n Hn'; injection Hn' as <-; exact Hb).
    change (l1 ++ mark_free a :: b :: l2)
      with (l1 ++ [mark_free a] ++ b :: l2) in Hr1.
    rewrite app_assoc in Hr1.
    destruct (free_repr _ _ b Hr1) as (m2 & Hrun2 & Hr2);
      [apply elem_of_app; right; apply elem_of_cons; left; reflexivity|exact Hb|].
    pose proof Hr1 as (_ & Hg1 & _).
    rewrite (free_list_split _ _ _ _ _ _ (geom_ordered _ _ _ Hg1) Hb
               (absorb_stop _ _ Hn)) in Hr2.
    rewrite join_prev_snoc in Hr2. cbn [mark_free bfree app] in Hr2.
    fold (mark_free a) (mark_free b) in Hr2. rewrite Hmerge in Hr2.
    eexists. split; [|exact Hr2].
    unfold bind. rewrite Hrun1. exact Hrun2.
  - (* the second block, then the first *)
    change (l1 ++ a :: b :: l2) with (l1 ++ [a] ++ b :: l2) in Hr, Ho.
    rewrite app_assoc in Hr, Ho.
    destruct (free_repr s _ b Hr) as (m1 & Hrun1 & Hr1);
      [apply elem_of_app; right; apply elem_of_cons; left; reflexivity|exact Hb|].
    rewrite (free_list_split _ _ _ _ _ _ Ho Hb (absorb_stop _ _ Hn)) in Hr1.
    rewrite join_prev_snoc, Ha in Hr1. cbn [app] in Hr1.
    destruct (free_repr _ _ a Hr1) as (m2 & Hrun2 & Hr2);
      [apply elem_of_app; right; apply elem_of_cons; left; reflexivity|exact Ha|].
    pose proof Hr1 as (_ & Hg1 & _).
    assert (absorb (mark_free a) (mark_free b :: l2)
            = merge (mark_free a) (mark_free b) :: l2) as Habs.
    { cbn [absorb mark_free bfree]. apply absorb_stop. exact Hn. }
    rewrite (free_list_split _ _ _ _ _ _ (geom_ordered _ _ _ Hg1) Ha Habs) in Hr2.
    rewrite (join_prev_keep _ _ _ Hp), Hmerge in Hr2.
    eexists. split; [|exact Hr2].
    unfold bind. rewrite Hrun1. exact Hrun2.
Qed.

Lemma repr_triple :
  repr triple_state
       [mkBlock 4096 16 false; mkBlock 4144 16 false; mkBlock 4192 65408 false].
Proof.
  split; [split|split].
  - reflexivity.
  - repeat constructor.
  - simpl. unfold PADDED_HEADER_SIZE. lia.
  - simpl. lia.
Qed.

Lemma free_adjacent_pair_witness :
  (exists s',
      (Plain.free 4128 ;;; Plain.free 4176) triple_state = Some (tt, s')
      /\ repr s' [mkBlock 4096 64 true; mkBlock 4192 65408 false])
  /\ (exists s',
      (Plain.free 4176 ;;; Plain.free 4128) triple_state = Some (tt, s')
      /\ repr s' [mkBlock 4096 64 true; mkBlock 4192 65408 false]).
Proof.
  apply (free_adjacent_pair triple_state [] (mkBlock 4096 16 false)
           (mkBlock 4144 16 false) [mkBlock 4192 65408 false]).
  - exact repr_triple.
  - reflexivity.
  - reflexivity.
  - intros p Hp. discriminate.
  - intros n Hn. injection Hn as <-. reflexivity.
Defined.

(** The claim as the spec words it fails when a neighbour of the pair is
    free: after two allocations of 16 bytes in a fresh arena, releasing both
    leaves one free block of the whole arena, and no block of size
    [16 + 16 + padded header]. *)
Lemma free_pair_absorbs_neighbour :
  directory pair_state
  = Some [mkBlock 4096 16 false; mkBlock 4144 16 false; mkBlock 4192 65408 true]
  /\ exists s',
      (Plain.free 4128 ;;; Plain.free 4176) pair_state = Some (tt, s')
      /\ directory s' = Some [mkBlock 4096 65504 true]
      /\ ~ exists f, f ∈ [mkBlock 4096 65504 true]
                     /\ bsize f = 16 + 16 + PADDED_HEADER_SIZE.
Proof.
  split; [vm_compute; reflexivity|].
  eexists. split; [vm_compute; reflexivity|].
  split; [vm_compute; reflexivity|].
  intros (f & Hin & Hsz). apply list_elem_of_singleton in Hin. subst f.
  vm_compute in Hsz. discriminate.
Qed.

(** * The release path and the search keep free blocks apart *)

Lemma adjacent_free_cons b l :
  adjacent_free (b :: l) = (bfree b && head_free l) || adjacent_free l.
Proof. destruct l as [|c l]; [destruct (bfree b)|]; reflexivity. Qed.

Lemma adjacent_free_app l1 l2 :
  adjacent_free (l1 ++ l2)
  = adjacent_free l1 || adjacent_free l2 || (last_free l1 && head_free l2).
Proof.
  induction l1 as [|b l1 IH].
  - cbn [app adjacent_free]. unfold last_free. cbn [last andb orb].
    rewrite orb_false_r. reflexivity.
  - cbn [app]. rewrite !adjacent_free_cons, IH.
    destruct l1 as [|c l1].
    + cbn [app]. unfold last_free. cbn [last adjacent_free head_free head].
      destruct (bfree b), (head_free l2), (adjacent_free l2); reflexivity.
    + change (last_free (b :: c :: l1)) with (last_free (c :: l1)).
      cbn [app]. unfold head_free at 1 3. cbn [head].
      destruct (bfree b), (bfree c), (adjacent_free (c :: l1)),
        (adjacent_free l2), (last_free (c :: l1)), (head_free l2); reflexivity.
Qed.

Lemma last_free_snoc l p : last_free (l ++ [p]) = bfree p.
Proof. unfold last_free. rewrite last_snoc. reflexivity. Qed.

Lemma absorb_apart x l c r :
  adjacent_free l = false -> absorb x l = c :: r ->
  adjacent_free r = false /\ head_free r = false.
Proof.
  intros Hl Habs. destruct l as [|n l'].
  - injection Habs as <- <-. split; reflexivity.
  - rewrite adjacent_free_cons in Hl. apply orb_false_iff in Hl as [Hn Hl'].
    cbn [absorb] in Habs. destruct (bfree n) eqn:Hnf.
    + cbn [andb] in Hn.
      rewrite absorb_stop in Habs.
      * injection Habs as <- <-. split; assumption.
      * intros k Hk. unfold head_free in Hn. rewrite Hk in Hn. exact Hn.
    + injection Habs as <- <-. split; [|unfold head_free; cbn [head]; exact Hnf].
      rewrite adjacent_free_cons, Hnf, Hl'. reflexivity.
Qed.

Lemma free_list_apart lo l b :
  ordered lo l -> b ∈ l -> bfree b = false ->
  adjacent_free l = false ->
  adjacent_free (free_list (baddr b) l) = false.
Proof.
  intros Ho Hin Hbf Hadj.
  apply list_elem_of_split in Hin as (l1 & l2 & ->).
  destruct (absorb_head (mark_free b) l2) as (c & r & Habs & _ & Hcf).
  rewrite (free_list_split lo _ _ _ _ _ Ho Hbf Habs).
  rewrite adjacent_free_app, adjacent_free_cons in Hadj.
  apply orb_false_iff in Hadj as [Hadj _].
  apply orb_false_iff in Hadj as [H1 H2].
  apply orb_false_iff in H2 as [_ H2].
  destruct (absorb_apart _ _ _ _ H2 Habs) as [Hr Hhr].
  assert (adjacent_free (c :: r) = false) as Hcr.
  { rewrite adjacent_free_cons, Hhr, Hr, andb_false_r. reflexivity. }
  destruct (decide (l1 = [])) as [->|Hne]; [exact Hcr|].
  destruct (exists_last Hne) as (l1' & p & ->). rewrite join_prev_snoc.
  rewrite adjacent_free_app in H1 |- *.
  apply orb_false_iff in H1 as [H1 Hx]. apply orb_false_iff in H1 as [H1 _].
  unfold head_free in Hx. cbn [head] in Hx.
  destruct (bfree p) eqn:Hpf.
  - rewrite andb_true_r in Hx. cbn [app].
    rewrite adjacent_free_cons, H1, Hhr, Hr, Hx, andb_false_r. reflexivity.
  - cbn [app]. rewrite !adjacent_free_cons, H1, Hpf, Hhr, Hr, andb_false_r.
    unfold head_free. cbn [head andb orb]. rewrite Hpf, andb_false_r. reflexivity.
Qed.

Lemma carve_apart l1 g l2 asz :
  bfree g = true ->
  adjacent_free (l1 ++ g :: l2) = false ->
  adjacent_free (l1 ++ carve asz g ++ l2) = false.
Proof.
  intros Hgf Hadj.
  rewrite adjacent_free_app, adjacent_free_cons, Hgf in Hadj.
  apply orb_false_iff in Hadj as [Hadj Hx].
  apply orb_false_iff in Hadj as [H1 H2].
  apply orb_false_iff in H2 as [Hh2 H2]. cbn [andb] in Hh2.
  rewrite adjacent_free_app, H1. unfold carve.
  destruct (bsize g >=? _); cbn [app];
    rewrite !adjacent_free_cons, H2, ?Hh2;
    unfold head_free; cbn [head bfree andb orb];
    rewrite andb_false_r; reflexivity.
Qed.

(** [free] keeps free blocks apart: released into a directory without two
    free neighbours, a block leaves a directory without two free
    neighbours. *)
Lemma free_keeps_apart s l b :
  repr s l -> b ∈ l -> bfree b = false -> adjacent_free l = false ->
  exists s',
    Plain.free (payload b) s = Some (tt, s')
    /\ repr s' (free_list (baddr b) l)
    /\ adjacent_free (free_list (baddr b) l) = false.
Proof.
  intros Hr Hin Hbf Hadj.
  destruct (free_repr s l b Hr Hin Hbf) as (m' & Hrun & Hr').
  exists (with_hdr m' s). split; [exact Hrun|]. split; [exact Hr'|].
  destruct Hr as (_ & Hg & _).
  apply (free_list_apart _ _ _ (geom_ordered _ _ _ Hg) Hin Hbf Hadj).
Qed.

(** So does the search of [malloc], with its split. *)
Lemma malloc_keeps_apart s l1 g l2 sz :
  repr s (l1 ++ g :: l2) -> sz <> 0 ->
  Forall (fun x => fits (align_up sz) x = false) l1 ->
  fits (align_up sz) g = true ->
  adjacent_free (l1 ++ g :: l2) = false ->
  exists s',
    Plain.malloc sz s = Some (payload g, s')
    /\ repr s' (l1 ++ carve (align_up sz) g ++ l2)
    /\ adjacent_free (l1 ++ carve (align_up sz) g ++ l2) = false.
Proof.
  intros Hr Hsz Hnf Hfit Hadj.
  destruct (malloc_fit s l1 g l2 sz Hr Hsz Hnf Hfit) as (m' & Hrun & Hr').
  exists (with_hdr m' s). split; [exact Hrun|]. split; [exact Hr'|].
  apply carve_apart; [|exact Hadj].
  unfold fits in Hfit. apply andb_true_iff in Hfit as [Hf _]. exact Hf.
Qed.

(** * The sample states are states of real runs *)

Lemma demo_state_reached : Plain.malloc 16 fresh = Some (4128, demo_state).
Proof. vm_compute. reflexivity. Qed.

Lemma pair_state_reached :
  (p <- Plain.malloc 16 ;; Plain.malloc 16) fresh = Some (4176, pair_state).
Proof. vm_compute. reflexivity. Qed.

Lemma triple_state_reached :
  (p <- Plain.malloc 16 ;; q <- Plain.malloc 16 ;; Plain.malloc 65408) fresh
  = Some (4224, triple_state).
Proof. vm_compute. reflexivity. Qed.

(** * Where the code departs from the specification *)

(** C1 fails on the code.  In a fresh arena, [p = malloc(100)] followed by
    [realloc(p, 16)] splits the surplus of the block off in front of the
    free remainder of the arena and merges nothing: the directory ends with
    two free blocks side by side, in both builds. *)
Theorem realloc_shrink_leaves_adjacent_free :
  let dir := [mkBlock 4096 16 false; mkBlock 4144 64 true;
              mkBlock 4240 65360 true] in
  observe (Plain.malloc 100) fresh
    = Some (4128, Some [mkBlock 4096 112 false; mkBlock 4240 65360 true])
  /\ observe (p <- Plain.malloc 100 ;; Plain.realloc p 16) fresh
     = Some (4128, Some dir)
  /\ observe (p <- Debug.malloc 100 ;; Debug.realloc p 16) fresh
     = Some (4128, Some dir)
  /\ adjacent_free dir = true.
Proof. repeat split; vm_compute; reflexivity. Qed.

(** C9 fails on the code.  The logging build tests the function
    [check_debug_mode] itself instead of calling it: every call prints its
    trace line whatever the environment says, and the flag is never read
    nor cached.  In a process without [DEBUG_MALLOC], where
    [check_debug_mode()] would answer 0, [free(NULL)] and [malloc(1)] print
    their lines and [debug_mode] keeps its initial [-1]. *)
Theorem trace_printed_without_flag :
  (forall s, exists s',
      Debug.free NULL s = Some (tt, s')
      /\ out s' = out s ++ [TraceFree NULL]
      /\ debug_mode s' = debug_mode s)
  /\ env_DEBUG_MALLOC fresh = false
  /\ (exists s', Debug.check_debug_mode fresh = Some (0, s'))
  /\ (exists s',
      Debug.malloc 1 fresh = Some (4128, s')
      /\ out s' = [TraceMalloc 1 4128 16]
      /\ debug_mode s' = -1).
Proof.
  split; [|split; [reflexivity|split]].
  - intros s. eexists. split; [reflexivity|]. split; reflexivity.
  - eexists. reflexivity.
  - eexists. split; [vm_compute; reflexivity|]. split; reflexivity.
Qed.

(** C10 fails on the code.  In a fresh arena, [p = malloc(16)] followed by
    [realloc(p, 32)] grows the block in place over the free block after it.
    The logging build splits the excess off as a free block; the plain
    build, whose split branch is empty, records size 32 and drops the rest
    of the arena from the directory.  Both return [p]. *)
Theorem realloc_builds_differ :
  observe (p <- Plain.malloc 16 ;; Plain.realloc p 32) fresh
    = Some (4128, Some [mkBlock 4096 32 false])
  /\ observe (p <- Debug.malloc 16 ;; Debug.realloc p 32) fresh
     = Some (4128, Some [mkBlock 4096 32 false; mkBlock 4160 65440 true]).
Proof. split; vm_compute; reflexivity. Qed.

(** * Further properties of the allocation and release paths *)

(** X1. The growth path of [malloc]: on a non-empty directory in which no
    block is free and large enough, a non-zero request whose aligned size
    plus padded header and [ALGN] stays below [2^63] asks the system for
    exactly [padded header + aligned size + ALGN] bytes.  When the system
    grants them, the new block is appended at the old break, in use, of
    exactly the aligned size, and its payload is returned; no payload byte
    and no other block changes.  When the system refuses, [malloc] returns
    [NULL] and only [errno] changes. *)
Theorem malloc_growth s l sz :
  repr s l -> l <> [] -> sz <> 0 ->
  Forall (fun x => bfree x = false \/ bsize x < align_up sz) l ->
  align_up sz + PADDED_HEADER_SIZE + ALGN < 2 ^ 63 ->
  let ask := PADDED_HEADER_SIZE + align_up sz + ALGN in
  (brk s + ask <= brk_limit s ->
   exists s',
     Plain.malloc sz s = Some (brk s + PADDED_HEADER_SIZE, s')
     /\ repr s' (l ++ [mkBlock (brk s) (align_up sz) false])
     /\ brk s' = brk s + ask
     /\ bytes s' = bytes s /\ errno s' = errno s)
  /\ (brk_limit s < brk s + ask ->
      Plain.malloc sz s = Some (NULL, with_errno ENOMEM s)).
Proof.
  intros Hr Hne Hsz Hnf Hsmall ask.
  assert (Forall (fun x => fits (align_up sz) x = false) l) as Hnf'.
  { eapply Forall_impl; [exact Hnf|]. intros x [Hx|Hx]; unfold fits.
    - rewrite Hx. reflexivity.
    - apply andb_false_iff. right. lia. }
  pose proof (malloc_nofit s l sz Hr Hne Hsz Hnf') as Hm. cbv zeta in Hm.
  destruct Hr as (Hl & Hg & Hbrk).
  pose proof (align_up_range sz) as Ha.
  pose proof (geom_le _ _ _ Hg) as Hb.
  assert (to_intptr (wadd (wadd PADDED_HEADER_SIZE (align_up sz)) ALGN) = ask)
    as E.
  { rewrite (wadd_small PADDED_HEADER_SIZE), wadd_small
      by (unfold SIZE_MOD, PADDED_HEADER_SIZE, ALGN in *; lia).
    apply to_intptr_small. unfold PADDED_HEADER_SIZE, ALGN in *. lia. }
  rewrite E in Hm. split.
  - intros Hok.
    assert ((0 <=? brk s + ask) && (brk s + ask <=? brk_limit s) = true) as Hc.
    { apply andb_true_iff. unfold ask, PADDED_HEADER_SIZE, ALGN in *.
      split; lia. }
    assert ((PADDED_HEADER_SIZE <=? ask) = true) as Hc'.
    { apply Z.leb_le. unfold ask, PADDED_HEADER_SIZE, ALGN in *. lia. }
    rewrite Hc, Hc' in Hm. destruct Hm as (m' & Hrun & Hl' & _).
    eexists. split; [exact Hrun|]. split; [|repeat split].
    split; [exact Hl'|]. split.
    + cbn [brk with_hdr with_brk]. apply geom_grown; [exact Hg|lia].
    + cbn [brk brk_limit with_hdr with_brk]. lia.
  - intros Hno.
    assert ((0 <=? brk s + ask) && (brk s + ask <=? brk_limit s) = false) as Hc.
    { apply andb_false_iff. right. lia. }
    rewrite Hc in Hm. exact Hm.
Qed.

Lemma malloc_growth_witness :
  exists s',
    Plain.malloc 100 triple_state = Some (69632 + PADDED_HEADER_SIZE, s')
    /\ repr s' [mkBlock 4096 16 false; mkBlock 4144 16 false;
                mkBlock 4192 65408 false; mkBlock 69632 112 false]
    /\ brk s' = 69632 + 160.
Proof.
  destruct (malloc_growth triple_state
              [mkBlock 4096 16 false; mkBlock 4144 16 false;
               mkBlock 4192 65408 false] 100) as (Hok & _).
  - exact repr_triple.
  - discriminate.
  - lia.
  - repeat constructor.
  - vm_compute. reflexivity.
  - destruct Hok as (s' & H1 & H2 & H3 & _).
    + vm_compute. discriminate.
    + exists s'. split; [exact H1|]. split; [exact H2|exact H3].
Defined.

(** X2. [free] of a block in use, on a well-formed directory: the call
    returns, the block is marked free and merged with the whole run of free
    blocks after it and with the block before it when that one is free (the
    list [free_list]), the directory stays well formed and never gets
    longer, and the payload bytes, the break and [errno] are not touched. *)
Theorem free_coalesces s l b :
  repr s l -> b ∈ l -> bfree b = false ->
  exists s',
    Plain.free (payload b) s = Some (tt, s')
    /\ repr s' (free_list (baddr b) l)
    /\ (length (free_list (baddr b) l) <= length l)%nat
    /\ (exists f, f ∈ free_list (baddr b) l /\ bfree f = true
                  /\ baddr f <= baddr b /\ bsize b <= bsize f)
    /\ bytes s' = bytes s /\ brk s' = brk s /\ errno s' = errno s.
Proof.
  intros Hr Hin Hbf.
  destruct (free_repr s l b Hr Hin Hbf) as (m' & Hrun & Hr').
  exists (with_hdr m' s). split; [exact Hrun|]. split; [exact Hr'|].
  destruct Hr as (_ & Hg & Hbrk).
  split; [|split; [|repeat split]].
  - apply list_elem_of_split in Hin as (l1 & l2 & ->).
    destruct (absorb_head (mark_free b) l2) as (c & r & Habs & _).
    rewrite (free_list_split _ _ _ _ _ _ (geom_ordered _ _ _ Hg) Hbf Habs).
    assert (forall k x, length (absorb x k) <= S (length k))%nat as Hlen.
    { induction k as [|n k IH]; intros x; cbn [absorb length]; [lia|].
      destruct (bfree n); [specialize (IH (merge x n)); lia|cbn [length]; lia]. }
    specialize (Hlen l2 (mark_free b)). rewrite Habs in Hlen.
    cbn [length] in Hlen. rewrite length_app. cbn [length].
    destruct (decide (l1 = [])) as [->|Hne]; [cbn [join_prev length]; lia|].
    destruct (exists_last Hne) as (l1' & p & ->). rewrite join_prev_snoc.
    rewrite !length_app. destruct (bfree p); cbn [length]; lia.
  - destruct (free_list_covers 1 l b (brk s) Hg) as (k1 & f & k2 & Hfl & Hf);
      [lia|unfold SIZE_MOD; lia|exact Hin|exact Hbf|].
    exists f. split; [|exact Hf].
    rewrite Hfl. apply elem_of_app. right. apply elem_of_cons. left. reflexivity.
Qed.

Lemma free_coalesces_witness :
  exists s',
    Plain.free 4176 pair_state = Some (tt, s')
    /\ repr s' [mkBlock 4096 16 false; mkBlock 4144 65456 true].
Proof.
  destruct (free_coalesces pair_state
              [mkBlock 4096 16 false; mkBlock 4144 16 false;
               mkBlock 4192 65408 true] (mkBlock 4144 16 false))
    as (s' & H1 & H2 & _).
  - split; [split|split].
    + reflexivity.
    + repeat constructor.
    + simpl. unfold PADDED_HEADER_SIZE. lia.
    + simpl. lia.
  - apply elem_of_cons. right. apply elem_of_cons. left. reflexivity.
  - reflexivity.
  - exists s'. split; [exact H1|exact H2].
Defined.

(** * Invariants of the directory kept by [free] and [malloc] *)

Lemma wrap_mod16 z : wrap z mod 16 = z mod 16.
Proof.
  unfold wrap, SIZE_MOD. apply Z.mod_mod_divide.
  exists (2 ^ 60). reflexivity.
Qed.

Lemma merge_aligned b n :
  aligned_block b -> aligned_block n -> aligned_block (merge b n).
Proof.
  intros [Hba Hbs] [_ Hns]. split; [exact Hba|].
  cbn [merge bsize]. unfold wadd. rewrite wrap_mod16.
  rewrite Z.add_mod, Hbs by lia. rewrite wrap_mod16.
  rewrite (Z.add_mod PADDED_HEADER_SIZE), Hns by lia. reflexivity.
Qed.

Lemma absorb_aligned l : forall b,
  aligned_block b -> aligned_dir l -> aligned_dir (absorb b l).
Proof.
  induction l as [|n l IH]; intros b Hb Hl; cbn [absorb].
  - constructor; [exact Hb|constructor].
  - inversion Hl as [|? ? Hn Hl']; subst. destruct (bfree n).
    + apply IH; [apply merge_aligned; assumption|exact Hl'].
    + constructor; assumption.
Qed.

Lemma join_prev_aligned l1 c r :
  aligned_dir (l1 ++ c :: r) -> aligned_dir (join_prev l1 c r).
Proof.
  intros H. destruct (decide (l1 = [])) as [->|Hne]; [exact H|].
  destruct (exists_last Hne) as (l1' & p & ->). rewrite join_prev_snoc.
  rewrite <- app_assoc in H. cbn [app] in H.
  destruct (bfree p); [|exact H].
  unfold aligned_dir in *. rewrite Forall_app in H |- *.
  destruct H as [H1 H2]. split; [exact H1|]. cbn [app].
  inversion H2 as [|? ? Hp H3]; subst. inversion H3 as [|? ? Hc Hr]; subst.
  constructor; [apply merge_aligned; assumption|exact Hr].
Qed.

Lemma free_list_aligned lo l b :
  ordered lo l -> b ∈ l -> bfree b = false ->
  aligned_dir l -> aligned_dir (free_list (baddr b) l).
Proof.
  intros Ho Hin Hbf Hal.
  apply list_elem_of_split in Hin as (l1 & l2 & ->).
  destruct (absorb_head (mark_free b) l2) as (c & r & Habs & _).
  rewrite (free_list_split lo _ _ _ _ _ Ho Hbf Habs).
  apply join_prev_aligned. unfold aligned_dir in *.
  rewrite Forall_app in Hal |- *. destruct Hal as [H1 H2].
  split; [exact H1|]. rewrite <- Habs.
  inversion H2 as [|? ? Hb H3]; subst.
  apply absorb_aligned; [exact Hb|exact H3].
Qed.

Lemma carve_aligned asz g :
  aligned_block g -> asz mod 16 = 0 -> aligned_dir (carve asz g).
Proof.
  intros [Ha Hs] Hz. unfold carve.
  destruct (bsize g >=? _); repeat constructor; cbn [baddr bsize];
    try assumption.
  - rewrite Z.add_mod, (Z.add_mod (baddr g)), Ha, Hz by lia. reflexivity.
  - rewrite Zminus_mod, (Zminus_mod (bsize g)), Hs, Hz. reflexivity.
Qed.

(** X3. [free] keeps the invariants of the directory: released into a
    well-formed directory that has no two free neighbours and whose headers
    and sizes are multiples of 16, a block leaves a directory with the same
    three properties. *)
Theorem free_keeps_invariants s l b :
  repr s l -> b ∈ l -> bfree b = false ->
  adjacent_free l = false -> aligned_dir l ->
  exists s',
    Plain.free (payload b) s = Some (tt, s')
    /\ repr s' (free_list (baddr b) l)
    /\ adjacent_free (free_list (baddr b) l) = false
    /\ aligned_dir (free_list (baddr b) l).
Proof.
  intros Hr Hin Hbf Hadj Hal.
  destruct (free_repr s l b Hr Hin Hbf) as (m' & Hrun & Hr').
  exists (with_hdr m' s). split; [exact Hrun|]. split; [exact Hr'|].
  destruct Hr as (_ & Hg & _). pose proof (geom_ordered _ _ _ Hg) as Ho.
  split.
  - apply (free_list_apart _ _ _ Ho Hin Hbf Hadj).
  - apply (free_list_aligned _ _ _ Ho Hin Hbf Hal).
Qed.

Lemma aligned_demo_pair :
  aligned_dir [mkBlock 4096 16 false; mkBlock 4144 16 false;
               mkBlock 4192 65408 true].
Proof. repeat constructor. Qed.

Lemma repr_pair :
  repr pair_state
       [mkBlock 4096 16 false; mkBlock 4144 16 false; mkBlock 4192 65408 true].
Proof.
  split; [split|split].
  - reflexivity.
  - repeat constructor.
  - simpl. unfold PADDED_HEADER_SIZE. lia.
  - simpl. lia.
Qed.

Lemma free_keeps_invariants_witness :
  exists s',
    Plain.free 4176 pair_state = Some (tt, s')
    /\ repr s' [mkBlock 4096 16 false; mkBlock 4144 65456 true]
    /\ adjacent_free [mkBlock 4096 16 false; mkBlock 4144 65456 true] = false.
Proof.
  destruct (free_keeps_invariants pair_state
              [mkBlock 4096 16 false; mkBlock 4144 16 false;
               mkBlock 4192 65408 true] (mkBlock 4144 16 false))
    as (s' & H1 & H2 & H3 & _).
  - exact repr_pair.
  - apply elem_of_cons. right. apply elem_of_cons. left. reflexivity.
  - reflexivity.
  - reflexivity.
  - exact aligned_demo_pair.
  - exists s'. split; [exact H1|]. split; [exact H2|exact H3].
Defined.

Lemma adjacent_free_snoc_used l b :
  bfree b = false -> adjacent_free (l ++ [b]) = adjacent_free l.
Proof.
  intros Hb. rewrite adjacent_free_app. unfold head_free. cbn [head adjacent_free].
  rewrite Hb, andb_false_r, !orb_false_r. reflexivity.
Qed.

(** X4. A non-zero [malloc] of a size that does not wrap, on a non-empty
    well-formed directory with no two free neighbours, 16-aligned headers and
    break: either it fails and only [errno] changes, or it returns the
    payload of a block of the new directory that is in use, at least as
    large as the request, 16-byte aligned, and at an address no block in use
    had before; every block that was in use is still there unchanged, and
    the new directory is again well formed, without two free neighbours and
    16-aligned. *)
Theorem malloc_serves s l sz :
  repr s l -> l <> [] ->
  0 < sz -> align_up sz + PADDED_HEADER_SIZE + ALGN < 2 ^ 63 -> sz < 2 ^ 63 ->
  adjacent_free l = false -> aligned_dir l -> brk s mod 16 = 0 ->
  Plain.malloc sz s = Some (NULL, with_errno ENOMEM s)
  \/ exists b l' s',
      Plain.malloc sz s = Some (payload b, s')
      /\ repr s' l' /\ b ∈ l' /\ bfree b = false /\ sz <= bsize b
      /\ payload b mod 16 = 0
      /\ (forall x, x ∈ l -> bfree x = false -> x ∈ l' /\ baddr x <> baddr b)
      /\ adjacent_free l' = false /\ aligned_dir l' /\ brk s' mod 16 = 0
      /\ bytes s' = bytes s.
Proof.
  intros Hr Hne Hsz Hsmall Hsz63 Hadj Hal Hbrk16.
  pose proof (align_up_bounds sz ltac:(unfold SIZE_MAX, SIZE_MOD; lia)) as Hab.
  pose proof (align_up_multiple sz) as Ham.
  pose proof Hr as (Hl & Hg & Hbrk).
  destruct (fit_dec (align_up sz) l) as [Hnf|(l1 & g & l2 & -> & Hnf & Hfit)].
  - (* growth *)
    pose proof (malloc_nofit s l sz Hr Hne ltac:(lia) Hnf) as Hm.
    cbv zeta in Hm.
    pose proof (geom_le _ _ _ Hg) as Hb.
    set (ask := PADDED_HEADER_SIZE + align_up sz + ALGN) in *.
    assert (to_intptr (wadd (wadd PADDED_HEADER_SIZE (align_up sz)) ALGN) = ask)
      as E.
    { rewrite (wadd_small PADDED_HEADER_SIZE), wadd_small
        by (unfold SIZE_MOD, PADDED_HEADER_SIZE, ALGN in *; lia).
      apply to_intptr_small. unfold ask, PADDED_HEADER_SIZE, ALGN in *. lia. }
    rewrite E in Hm.
    destruct ((0 <=? brk s + ask) && (brk s + ask <=? brk_limit s)) eqn:Hc;
      [|left; exact Hm].
    apply andb_true_iff in Hc as [_ Hc]. apply Z.leb_le in Hc.
    assert ((PADDED_HEADER_SIZE <=? ask) = true) as Hc'.
    { apply Z.leb_le. unfold ask, PADDED_HEADER_SIZE, ALGN in *. lia. }
    rewrite Hc' in Hm.
    destruct Hm as (m' & Hrun & Hl' & Ho').
    right. exists (mkBlock (brk s) (align_up sz) false).
    eexists _, _. split; [exact Hrun|].
    split; [|split; [|split; [reflexivity|split; [cbn [bsize]; lia|split]]]].
    + split; [exact Hl'|]. split.
      * cbn [brk with_hdr with_brk]. apply geom_grown; [exact Hg|lia].
      * cbn [brk brk_limit with_hdr with_brk]. lia.
    + apply elem_of_app. right. apply elem_of_cons. left. reflexivity.
    + unfold payload. cbn [baddr].
      rewrite Z.add_mod, Hbrk16 by lia. reflexivity.
    + split; [|split; [|split; [|split]]].
      * intros x Hx _. split; [apply elem_of_app; left; exact Hx|].
        pose proof (geom_bounds _ _ _ Hg) as Hbd. rewrite Forall_forall in Hbd.
        specialize (Hbd x Hx). cbn [baddr].
        unfold PADDED_HEADER_SIZE in *. lia.
      * rewrite adjacent_free_snoc_used by reflexivity. exact Hadj.
      * unfold aligned_dir. rewrite Forall_app. split; [exact Hal|].
        constructor; [|constructor]. split; [exact Hbrk16|exact Ham].
      * cbn [brk with_hdr with_brk]. unfold ask.
        rewrite Z.add_mod, Hbrk16 by lia.
        rewrite (Z.add_mod (PADDED_HEADER_SIZE + align_up sz)),
          (Z.add_mod PADDED_HEADER_SIZE), Ham by lia.
        reflexivity.
      * reflexivity.
  - (* first fit *)
    destruct (malloc_fit s l1 g l2 sz Hr ltac:(lia) Hnf Hfit) as (m' & Hrun & Hr').
    pose proof Hfit as Hfit'. unfold fits in Hfit'.
    apply andb_true_iff in Hfit' as [Hgf Hge]. apply Z.geb_le in Hge.
    unfold aligned_dir in Hal. rewrite Forall_app in Hal.
    destruct Hal as [Hal1 Hal2].
    inversion Hal2 as [|? ? Hgal Hal3]; subst.
    right.
    exists (mkBlock (baddr g)
                    (if bsize g >=? align_up sz + PADDED_HEADER_SIZE + ALGN
                     then align_up sz else bsize g) false).
    eexists _, _. split; [exact Hrun|].
    split; [exact Hr'|]. split; [|split; [reflexivity|split; [|split]]].
    + apply elem_of_app. right. apply elem_of_app. left. unfold carve.
      destruct (bsize g >=? _); apply elem_of_cons; left; reflexivity.
    + cbn [bsize]. destruct (bsize g >=? _); lia.
    + unfold payload. cbn [baddr]. destruct Hgal as [Hga _].
      rewrite Z.add_mod, Hga by lia. reflexivity.
    + split; [|split; [|split; [|split]]].
      * intros x Hx Hxf. cbn [baddr].
        pose proof (ordered_split _ _ _ _ (geom_ordered _ _ _ Hg))
          as (Hb1 & _ & _ & Hb2).
        rewrite Forall_forall in Hb1, Hb2.
        apply elem_of_app in Hx as [Hx|Hx].
        -- split; [apply elem_of_app; left; exact Hx|].
           specialize (Hb1 x Hx). lia.
        -- apply elem_of_cons in Hx as [->|Hx]; [congruence|].
           split; [apply elem_of_app; right; apply elem_of_app; right; exact Hx|].
           specialize (Hb2 x Hx). lia.
      * apply carve_apart; assumption.
      * unfold aligned_dir. rewrite !Forall_app. split; [exact Hal1|].
        split; [apply carve_aligned; assumption|exact Hal3].
      * exact Hbrk16.
      * reflexivity.
Qed.

Lemma malloc_serves_witness :
  exists b l' s',
    Plain.malloc 100 demo_state = Some (payload b, s')
    /\ repr s' l' /\ b ∈ l' /\ bfree b = false /\ 100 <= bsize b
    /\ payload b mod 16 = 0.
Proof.
  destruct (malloc_serves demo_state demo_dir 100) as [Hfail|Hok].
  - exact repr_demo.
  - discriminate.
  - lia.
  - vm_compute. reflexivity.
  - lia.
  - reflexivity.
  - repeat constructor.
  - reflexivity.
  - exfalso. vm_compute in Hfail. discriminate.
  - destruct Hok as (b & l' & s' & H1 & H2 & H3 & H4 & H5 & H6 & _).
    exists b, l', s'.
    split; [exact H1|split; [exact H2|split; [exact H3|
      split; [exact H4|split; [exact H5|exact H6]]]]].
Defined.

(** * Allocate then release *)

Lemma no_adjacent_around l1 g l2 :
  bfree g = true -> adjacent_free (l1 ++ g :: l2) = false ->
  (forall p, last l1 = Some p -> bfree p = false)
  /\ (forall n, head l2 = Some n -> bfree n = false).
Proof.
  intros Hg Hadj. rewrite adjacent_free_app, adjacent_free_cons, Hg in Hadj.
  apply orb_false_iff in Hadj as [Hadj Hx].
  apply orb_false_iff in Hadj as [_ H2].
  apply orb_false_iff in H2 as [Hh _]. cbn [andb] in Hh.
  unfold head_free in Hx. cbn [head] in Hx. rewrite Hg, andb_true_r in Hx.
  unfold last_free in Hx. unfold head_free in Hh. split.
  - intros p Hp. rewrite Hp in Hx. exact Hx.
  - intros n Hn. rewrite Hn in Hh. exact Hh.
Qed.

(** Releasing what the search of [malloc] carved gives the block back. *)
Lemma free_list_carve lo l1 g l2 asz :
  ordered lo (l1 ++ carve asz g ++ l2) ->
  bfree g = true -> 0 <= asz <= bsize g -> bsize g < SIZE_MOD ->
  (forall p, last l1 = Some p -> bfree p = false) ->
  (forall n, head l2 = Some n -> bfree n = false) ->
  free_list (baddr g) (l1 ++ carve asz g ++ l2) = l1 ++ g :: l2.
Proof.
  intros Ho Hg Hsz Hmax Hp Hn. unfold carve in *.
  destruct (bsize g >=? asz + PADDED_HEADER_SIZE + ALGN) eqn:Hsp; cbn [app] in *.
  - apply Z.geb_le in Hsp.
    set (g1 := mkBlock (baddr g) asz false) in *.
    set (g2 := mkBlock (baddr g + PADDED_HEADER_SIZE + asz)
                       (bsize g - asz - PADDED_HEADER_SIZE) true) in *.
    assert (absorb (mark_free g1) (g2 :: l2) = g :: l2) as Habs.
    { cbn [absorb g2 bfree]. fold g2. rewrite (absorb_stop _ _ Hn). f_equal.
      unfold merge, mark_free, g1, g2. cbn [baddr bsize bfree].
      unfold wadd. rewrite (wrap_small (PADDED_HEADER_SIZE + _)), wrap_small
        by (unfold PADDED_HEADER_SIZE, ALGN in *; lia).
      destruct g as [a z f]. cbn [baddr bsize bfree] in *. subst f.
      f_equal. lia. }
    change (baddr g) with (baddr g1).
    rewrite (free_list_split lo l1 g1 (g2 :: l2) g l2 Ho eq_refl Habs).
    apply join_prev_keep, Hp.
  - set (g1 := mkBlock (baddr g) (bsize g) false) in *.
    change (baddr g) with (baddr g1).
    rewrite (free_list_at lo l1 g1 l2 Ho eq_refl Hp Hn).
    unfold mark_free, g1. cbn [baddr bsize].
    destruct g as [a z f]. cbn [baddr bsize bfree] in *. subst f. reflexivity.
Qed.

(** X5. Allocate then release is a round trip on the directory.  When some
    free block of a well-formed directory without two free neighbours is
    large enough for a non-zero request, [malloc] serves it without moving
    the break, [free] of the returned pointer restores the directory exactly
    (the same blocks, sizes and flags), and the same request is then served
    at the same address again. *)
Theorem malloc_free_round_trip s l sz :
  repr s l -> sz <> 0 -> adjacent_free l = false ->
  Exists (fun x => bfree x = true /\ align_up sz <= bsize x) l ->
  exists p s1 s2 s3,
    Plain.malloc sz s = Some (p, s1) /\ p <> NULL
    /\ brk s1 = brk s
    /\ Plain.free p s1 = Some (tt, s2)
    /\ repr s2 l
    /\ Plain.malloc sz s2 = Some (p, s3).
Proof.
  intros Hr Hsz Hadj Hex.
  pose proof (align_up_range sz) as Hasz.
  destruct (fit_dec (align_up sz) l) as [Hnf|(l1 & g & l2 & -> & Hnf & Hfit)].
  { exfalso. apply Exists_exists in Hex as (x & Hx & Hxf & Hxs).
    rewrite Forall_forall in Hnf. specialize (Hnf x Hx).
    unfold fits in Hnf. rewrite Hxf in Hnf. cbn [andb] in Hnf. lia. }
  pose proof Hfit as Hfit'. unfold fits in Hfit'.
  apply andb_true_iff in Hfit' as [Hgf Hge]. apply Z.geb_le in Hge.
  destruct (no_adjacent_around _ _ _ Hgf Hadj) as [Hp Hn].
  destruct (malloc_fit s l1 g l2 sz Hr Hsz Hnf Hfit) as (m1 & Hrun1 & Hr1).
  set (b := mkBlock (baddr g)
                    (if bsize g >=? align_up sz + PADDED_HEADER_SIZE + ALGN
                     then align_up sz else bsize g) false).
  assert (b ∈ l1 ++ carve (align_up sz) g ++ l2) as Hin.
  { apply elem_of_app. right. apply elem_of_app. left. unfold carve, b.
    destruct (bsize g >=? _); apply elem_of_cons; left; reflexivity. }
  destruct (free_repr _ _ b Hr1 Hin eq_refl) as (m2 & Hrun2 & Hr2).
  pose proof Hr as (_ & Hg & Hbrk).
  pose proof Hr1 as (_ & Hg1 & _).
  pose proof (geom_bounds _ _ _ Hg) as Hbd. rewrite Forall_forall in Hbd.
  assert (g ∈ l1 ++ g :: l2) as Hgin
    by (apply elem_of_app; right; apply elem_of_cons; left; reflexivity).
  destruct (Hbd g Hgin) as (Hg1a & Hg0 & Hge').
  change (baddr b) with (baddr g) in Hr2.
  rewrite (free_list_carve 0 l1 g l2 (align_up sz)) in Hr2;
    [|apply (geom_ordered _ _ _ Hg1)|exact Hgf|lia
     |unfold SIZE_MOD, PADDED_HEADER_SIZE in *; lia|exact Hp|exact Hn].
  destruct (malloc_fit _ l1 g l2 sz Hr2 Hsz Hnf Hfit) as (m3 & Hrun3 & _).
  exists (payload g), (with_hdr m1 s), (with_hdr m2 (with_hdr m1 s)),
         (with_hdr m3 (with_hdr m2 (with_hdr m1 s))).
  split; [exact Hrun1|]. split; [unfold payload, NULL, PADDED_HEADER_SIZE; lia|].
  split; [reflexivity|]. split; [exact Hrun2|]. split; [exact Hr2|exact Hrun3].
Qed.

Lemma malloc_free_round_trip_witness :
  exists p s1 s2 s3,
    Plain.malloc 100 demo_state = Some (p, s1) /\ p <> NULL
    /\ brk s1 = brk demo_state
    /\ Plain.free p s1 = Some (tt, s2)
    /\ repr s2 demo_dir
    /\ Plain.malloc 100 s2 = Some (p, s3).
Proof.
  apply (malloc_free_round_trip demo_state demo_dir 100).
  - exact repr_demo.
  - lia.
  - reflexivity.
  - apply Exists_cons_tl, Exists_cons_hd. split; [reflexivity|].
    vm_compute. discriminate.
Defined.

(** * What [free] does to an arbitrary state *)

Section Respects.
Variable R : State -> State -> Prop.
Hypothesis R_refl : forall s, R s s.
Hypothesis R_trans : forall s1 s2 s3, R s1 s2 -> R s2 s3 -> R s1 s3.

Lemma respects_ret {A} (a : A) : respects R (ret a).
Proof. intros s a' s' H. injection H as _ <-. apply R_refl. Qed.

Lemma respects_undefined {A} : respects R (@undefined A).
Proof. intros s a s' H. discriminate. Qed.

Lemma respects_bind {A B} (c : M A) (k : A -> M B) :
  respects R c -> (forall a, respects R (k a)) -> respects R (bind c k).
Proof.
  intros Hc Hk s b s' H. unfold bind in H.
  destruct (c s) as [[a s1]|] eqn:E; [|discriminate].
  eapply R_trans; [apply (Hc _ _ _ E)|apply (Hk _ _ _ _ H)].
Qed.

Lemma respects_load {A} (f : Header -> A) a : respects R (load f a).
Proof.
  intros s x s' H. unfold load in H.
  destruct (hdr s !! a); [|discriminate]. injection H as _ <-. apply R_refl.
Qed.

Lemma respects_get_fuel : respects R get_fuel.
Proof. intros s x s' H. injection H as _ <-. apply R_refl. Qed.
End Respects.

Lemma flags_kept_refl m : flags_kept m m.
Proof. intros x h Hx. eauto. Qed.

Lemma flags_kept_trans m1 m2 m3 :
  flags_kept m1 m2 -> flags_kept m2 m3 -> flags_kept m1 m3.
Proof.
  intros H12 H23 x h Hx. destruct (H12 x h Hx) as (h2 & Hx2 & E2).
  destruct (H23 x h2 Hx2) as (h3 & Hx3 & E3). exists h3. split; congruence.
Qed.

Lemma merge_safe_refl s : merge_safe s s.
Proof.
  split; [exists (hdr s); symmetry; apply with_hdr_id|apply flags_kept_refl].
Qed.

Lemma merge_safe_trans s1 s2 s3 :
  merge_safe s1 s2 -> merge_safe s2 s3 -> merge_safe s1 s3.
Proof.
  intros [[m2 ->] F12] [[m3 ->] F23]. split.
  - exists m3. reflexivity.
  - eapply flags_kept_trans; [exact F12|exact F23].
Qed.

(** A store that leaves the flag alone is safe. *)
Lemma merge_safe_store f a :
  (forall h, is_free (f h) = is_free h) -> respects merge_safe (store f a).
Proof.
  intros Hf s x s' H. unfold store in H.
  destruct (_ <=? _); [|discriminate]. injection H as _ <-.
  split; [eexists; reflexivity|].
  intros y h Hy. cbn [hdr with_hdr].
  destruct (decide (a = y)) as [->|Hne].
  - rewrite lookup_insert_eq, Hy. cbn [from_option id]. eauto.
  - rewrite lookup_insert_ne by exact Hne. eauto.
Qed.

Ltac safe_step :=
  first
    [ apply (respects_ret _ merge_safe_refl)
    | apply respects_undefined
    | apply (respects_load _ merge_safe_refl)
    | apply (respects_get_fuel _ merge_safe_refl)
    | apply merge_safe_store; intros [? ? ? ?]; reflexivity
    | apply (respects_bind _ merge_safe_trans); [|intros ?]
    | match goal with
      | |- respects _ (if ?b then _ else _) => destruct b
      end
    | assumption ].

Lemma merge_next_safe fuel a : respects merge_safe (merge_next fuel a).
Proof.
  induction fuel as [|fuel IH]; rewrite merge_next_unfold; cbv zeta;
    unfold ld_next, ld_is_free, ld_size, st_size, st_next, st_prev;
    repeat safe_step.
Qed.

Lemma merge_prev_safe a : respects merge_safe (merge_prev a).
Proof.
  unfold merge_prev; cbv zeta;
    unfold ld_prev, ld_next, ld_is_free, ld_size, st_size, st_next, st_prev;
    repeat safe_step.
Qed.

(** The effect of [free] on any state in which it returns. *)
Lemma free_effect p s s' :
  Plain.free p s = Some (tt, s') ->
  (exists m', s' = with_hdr m' s)
  /\ (forall x h, x <> p - PADDED_HEADER_SIZE -> hdr s !! x = Some h ->
        exists h', hdr s' !! x = Some h' /\ is_free h' = is_free h)
  /\ (p <> NULL ->
      exists h', hdr s' !! (p - PADDED_HEADER_SIZE) = Some h'
                 /\ is_free h' = true).
Proof.
  unfold Plain.free. destruct (p =? NULL) eqn:Hp.
  { intros H. injection H as <-. apply Z.eqb_eq in Hp.
    split; [exists (hdr s); symmetry; apply with_hdr_id|].
    split; [intros x h _ Hx; eauto|intros; congruence]. }
  unfold release. set (cur := p - PADDED_HEADER_SIZE).
  unfold bind at 1, ld_is_free at 1, load at 1.
  destruct (hdr s !! cur) as [h0|] eqn:Hcur; [|discriminate].
  destruct (is_free h0) eqn:Hf0.
  { intros H. injection H as <-.
    split; [exists (hdr s); symmetry; apply with_hdr_id|].
    split; [intros x h _ Hx; eauto|intros _; eauto]. }
  unfold bind at 1, st_is_free at 1, store at 1.
  destruct (cur + PADDED_HEADER_SIZE <=? brk s); [|discriminate].
  rewrite Hcur. cbn [from_option id].
  set (s1 := with_hdr (<[cur := set_is_free true h0]> (hdr s)) s).
  unfold bind at 1, get_fuel at 1. unfold bind at 1.
  destruct (merge_next (base.size (hdr s1)) cur s1) as [[[] s2]|] eqn:E2;
    [|discriminate].
  intros E3.
  pose proof (merge_next_safe _ _ _ _ _ E2) as [[m2 Hs2] F2].
  pose proof (merge_prev_safe _ _ _ _ E3) as [[m3 Hs3] F3].
  pose proof (flags_kept_trans _ _ _ F2 F3) as F.
  split; [exists m3; rewrite Hs3, Hs2; reflexivity|]. split.
  - intros x h Hne Hx. apply (F x h). cbn [hdr s1 with_hdr].
    rewrite lookup_insert_ne by congruence. exact Hx.
  - intros _. destruct (F cur (set_is_free true h0)) as (h' & Hh' & E).
    + cbn [hdr s1 with_hdr]. apply lookup_insert_eq.
    + exists h'. split; [exact Hh'|]. rewrite E. reflexivity.
Qed.

(** X6. Whatever pointer it is given, a call of [free] that returns moves
    neither the break nor the head of the directory, sets no [errno],
    writes no payload byte and prints nothing; it changes the free flag of
    no header but the one in front of the pointer, and that one (for a
    pointer that is not [NULL]) is marked free afterwards. *)
Theorem free_touches_headers_only p s s' :
  Plain.free p s = Some (tt, s') ->
  brk s' = brk s /\ heap_head s' = heap_head s /\ errno s' = errno s
  /\ bytes s' = bytes s /\ out s' = out s
  /\ (forall x h, x <> p - PADDED_HEADER_SIZE -> hdr s !! x = Some h ->
        exists h', hdr s' !! x = Some h' /\ is_free h' = is_free h)
  /\ (p <> NULL ->
      exists h', hdr s' !! (p - PADDED_HEADER_SIZE) = Some h'
                 /\ is_free h' = true).
Proof.
  intros H. destruct (free_effect p s s' H) as ([m' ->] & H1 & H2).
  repeat split; assumption.
Qed.

Lemma free_touches_headers_only_witness :
  exists s',
    Plain.free 4176 pair_state = Some (tt, s')
    /\ brk s' = brk pair_state /\ errno s' = errno pair_state
    /\ exists h', hdr s' !! 4144 = Some h' /\ is_free h' = true.
Proof.
  destruct (Plain.free 4176 pair_state) as [[[] s']|] eqn:E;
    [|vm_compute in E; discriminate].
  destruct (free_touches_headers_only 4176 pair_state s' E)
    as (H1 & _ & H3 & _ & _ & _ & H7).
  exists s'. split; [reflexivity|]. split; [exact H1|]. split; [exact H3|].
  apply H7. discriminate.
Defined.

(** X7. A double release is harmless: after a call [free(p)] that returned,
    a second [free(p)] returns as well and changes nothing, also when the
    block has meanwhile been merged into the block before it. *)
Theorem free_twice p s s' :
  Plain.free p s = Some (tt, s') -> Plain.free p s' = Some (tt, s').
Proof.
  intros H. destruct (free_effect p s s' H) as (_ & _ & Hflag).
  unfold Plain.free. destruct (p =? NULL) eqn:Hp; [reflexivity|].
  apply Z.eqb_neq in Hp. destruct (Hflag Hp) as (h' & Hh' & Hf).
  unfold release. unfold bind at 1, ld_is_free at 1, load at 1.
  rewrite Hh', Hf. reflexivity.
Qed.

Lemma free_twice_witness :
  exists s',
    (Plain.free 4128 ;;; Plain.free 4176) pair_state = Some (tt, s')
    /\ Plain.free 4176 s' = Some (tt, s')
    /\ directory s' = Some [mkBlock 4096 65504 true].
Proof.
  destruct ((Plain.free 4128 ;;; Plain.free 4176) pair_state)
    as [[[] s']|] eqn:E; [|vm_compute in E; discriminate].
  exists s'. split; [reflexivity|]. split.
  - unfold bind in E.
    destruct (Plain.free 4128 pair_state) as [[[] s1]|]; [|discriminate].
    apply (free_twice 4176 s1 s' E).
  - vm_compute in E. injection E as <-. vm_compute. reflexivity.
Defined.

(** * Resize in place *)

Lemma geom_carve_used lo l1 b l2 hi asz :
  geom lo (l1 ++ b :: l2) hi -> 0 <= asz <= bsize b ->
  geom lo (l1 ++ carve asz b ++ l2) hi.
Proof.
  intros Hg Hsz.
  change (carve asz b) with (carve asz (mark_free b)).
  apply geom_carve.
  - apply geom_split in Hg. apply geom_split. exact Hg.
  - lia.
  - unfold fits. cbn [mark_free bfree bsize andb]. lia.
Qed.

(** X8. [realloc] to a non-zero size whose aligned value the block already
    holds never moves the block: the same pointer is returned, the bytes of
    the payload up to the new size are as before, and the break and [errno]
    are untouched.  When the block exceeds the aligned size by a padded
    header and an alignment unit or more, the surplus is split off as a free
    block right behind it; otherwise the directory does not change at
    all. *)
Theorem realloc_shrinks_in_place s l1 b l2 sz :
  repr s (l1 ++ b :: l2) -> bfree b = false -> sz <> 0 ->
  align_up sz <= bsize b ->
  exists s',
    Plain.realloc (payload b) sz s = Some (payload b, s')
    /\ (align_up sz + PADDED_HEADER_SIZE + ALGN <= bsize b ->
        repr s' (l1 ++ mkBlock (baddr b) (align_up sz) false
                    :: mkBlock (baddr b + PADDED_HEADER_SIZE + align_up sz)
                               (bsize b - align_up sz - PADDED_HEADER_SIZE)
                               true
                    :: l2))
    /\ (bsize b < align_up sz + PADDED_HEADER_SIZE + ALGN ->
        repr s' (l1 ++ b :: l2))
    /\ (forall i, 0 <= i < align_up sz ->
          bytes s' (payload b + i) = bytes s (payload b + i))
    /\ brk s' = brk s /\ errno s' = errno s.
Proof.
  intros Hr Hbf Hsz Hle.
  pose proof (align_up_range sz) as Hasz.
  pose proof Hr as ([Hh Hc] & Hg & Hbrk).
  pose proof Hc as Hc0. apply chain_app in Hc0 as [Hc1 Hc2].
  pose proof Hc2 as Hc2'. apply chain_cons in Hc2' as [Hb _].
  pose proof Hg as Hg'. apply geom_split in Hg' as (Hg1 & Hbs & Hg2).
  pose proof (geom_le _ _ _ Hg1) as Hb0. pose proof (geom_le _ _ _ Hg2) as Hbe.
  pose proof (geom_bounds _ _ _ Hg1) as Hb1.
  assert (wadd (wadd (align_up sz) PADDED_HEADER_SIZE) ALGN
          = align_up sz + PADDED_HEADER_SIZE + ALGN) as Hthr.
  { unfold wadd. rewrite (wrap_small (align_up sz + _)); [apply wrap_small|];
      unfold SIZE_MOD, PADDED_HEADER_SIZE, ALGN in *; lia. }
  assert (Plain.realloc (payload b) sz s
          = ((if bsize b >=? align_up sz + PADDED_HEADER_SIZE + ALGN
              then shrink_split (baddr b) (align_up sz) else ret tt) ;;;
             ret (payload b)) s) as Hre.
  { unfold Plain.realloc.
    assert ((payload b =? NULL) = false) as ->
      by (unfold payload, NULL, PADDED_HEADER_SIZE; lia).
    apply Z.eqb_neq in Hsz. rewrite Hsz. unfold payload.
    replace (baddr b + PADDED_HEADER_SIZE - PADDED_HEADER_SIZE) with (baddr b)
      by lia.
    unfold bind at 1, ld_size at 1, load at 1. rewrite Hb. cbn [size].
    assert ((bsize b >=? align_up sz) = true) as -> by lia.
    rewrite Hthr. reflexivity. }
  rewrite Hre. clear Hre.
  destruct (bsize b >=? align_up sz + PADDED_HEADER_SIZE + ALGN) eqn:Hsp.
  - apply Z.geb_le in Hsp.
    assert (ordered (baddr b + PADDED_HEADER_SIZE + align_up sz) l2) as Ho.
    { apply geom_ordered in Hg2. eapply ordered_mono; [|exact Hg2].
      unfold PADDED_HEADER_SIZE, ALGN in *. lia. }
    change (shrink_split (baddr b) (align_up sz))
      with (split (baddr b) (align_up sz)).
    destruct (split_chain s _ b l2 (align_up sz) Hc2) as (m' & Hrun & Hc' & Hfr);
      [unfold PADDED_HEADER_SIZE; lia|exact Ho
      |unfold PADDED_HEADER_SIZE, ALGN in *; lia
      |apply (geom_inside s _ _ _ Hg2); lia|].
    rewrite Hbf in Hc'.
    rewrite (wsub_small (bsize b)), wsub_small in Hc'
      by (unfold SIZE_MOD, PADDED_HEADER_SIZE, ALGN in *; lia).
    exists (with_hdr m' s). split; [unfold bind; rewrite Hrun; reflexivity|].
    split; [|split; [intros; lia|repeat split]].
    intros _. split; [split|split; [|exact Hbrk]].
    + cbn [heap_head with_hdr]. rewrite Hh, !hd_addr_app. reflexivity.
    + apply chain_app. split; [|exact Hc'].
      cbn [hd_addr baddr]. eapply chain_frame; [exact Hc1|].
      eapply Forall_impl; [exact Hb1|]. intros x Hx. simpl in Hx.
      apply Hfr. unfold PADDED_HEADER_SIZE in *. lia.
    + cbn [brk with_hdr].
      pose proof (geom_carve_used 1 l1 b l2 (brk s) (align_up sz) Hg
                    ltac:(lia)) as Hgc.
      unfold carve in Hgc.
      assert ((bsize b >=? align_up sz + PADDED_HEADER_SIZE + ALGN) = true)
        as E by lia.
      rewrite E in Hgc. exact Hgc.
  - exists s. split; [reflexivity|].
    split; [intros; lia|]. split; [intros _; exact Hr|repeat split].
Qed.

Lemma realloc_shrinks_in_place_witness :
  exists s',
    Plain.realloc 4224 16 triple_state = Some (4224, s')
    /\ repr s' [mkBlock 4096 16 false; mkBlock 4144 16 false;
                mkBlock 4192 16 false; mkBlock 4240 65360 true].
Proof.
  destruct (realloc_shrinks_in_place triple_state
              [mkBlock 4096 16 false; mkBlock 4144 16 false]
              (mkBlock 4192 65408 false) [] 16)
    as (s' & Hrun & Hsplit & _).
  - exact repr_triple.
  - reflexivity.
  - lia.
  - vm_compute. discriminate.
  - exists s'. split; [exact Hrun|]. apply Hsplit. vm_compute. discriminate.
Defined.

(** The merge of [realloc]: the block takes its free successor in. *)
Lemma grow_merge_chain {A} s pv b n l2 merged (k : M A) :
  chain (hdr s) pv (b :: n :: l2) NULL ->
  0 < baddr b -> ordered (baddr b) (n :: l2) ->
  inside s (b :: n :: l2) ->
  exists m',
    (st_size (baddr b) merged ;;;
     nn <- ld_next (baddr n) ;;
     st_next (baddr b) nn ;;;
     nn <- ld_next (baddr n) ;;
     (if nn =? NULL then ret tt else st_prev nn (baddr b)) ;;;
     k) s = k (with_hdr m' s)
    /\ chain m' pv (mkBlock (baddr b) merged (bfree b) :: l2) NULL
    /\ (forall x, x < baddr b -> m' !! x = hdr s !! x).
Proof.
  intros Hc Ha Ho Hin.
  apply inside_cons in Hin as [Hbi Hin]. apply inside_cons in Hin as [Hni Hin].
  apply chain_cons in Hc as [Hb Hc]. apply chain_cons in Hc as [Hn Hc].
  cbn [hd_addr] in Hb. destruct Ho as [Hbn Ho].
  pose proof (ordered_above _ _ Ho) as Hab.
  assert (baddr n <> baddr b) by lia.
  destruct l2 as [|c l2'].
  - cbn [hd_addr] in Hn. eexists. split; [|split].
    + exec_unfold. reads Hb. repeat (below; simplify_map_eq). reflexivity.
    + rewrite chain_cons. cbn [baddr bsize bfree hd_addr].
      split; [|apply chain_nil]. simplify_map_eq. reflexivity.
    + intros x Hx. rewrite !lookup_insert_ne by lia. reflexivity.
  - cbn [hd_addr] in Hn. apply chain_cons in Hc as [Hcc Hc].
    destruct Ho as [Hnc Ho]. pose proof (ordered_above _ _ Ho) as Hab2.
    assert (baddr c <> baddr b) by lia. assert (baddr c <> baddr n) by lia.
    assert ((baddr c =? NULL) = false) as Hnz by (unfold NULL; lia).
    apply inside_cons in Hin as [Hci Hin].
    eexists. split; [|split].
    + exec_unfold. reads Hb. repeat (below; simplify_map_eq). rewrite Hnz.
      repeat (below; simplify_map_eq). reflexivity.
    + rewrite !chain_cons. cbn [baddr bsize bfree hd_addr].
      split; [|split].
      * simplify_map_eq. reflexivity.
      * simplify_map_eq. reflexivity.
      * eapply chain_frame; [exact Hc|].
        eapply Forall_impl; [exact Hab2|]. intros x Hx. simpl in Hx.
        rewrite !lookup_insert_ne by lia. reflexivity.
    + intros x Hx. rewrite !lookup_insert_ne by lia. reflexivity.
Qed.

Lemma span_app l1 l2 : span (l1 ++ l2) = span l1 + span l2.
Proof. induction l1 as [|b l1 IH]; cbn [app span]; lia. Qed.

Lemma geom_grown_in_place lo l1 b n l2 hi asz :
  geom lo (l1 ++ b :: n :: l2) hi ->
  0 <= asz <= bsize b + PADDED_HEADER_SIZE + bsize n ->
  geom lo (l1 ++ mkBlock (baddr b) asz false :: l2) hi.
Proof.
  intros Hg Hsz. apply geom_split in Hg as (Hg1 & Hb & Hg2).
  cbn [geom] in Hg2. destruct Hg2 as (Hn & Hns & Hg2).
  apply (geom_split lo l1 (mkBlock (baddr b) asz false)). cbn [baddr bsize].
  split; [exact Hg1|]. split; [lia|].
  eapply geom_weaken; [| |exact Hg2]; unfold PADDED_HEADER_SIZE in *; lia.
Qed.

(** X9. In-place growth in the plain build.  A block in use that is smaller
    than the aligned new size, followed by a free block that makes up the
    difference: [realloc] returns the same pointer without copying, takes
    the free block in and records exactly the aligned new size.  Nothing is
    split off, so the directory stays well formed but accounts for
    [old size + padded header + successor size - aligned size] bytes fewer
    than before: that part of the arena belongs to no block any more. *)
Theorem realloc_grows_in_place s l1 b n l2 sz :
  repr s (l1 ++ b :: n :: l2) ->
  bfree b = false -> bfree n = true -> sz <> 0 ->
  bsize b < align_up sz <= bsize b + PADDED_HEADER_SIZE + bsize n ->
  exists s',
    Plain.realloc (payload b) sz s = Some (payload b, s')
    /\ repr s' (l1 ++ mkBlock (baddr b) (align_up sz) false :: l2)
    /\ span (l1 ++ mkBlock (baddr b) (align_up sz) false :: l2)
       = span (l1 ++ b :: n :: l2)
         - (bsize b + PADDED_HEADER_SIZE + bsize n - align_up sz)
    /\ bytes s' = bytes s /\ brk s' = brk s /\ errno s' = errno s.
Proof.
  intros Hr Hbf Hnf Hsz [Hsmall Hfit].
  pose proof (align_up_range sz) as Hasz.
  pose proof Hr as ([Hh Hc] & Hg & Hbrk).
  pose proof Hc as Hc0. apply chain_app in Hc0 as [Hc1 Hc2].
  pose proof Hc2 as Hc2'. apply chain_cons in Hc2' as [Hb Hc3].
  apply chain_cons in Hc3 as [Hn _]. cbn [hd_addr] in Hb.
  pose proof Hg as Hg'. apply geom_split in Hg' as (Hg1 & Hbs & Hg2).
  pose proof (geom_le _ _ _ Hg1) as Hb0.
  pose proof (geom_bounds _ _ _ Hg1) as Hb1.
  pose proof (geom_ordered _ _ _ Hg2) as Ho2.
  cbn [geom] in Hg2. destruct Hg2 as (Hbn & Hns & Hg3).
  pose proof (geom_le _ _ _ Hg3) as Hne.
  set (merged := bsize b + PADDED_HEADER_SIZE + bsize n) in *.
  assert (wadd (wadd (bsize b) PADDED_HEADER_SIZE) (bsize n) = merged) as Hm.
  { unfold merged. rewrite (wadd_small (bsize b)), wadd_small
      by (unfold SIZE_MOD, PADDED_HEADER_SIZE in *; lia). reflexivity. }
  destruct (grow_merge_chain s (last_addr NULL l1) b n l2 merged
              (csz <- ld_size (baddr b) ;;
               (if csz >=? wadd (wadd (align_up sz) PADDED_HEADER_SIZE) ALGN
                then ret tt else ret tt) ;;;
               st_size (baddr b) (align_up sz) ;;;
               ret true) Hc2)
    as (m1 & Hrun & Hc' & Hfr);
    [lia|eapply ordered_mono; [|exact Ho2]; unfold PADDED_HEADER_SIZE; lia
    |pose proof (repr_inside _ _ Hr) as Hins;
     apply inside_app in Hins as [_ Hins]; exact Hins|].
  assert (baddr b + PADDED_HEADER_SIZE <= brk s) as Hbi
    by (unfold PADDED_HEADER_SIZE in *; lia).
  pose proof Hc' as Hc''. apply chain_cons in Hc'' as [Hb' _].
  cbn [baddr bsize bfree] in Hb'.
  set (m2 := <[baddr b := mkHeader (align_up sz) false (hd_addr l2 NULL)
                                   (last_addr NULL l1)]> m1).
  exists (with_hdr m2 s). split; [|split; [|split; [|repeat split]]].
  - unfold Plain.realloc.
    assert ((payload b =? NULL) = false) as ->
      by (unfold payload, NULL, PADDED_HEADER_SIZE; lia).
    apply Z.eqb_neq in Hsz. rewrite Hsz. unfold payload.
    replace (baddr b + PADDED_HEADER_SIZE - PADDED_HEADER_SIZE) with (baddr b)
      by lia.
    unfold bind at 1, ld_size at 1, load at 1. rewrite Hb. cbn [size].
    assert ((bsize b >=? align_up sz) = false) as -> by lia.
    unfold bind at 1, ld_next at 1, load at 1. rewrite Hb. cbn [next].
    assert ((baddr n =? NULL) = false) as ->
      by (unfold NULL, PADDED_HEADER_SIZE in *; lia).
    unfold bind at 1, ld_is_free at 1, load at 1. rewrite Hn. cbn [is_free].
    rewrite Hnf.
    unfold bind at 1. unfold bind at 1, ld_size at 1, load at 1. rewrite Hb.
    unfold bind at 1, ld_size at 1, load at 1. rewrite Hn. cbn [size].
    rewrite Hm.
    assert ((merged >=? align_up sz) = true) as -> by lia.
    rewrite Hrun.
    unfold bind at 1, ld_size at 1, load at 1. cbn [hdr with_hdr].
    rewrite Hb'. cbn [size].
    assert (forall (c : bool), (if c then ret tt else ret tt) = @ret unit tt) as Hif
      by (intros []; reflexivity).
    rewrite Hif.
    unfold bind at 1, ret at 1.
    unfold bind at 1, st_size at 1, store at 1. cbn [hdr with_hdr]. below.
    rewrite Hb'. cbn [from_option id set_size size is_free next prev].
    rewrite Hbf. reflexivity.
  - split; [split|split; [|exact Hbrk]].
    + cbn [heap_head with_hdr]. rewrite Hh, !hd_addr_app. reflexivity.
    + apply chain_app. split.
      * cbn [hd_addr baddr]. eapply chain_frame; [exact Hc1|].
        eapply Forall_impl; [exact Hb1|]. intros x Hx. simpl in Hx.
        cbn [hdr with_hdr]. unfold m2.
        rewrite lookup_insert_ne by (unfold PADDED_HEADER_SIZE in *; lia).
        apply Hfr. unfold PADDED_HEADER_SIZE in *. lia.
      * cbn [hdr with_hdr].
        apply (chain_update_head _ _ _ _ _ (align_up sz) false) in Hc'.
        -- exact Hc'.
        -- cbn [baddr]. apply geom_ordered in Hg3.
           eapply Forall_impl; [apply (ordered_above _ _ Hg3)|]. simpl.
           unfold PADDED_HEADER_SIZE in *. intros; lia.
    + cbn [brk with_hdr].
      apply (geom_grown_in_place 1 l1 b n l2 (brk s) (align_up sz) Hg).
      fold merged. lia.
  - rewrite !span_app. cbn [span bsize]. unfold merged. lia.
Qed.

Lemma realloc_grows_in_place_witness :
  exists s',
    Plain.realloc 4128 32 demo_state = Some (4128, s')
    /\ repr s' [mkBlock 4096 32 false]
    /\ span [mkBlock 4096 32 false] = span demo_dir - 65472.
Proof.
  destruct (realloc_grows_in_place demo_state [] (mkBlock 4096 16 false)
              (mkBlock 4144 65456 true) [] 32)
    as (s' & H1 & H2 & H3 & _).
  - exact repr_demo.
  - reflexivity.
  - reflexivity.
  - lia.
  - vm_compute. split; [reflexivity|discriminate].
  - exists s'. split; [exact H1|]. split; [exact H2|exact H3].
Defined.

(** The split after the merge, in the logging build: a free block is cut
    out of the tail of [b]; the size of [b] is set by the caller. *)
Lemma merge_split_chain s pv b l2 asz :
  chain (hdr s) pv (b :: l2) NULL ->
  0 < baddr b < baddr b + PADDED_HEADER_SIZE + asz ->
  ordered (baddr b + PADDED_HEADER_SIZE + asz) l2 ->
  baddr b + PADDED_HEADER_SIZE + asz + PADDED_HEADER_SIZE <= brk s ->
  inside s l2 ->
  exists m',
    Debug.merge_split (baddr b) asz s = Some (tt, with_hdr m' s)
    /\ chain m' pv
         (mkBlock (baddr b) (bsize b) (bfree b)
          :: mkBlock (baddr b + PADDED_HEADER_SIZE + asz)
                     (wsub (wsub (bsize b) asz) PADDED_HEADER_SIZE) true
          :: l2) NULL
    /\ (forall x, x < baddr b -> m' !! x = hdr s !! x).
Proof.
  intros Hc Ha Ho Hnb Hin.
  apply chain_cons in Hc as [Hb Hc].
  set (a := baddr b) in *. set (nb := a + PADDED_HEADER_SIZE + asz) in *.
  assert (Hne : nb <> a) by lia.
  assert (a + PADDED_HEADER_SIZE <= brk s) as Hab0 by lia.
  destruct l2 as [|c l2'].
  - eexists. split; [|split].
    + unfold Debug.merge_split. fold a nb. exec_unfold. simpl hd_addr in Hb.
      reads Hb. repeat (below; simplify_map_eq; reads Hb). reflexivity.
    + rewrite !chain_cons. cbn [baddr bsize bfree hd_addr]. fold a nb.
      split; [|split; [|apply chain_nil]].
      * simplify_map_eq. reflexivity.
      * simplify_map_eq. reflexivity.
    + intros x Hx. rewrite !lookup_insert_ne by lia. reflexivity.
  - simpl in Ho. destruct Ho as [Hcn Ho].
    pose proof (ordered_above _ _ Ho) as Hab.
    apply chain_cons in Hc as [Hcb Hc]. simpl hd_addr in Hb.
    assert (baddr c <> a) by lia. assert (baddr c <> nb) by lia.
    assert ((baddr c =? NULL) = false) as Hnz by (unfold NULL; lia).
    apply inside_cons in Hin as [Hci Hin].
    eexists. split; [|split].
    + unfold Debug.merge_split. fold a nb. exec_unfold.
      reads Hb. repeat (below; simplify_map_eq; reads Hb). rewrite Hnz.
      repeat (below; simplify_map_eq; reads Hb). reflexivity.
    + rewrite !chain_cons. cbn [baddr bsize bfree hd_addr]. fold a nb.
      split; [|split; [|split]].
      * simplify_map_eq. reflexivity.
      * simplify_map_eq. reflexivity.
      * simplify_map_eq. reflexivity.
      * eapply chain_frame; [exact Hc|].
        eapply Forall_impl; [exact Hab|]. intros x Hx. simpl in Hx.
        rewrite !lookup_insert_ne by lia. reflexivity.
    + intros x Hx. rewrite !lookup_insert_ne by lia. reflexivity.
Qed.

(** X10. In-place growth in the logging build.  For a block in use that is
    smaller than the aligned new size and is followed by a free block that
    makes up the difference, this build returns the same pointer too, takes
    the free successor in and records the aligned new size, but it splits
    the excess off as a free block when the excess is a padded header and
    an alignment unit or more: the directory then accounts for the same
    bytes as before.  A smaller excess is dropped from the block.  One
    trace line is printed, with the aligned new size. *)
Theorem realloc_grows_in_place_logged s l1 b n l2 sz :
  repr s (l1 ++ b :: n :: l2) ->
  bfree b = false -> bfree n = true -> sz <> 0 ->
  bsize b < align_up sz <= bsize b + PADDED_HEADER_SIZE + bsize n ->
  let merged := bsize b + PADDED_HEADER_SIZE + bsize n in
  let grown := mkBlock (baddr b) (align_up sz) false in
  let rest := mkBlock (baddr b + PADDED_HEADER_SIZE + align_up sz)
                      (merged - align_up sz - PADDED_HEADER_SIZE) true in
  exists s',
    Debug.realloc (payload b) sz s = Some (payload b, s')
    /\ (align_up sz + PADDED_HEADER_SIZE + ALGN <= merged ->
        repr s' (l1 ++ grown :: rest :: l2)
        /\ span (l1 ++ grown :: rest :: l2) = span (l1 ++ b :: n :: l2))
    /\ (merged < align_up sz + PADDED_HEADER_SIZE + ALGN ->
        repr s' (l1 ++ grown :: l2))
    /\ out s' = out s ++ [TraceRealloc (payload b) sz (payload b) (align_up sz)]
    /\ bytes s' = bytes s /\ brk s' = brk s /\ errno s' = errno s.
Proof.
  intros Hr Hbf Hnf Hsz [Hsmall Hfit] merged grown rest.
  pose proof (align_up_range sz) as Hasz.
  pose proof Hr as ([Hh Hc] & Hg & Hbrk).
  pose proof Hc as Hc0. apply chain_app in Hc0 as [Hc1 Hc2].
  pose proof Hc2 as Hc2'. apply chain_cons in Hc2' as [Hb Hc3].
  apply chain_cons in Hc3 as [Hn _]. cbn [hd_addr] in Hb.
  pose proof Hg as Hg'. apply geom_split in Hg' as (Hg1 & Hbs & Hg2).
  pose proof (geom_le _ _ _ Hg1) as Hb0.
  pose proof (geom_bounds _ _ _ Hg1) as Hb1.
  pose proof (geom_ordered _ _ _ Hg2) as Ho2.
  cbn [geom] in Hg2. destruct Hg2 as (Hbn & Hns & Hg3).
  pose proof (geom_le _ _ _ Hg3) as Hne.
  pose proof (geom_ordered _ _ _ Hg3) as Ho3.
  assert (wadd (wadd (bsize b) PADDED_HEADER_SIZE) (bsize n) = merged) as Hm.
  { unfold merged. rewrite (wadd_small (bsize b)), wadd_small
      by (unfold SIZE_MOD, PADDED_HEADER_SIZE in *; lia). reflexivity. }
  assert (wadd (wadd (align_up sz) PADDED_HEADER_SIZE) ALGN
          = align_up sz + PADDED_HEADER_SIZE + ALGN) as Hthr.
  { unfold wadd. rewrite (wrap_small (align_up sz + _)); [apply wrap_small|];
      unfold merged, SIZE_MOD, PADDED_HEADER_SIZE, ALGN in *; lia. }
  set (k := (csz <- ld_size (baddr b) ;;
             (if csz >=? wadd (wadd (align_up sz) PADDED_HEADER_SIZE) ALGN
              then Debug.merge_split (baddr b) (align_up sz) else ret tt) ;;;
             st_size (baddr b) (align_up sz) ;;;
             csz <- ld_size (baddr b) ;;
             (if Debug.check_debug_mode_designator
              then Debug.pp (TraceRealloc (baddr b + PADDED_HEADER_SIZE) sz
                                          (baddr b + PADDED_HEADER_SIZE) csz)
              else ret tt) ;;;
             ret true)).
  destruct (grow_merge_chain s (last_addr NULL l1) b n l2 merged k Hc2)
    as (m1 & Hrun & Hc' & Hfr);
    [lia|eapply ordered_mono; [|exact Ho2]; unfold PADDED_HEADER_SIZE; lia
    |pose proof (repr_inside _ _ Hr) as Hins;
     apply inside_app in Hins as [_ Hins]; exact Hins|].
  assert (baddr b + PADDED_HEADER_SIZE <= brk s) as Hbi
    by (unfold PADDED_HEADER_SIZE in *; lia).
  pose proof Hc' as Hc''. apply chain_cons in Hc'' as [Hb' _].
  cbn [baddr bsize bfree] in Hb'.
  (* the run up to the merge *)
  assert (forall s1, k (with_hdr m1 s) = Some (true, s1) ->
            Debug.realloc (payload b) sz s = Some (payload b, s1)) as Hre.
  { intros s1 Hk. unfold Debug.realloc.
    assert ((payload b =? NULL) = false) as ->
      by (unfold payload, NULL, PADDED_HEADER_SIZE; lia).
    apply Z.eqb_neq in Hsz. rewrite Hsz. unfold payload.
    replace (baddr b + PADDED_HEADER_SIZE - PADDED_HEADER_SIZE) with (baddr b)
      by lia.
    unfold bind at 1, ld_size at 1, load at 1. rewrite Hb. cbn [size].
    assert ((bsize b >=? align_up sz) = false) as -> by lia.
    unfold bind at 1, ld_next at 1, load at 1. rewrite Hb. cbn [next].
    assert ((baddr n =? NULL) = false) as ->
      by (unfold NULL, PADDED_HEADER_SIZE in *; lia).
    unfold bind at 1, ld_is_free at 1, load at 1. rewrite Hn. cbn [is_free].
    rewrite Hnf.
    unfold bind at 1. unfold bind at 1, ld_size at 1, load at 1. rewrite Hb.
    unfold bind at 1, ld_size at 1, load at 1. rewrite Hn. cbn [size].
    rewrite Hm.
    assert ((merged >=? align_up sz) = true) as -> by lia.
    fold k. rewrite Hrun, Hk. reflexivity. }
  clear Hrun.
  assert (Forall (fun x => baddr b < baddr x) l2) as Hab2.
  { eapply Forall_impl; [apply (ordered_above _ _ Ho3)|]. simpl.
    unfold PADDED_HEADER_SIZE in *. intros; lia. }
  assert (forall m', (forall x, x < baddr b -> m' !! x = hdr s !! x) ->
            chain m' NULL l1 (baddr b)) as Hl1.
  { intros m' Hfr'. eapply chain_frame; [exact Hc1|].
    eapply Forall_impl; [exact Hb1|]. intros x Hx. simpl in Hx.
    apply Hfr'. unfold PADDED_HEADER_SIZE in *. lia. }
  assert (k (with_hdr m1 s)
          = ((if merged >=? align_up sz + PADDED_HEADER_SIZE + ALGN
              then Debug.merge_split (baddr b) (align_up sz) else ret tt) ;;;
             st_size (baddr b) (align_up sz) ;;;
             csz <- ld_size (baddr b) ;;
             Debug.pp (TraceRealloc (baddr b + PADDED_HEADER_SIZE) sz
                                    (baddr b + PADDED_HEADER_SIZE) csz) ;;;
             ret true) (with_hdr m1 s)) as Hk.
  { unfold k. rewrite Hthr.
    unfold bind at 1, ld_size at 1, load at 1. cbn [hdr with_hdr].
    rewrite Hb'. cbn [size]. reflexivity. }
  destruct (merged >=? align_up sz + PADDED_HEADER_SIZE + ALGN) eqn:Hsp.
  - apply Z.geb_le in Hsp.
    destruct (merge_split_chain (with_hdr m1 s) (last_addr NULL l1)
                (mkBlock (baddr b) merged (bfree b)) l2 (align_up sz) Hc')
      as (m2 & Hrun2 & Hc2s & Hfr2).
    { cbn [baddr]. unfold PADDED_HEADER_SIZE. lia. }
    { cbn [baddr]. eapply ordered_mono; [|exact Ho3].
      unfold merged, PADDED_HEADER_SIZE, ALGN in *. lia. }
    { cbn [baddr brk with_hdr].
      unfold merged, PADDED_HEADER_SIZE, ALGN in *. lia. }
    { apply (geom_inside _ _ _ _ Hg3). cbn [brk with_hdr]. lia. }
    cbn [baddr bsize bfree hdr with_hdr] in Hrun2, Hc2s, Hfr2.
    rewrite (wsub_small merged), wsub_small in Hc2s
      by (unfold merged, SIZE_MOD, PADDED_HEADER_SIZE, ALGN in *; lia).
    fold rest in Hc2s.
    unfold bind at 1 in Hk. rewrite Hrun2 in Hk.
    pose proof Hc2s as Hh2. apply chain_cons in Hh2 as [Hb2 _].
    cbn [baddr bsize bfree hd_addr] in Hb2.
    apply (chain_update_head _ _ _ _ _ (align_up sz) false) in Hc2s;
      [|constructor; [cbn [rest baddr]; unfold PADDED_HEADER_SIZE; lia|exact Hab2]].
    cbn [baddr hd_addr] in Hc2s. fold grown in Hc2s.
    eexists. split.
    + apply Hre. rewrite Hk. exec_unfold. rewrite Hb2.
      cbn [from_option id set_size size is_free next prev].
      rewrite lookup_insert_eq. cbn [size]. rewrite Hbf. reflexivity.
    + split; [|split; [intros; lia|repeat split]].
      intros _. split.
      * split; [split|split; [|exact Hbrk]].
        -- cbn [heap_head with_hdr with_out]. rewrite Hh, !hd_addr_app. reflexivity.
        -- cbn [hdr with_hdr with_out]. apply chain_app. split; [|exact Hc2s].
           cbn [hd_addr grown baddr]. apply Hl1. intros x Hx.
           rewrite lookup_insert_ne by lia. rewrite Hfr2 by lia. apply Hfr, Hx.
        -- cbn [brk with_hdr with_out].
           apply geom_split in Hg as (_ & _ & Hgn). cbn [geom] in Hgn.
           destruct Hgn as (_ & _ & Hgn).
           apply (geom_split 1 l1 grown). cbn [grown baddr bsize].
           split; [exact Hg1|]. split; [lia|]. cbn [geom rest baddr bsize].
           split; [lia|]. split; [unfold PADDED_HEADER_SIZE, ALGN in *; lia|].
           eapply geom_weaken; [| |exact Hgn];
             unfold merged, PADDED_HEADER_SIZE in *; lia.
      * rewrite !span_app. cbn [span grown rest bsize]. unfold merged. lia.
  - unfold bind at 1, ret at 1 in Hk.
    apply (chain_update_head _ _ _ _ _ (align_up sz) false) in Hc'; [|exact Hab2].
    cbn [baddr] in Hc'. fold grown in Hc'.
    eexists. split.
    + apply Hre. rewrite Hk. exec_unfold. rewrite Hb'.
      cbn [from_option id set_size size is_free next prev].
      rewrite lookup_insert_eq. cbn [size]. rewrite Hbf. reflexivity.
    + split; [intros; lia|]. split; [|repeat split].
      intros _. split; [split|split; [|exact Hbrk]].
      * cbn [heap_head with_hdr with_out]. rewrite Hh, !hd_addr_app. reflexivity.
      * cbn [hdr with_hdr with_out]. apply chain_app. split; [|exact Hc'].
        cbn [hd_addr grown baddr]. apply Hl1. intros x Hx.
        rewrite lookup_insert_ne by lia. apply Hfr, Hx.
      * cbn [brk with_hdr with_out].
        apply (geom_grown_in_place 1 l1 b n l2 (brk s) (align_up sz) Hg).
        fold merged. lia.
Qed.

Lemma realloc_grows_in_place_logged_witness :
  exists s',
    Debug.realloc 4128 32 demo_state = Some (4128, s')
    /\ repr s' [mkBlock 4096 32 false; mkBlock 4160 65440 true]
    /\ span [mkBlock 4096 32 false; mkBlock 4160 65440 true] = span demo_dir.
Proof.
  destruct (realloc_grows_in_place_logged demo_state [] (mkBlock 4096 16 false)
              (mkBlock 4144 65456 true) [] 32)
    as (s' & H1 & H2 & _).
  - exact repr_demo.
  - reflexivity.
  - reflexivity.
  - lia.
  - vm_compute. split; [reflexivity|discriminate].
  - exists s'. split; [exact H1|]. apply H2. vm_compute. discriminate.
Defined.

(** * The logging build against the plain build *)

(** The shared code never looks at the trace. *)
Lemma out_blind_ret {A} (a : A) : out_blind (ret a).
Proof. intros o s. reflexivity. Qed.

Lemma out_blind_undefined {A} : out_blind (@undefined A).
Proof. intros o s. reflexivity. Qed.

Lemma out_blind_bind {A B} (c : M A) (k : A -> M B) :
  out_blind c -> (forall a, out_blind (k a)) -> out_blind (bind c k).
Proof.
  intros Hc Hk o s. unfold bind. rewrite Hc.
  destruct (c s) as [[a s1]|]; [apply Hk|reflexivity].
Qed.

Lemma out_blind_load {A} (f : Header -> A) a : out_blind (load f a).
Proof.
  intros o s. unfold load. cbn [hdr with_out].
  destruct (hdr s !! a); reflexivity.
Qed.

Lemma out_blind_store f a : out_blind (store f a).
Proof.
  intros o s. unfold store. cbn [brk with_out].
  destruct (_ <=? _); reflexivity.
Qed.

Lemma out_blind_sbrk n : out_blind (sbrk n).
Proof.
  intros o s. unfold sbrk. cbn [brk brk_limit with_out].
  destruct (_ && _); reflexivity.
Qed.

Ltac blind_step :=
  first
    [ apply out_blind_ret
    | apply out_blind_undefined
    | apply out_blind_load
    | apply out_blind_store
    | apply out_blind_sbrk
    | apply out_blind_bind; [|intros ?]
    | match goal with
      | |- out_blind (if ?b then _ else _) => destruct b
      | |- out_blind (match ?r with Some _ => _ | None => _ end) => destruct r
      end
    | assumption
    | (intros ? ?; reflexivity) ].

Lemma first_fit_blind fuel sz a : out_blind (first_fit fuel sz a).
Proof.
  revert a. induction fuel as [|fuel IH]; intros a; cbn [first_fit].
  - repeat blind_step.
  - destruct (a =? NULL); [blind_step|].
    blind_step; [blind_step|].
    blind_step; [blind_step|].
    blind_step.
    + unfold split. repeat blind_step.
    + blind_step; [blind_step|apply IH].
Qed.

Lemma find_last_blind fuel a : out_blind (find_last fuel a).
Proof.
  revert a. induction fuel as [|fuel IH]; intros a; cbn [find_last].
  - repeat blind_step.
  - blind_step; [blind_step|].
    blind_step; [blind_step|apply IH].
Qed.

Lemma merge_next_blind fuel a : out_blind (merge_next fuel a).
Proof.
  induction fuel as [|fuel IH]; cbn [merge_next].
  - repeat blind_step.
  - blind_step; [blind_step|].
    blind_step; [blind_step|].
    blind_step; [blind_step|].
    blind_step; [blind_step|].
    blind_step; [blind_step|].
    blind_step; [blind_step|].
    blind_step; [blind_step|].
    blind_step; [blind_step|].
    blind_step; [blind_step|].
    blind_step; [blind_step|].
    blind_step; [repeat blind_step|exact IH].
Qed.

Lemma release_blind p : out_blind (release p).
Proof.
  unfold release, merge_prev.
  blind_step; [blind_step|]. blind_step; [blind_step|].
  blind_step; [blind_step|].
  blind_step; [blind_step|].
  blind_step; [apply merge_next_blind|]. repeat blind_step.
Qed.

Lemma heap_init_blind sz : out_blind (heap_init sz).
Proof. unfold heap_init. repeat blind_step. Qed.

Lemma grow_blind sz : out_blind (grow sz).
Proof.
  unfold grow.
  blind_step; [blind_step|].
  blind_step; [blind_step|].
  blind_step; [apply find_last_blind|]. repeat blind_step.
Qed.

Lemma plain_malloc_blind sz : out_blind (Plain.malloc sz).
Proof.
  unfold Plain.malloc. destruct (sz =? 0); [blind_step|].
  blind_step; [apply heap_init_blind|].
  blind_step; [blind_step|].
  blind_step; [blind_step|].
  blind_step; [blind_step|].
  blind_step; [apply first_fit_blind|].
  blind_step; [blind_step|].
  blind_step; [apply grow_blind|]. repeat blind_step.
Qed.

Lemma plain_free_blind p : out_blind (Plain.free p).
Proof.
  unfold Plain.free. destruct (p =? NULL); [blind_step|apply release_blind].
Qed.

Lemma with_out_id s : with_out (out s) s = s.
Proof. destruct s. reflexivity. Qed.

(** A computation that is blind to the trace leaves it alone. *)
Lemma out_blind_keeps {A} (c : M A) s a s' :
  out_blind c -> c s = Some (a, s') -> out s' = out s.
Proof.
  intros Hc H. pose proof (Hc (out s) s) as E.
  rewrite with_out_id, H in E. injection E as E.
  rewrite E at 1. reflexivity.
Qed.

(** X11. [free] of the logging build is [free] of the plain build after one
    trace line: the line is printed for every argument, a null pointer and
    a block that is free already included, and the heap, the break and
    [errno] end as in the plain build; where the plain build has no defined
    behaviour, this build has none. *)
Theorem free_logged ptr s :
  Debug.free ptr s
  = match Plain.free ptr s with
    | Some (u, s') => Some (u, with_out (out s ++ [TraceFree ptr]) s')
    | None => None
    end.
Proof.
  unfold Debug.free. cbn [Debug.check_debug_mode_designator].
  unfold bind at 1, Debug.pp.
  change (if ptr =? NULL then ret tt else release ptr) with (Plain.free ptr).
  apply (plain_free_blind ptr (out s ++ [TraceFree ptr]) s).
Qed.

Lemma hdr_grows_refl s : hdr_grows s s.
Proof. split; [exists (hdr s); symmetry; apply with_hdr_id|auto]. Qed.

Lemma hdr_grows_trans s1 s2 s3 :
  hdr_grows s1 s2 -> hdr_grows s2 s3 -> hdr_grows s1 s3.
Proof.
  intros [[m2 ->] H2] [[m3 ->] H3]. split; [eexists; reflexivity|].
  intros a Ha. apply H3, H2, Ha.
Qed.

Lemma hdr_grows_store f a : respects hdr_grows (store f a).
Proof.
  intros s x s' H. unfold store in H.
  destruct (_ <=? _); [|discriminate]. injection H as _ <-.
  split; [eexists; reflexivity|].
  intros y Hy. cbn [hdr with_hdr].
  destruct (decide (a = y)) as [->|Hne].
  - rewrite lookup_insert_eq. eauto.
  - rewrite lookup_insert_ne by exact Hne. exact Hy.
Qed.

Ltac exec_in H :=
  unfold ld_size, ld_is_free, ld_next, ld_prev,
         st_size, st_is_free, st_next, st_prev, load, store, bind, ret,
         get_heap_head, get_fuel, put_heap_head, put_errno, sbrk in H;
  cbn [hdr with_hdr with_brk with_errno with_heap_head with_bytes
       heap_head bytes brk brk_limit errno debug_mode env_DEBUG_MALLOC out]
    in H;
  repeat match type of H with
         | context [?a + PADDED_HEADER_SIZE <=? ?b] =>
             destruct (a + PADDED_HEADER_SIZE <=? b) eqn:?;
             [ cbn [hdr with_hdr with_brk with_errno with_heap_head with_bytes
                    heap_head bytes brk brk_limit errno debug_mode
                    env_DEBUG_MALLOC out] in H
             | cbv beta iota in H; discriminate H ]
         end.

Ltac grows_step :=
  first
    [ apply (respects_ret _ hdr_grows_refl)
    | apply respects_undefined
    | apply (respects_load _ hdr_grows_refl)
    | apply (respects_get_fuel _ hdr_grows_refl)
    | apply hdr_grows_store
    | apply (respects_bind _ hdr_grows_trans); [|intros ?]
    | match goal with
      | |- respects _ (if ?b then _ else _) => destruct b
      end
    | assumption ].

Lemma first_fit_grows fuel sz a : respects hdr_grows (first_fit fuel sz a).
Proof.
  revert a. induction fuel as [|fuel IH]; intros a; cbn [first_fit].
  - repeat grows_step.
  - grows_step; [grows_step|].
    grows_step; [grows_step|]. grows_step; [grows_step|].
    grows_step.
    + unfold split. repeat grows_step.
    + grows_step; [grows_step|apply IH].
Qed.

(** The block the search hands out has a header. *)
Lemma first_fit_header fuel sz a s c s' :
  first_fit fuel sz a s = Some (c, s') -> c <> NULL ->
  is_Some (hdr s !! c).
Proof.
  revert a s. induction fuel as [|fuel IH]; intros a s H Hc;
    cbn [first_fit] in H.
  - destruct (a =? NULL); [injection H as <- _; congruence|discriminate].
  - destruct (a =? NULL); [injection H as <- _; congruence|].
    unfold bind at 1, ld_is_free at 1, load at 1 in H.
    destruct (hdr s !! a) as [h|] eqn:Ha; [|discriminate].
    unfold bind at 1, ld_size at 1, load at 1 in H. rewrite Ha in H.
    destruct (is_free h && (size h >=? sz)).
    + unfold bind at 1 in H.
      destruct ((if size h >=? wadd (wadd sz PADDED_HEADER_SIZE) ALGN
                 then split a sz else ret tt) s) as [[[] s1]|];
        [|discriminate].
      unfold bind, st_is_free, store, ret in H.
      destruct (_ <=? _); [|discriminate].
      injection H as <- _. eauto.
    + unfold bind at 1, ld_next at 1, load at 1 in H. rewrite Ha in H.
      eapply IH; eassumption.
Qed.

Lemma find_last_pure fuel a : respects eq (find_last fuel a).
Proof.
  revert a. induction fuel as [|fuel IH]; intros a; cbn [find_last].
  - apply (respects_bind eq (@eq_trans _)); [apply (respects_load eq); auto|].
    intros ln. destruct (ln =? NULL);
      [apply (respects_ret eq); auto|apply respects_undefined].
  - apply (respects_bind eq (@eq_trans _)); [apply (respects_load eq); auto|].
    intros ln. destruct (ln =? NULL); [apply (respects_ret eq); auto|apply IH].
Qed.

(** The block the growth path hands out sits at the old break and has a
    header. *)
Lemma grow_header sz s nb s' :
  grow sz s = Some (Some nb, s') ->
  nb = brk s /\ is_Some (hdr s' !! nb) /\ out s' = out s.
Proof.
  intros H. pose proof (out_blind_keeps _ _ _ _ (grow_blind sz) H) as Ho.
  unfold grow in H.
  unfold bind at 1, get_heap_head at 1 in H.
  unfold bind at 1, get_fuel at 1 in H.
  unfold bind at 1 in H.
  destruct (find_last _ _ s) as [[lb s1]|] eqn:Hfl; [|discriminate].
  apply find_last_pure in Hfl. subst s1.
  unfold bind at 1, sbrk at 1 in H.
  destruct (_ && _).
  - exec_in H. injection H as <- <-. cbn [hdr brk with_hdr with_brk].
    split; [reflexivity|]. split; [|exact Ho].
    destruct (decide (lb = brk s)) as [->|Hne].
    + rewrite lookup_insert_eq. eauto.
    + rewrite lookup_insert_ne by exact Hne. rewrite lookup_insert_eq. eauto.
  - exec_in H. discriminate.
Qed.

Lemma heap_init_nonneg sz s ok s' :
  heap_init sz s = Some (ok, s') ->
  addresses_nonneg s -> addresses_nonneg s'.
Proof.
  intros H [Hh Hb]. unfold heap_init in H.
  unfold bind at 1, get_heap_head at 1 in H.
  destruct (heap_head s =? NULL).
  - unfold bind at 1, sbrk at 1 in H.
    destruct (_ && _) eqn:Hok.
    + exec_in H. injection H as _ <-. split.
      * intros a h. cbn [hdr with_hdr with_brk with_heap_head].
        intros Ha. destruct (decide (a = brk s)) as [->|Hne]; [exact Hb|].
        rewrite !lookup_insert_ne in Ha by congruence. eapply Hh, Ha.
      * cbn [brk with_hdr with_brk with_heap_head].
        apply andb_prop in Hok as [Hok _]. lia.
    + exec_in H. injection H as _ <-. split; [exact Hh|exact Hb].
  - injection H as _ <-. split; [exact Hh|exact Hb].
Qed.

Lemma size_at_payload s c h :
  hdr s !! c = Some h -> size_at s (c + PADDED_HEADER_SIZE) = size h.
Proof.
  intros H. unfold size_at.
  replace (c + PADDED_HEADER_SIZE - PADDED_HEADER_SIZE) with c by lia.
  rewrite H. reflexivity.
Qed.

(** The two builds of [malloc], run side by side. *)
Lemma malloc_logged sz s :
  addresses_nonneg s ->
  match Plain.malloc sz s with
  | Some (p, s1) =>
      Debug.malloc sz s = Some (p, with_out (out s ++ malloc_line sz p s1) s1)
      /\ out s1 = out s
      /\ (p <> NULL -> is_Some (hdr s1 !! (p - PADDED_HEADER_SIZE)))
  | None => Debug.malloc sz s = None
  end.
Proof.
  intros Hs.
  assert (forall s1, out s1 = out s ->
            Some (NULL, s1)
            = Some (NULL, with_out (out s ++ malloc_line sz NULL s1) s1)
              /\ out s1 = out s
              /\ (NULL <> NULL ->
                  is_Some (hdr s1 !! (NULL - PADDED_HEADER_SIZE)))) as Hnull.
  { intros s1 Ho. unfold malloc_line. cbn [Z.eqb NULL].
    rewrite app_nil_r, <- Ho, with_out_id. split; [reflexivity|].
    split; [reflexivity|congruence]. }
  unfold Plain.malloc, Debug.malloc.
  destruct (sz =? 0); [apply Hnull; reflexivity|].
  unfold get_heap_head, get_fuel. unfold bind.
  destruct (heap_init (align_up sz) s) as [[[] s0]|] eqn:Hi; cbn [negb];
    [|apply Hnull, (out_blind_keeps _ _ _ _ (heap_init_blind _) Hi)
     |reflexivity].
  pose proof (out_blind_keeps _ _ _ _ (heap_init_blind _) Hi) as Ho0.
  pose proof (heap_init_nonneg _ _ _ _ Hi Hs) as [Hh0 Hb0].
  destruct (first_fit _ _ _ s0) as [[c s2]|] eqn:Hff; [|reflexivity].
  pose proof (out_blind_keeps _ _ _ _ (first_fit_blind _ _ _) Hff) as Ho2.
  destruct (c =? NULL) eqn:Hc; cbn [negb].
  - destruct (grow (align_up sz) s2) as [[[nb|] s3]|] eqn:Hg;
      [| |reflexivity].
    + apply grow_header in Hg as (Hnb & [h Hh] & Ho3).
      apply first_fit_grows in Hff as [[m' ->] _].
      cbn [brk with_hdr] in Hnb.
      unfold ld_size, load. rewrite Hh.
      cbn [Debug.check_debug_mode_designator].
      unfold Debug.pp, malloc_line, ret.
      assert ((nb + PADDED_HEADER_SIZE =? NULL) = false) as ->
        by (unfold NULL, PADDED_HEADER_SIZE; lia).
      rewrite (size_at_payload _ _ _ Hh), Ho3, Ho2, Ho0.
      split; [reflexivity|]. split; [reflexivity|]. intros _.
      replace (nb + PADDED_HEADER_SIZE - PADDED_HEADER_SIZE) with nb by lia.
      eauto.
    + unfold ret. apply Hnull.
      rewrite (out_blind_keeps _ _ _ _ (grow_blind _) Hg), Ho2. exact Ho0.
  - apply Z.eqb_neq in Hc.
    pose proof (first_fit_header _ _ _ _ _ _ Hff Hc) as [h0 Hc0].
    pose proof (Hh0 _ _ Hc0) as Hcpos.
    apply first_fit_grows in Hff as [_ Hkeep].
    destruct (Hkeep c) as [h Hh]; [eauto|].
    unfold ld_size, load. rewrite Hh.
    cbn [Debug.check_debug_mode_designator].
    unfold Debug.pp, malloc_line, ret.
    assert ((c + PADDED_HEADER_SIZE =? NULL) = false) as ->
      by (unfold NULL, PADDED_HEADER_SIZE; lia).
    rewrite (size_at_payload _ _ _ Hh), Ho2, Ho0.
    split; [reflexivity|]. split; [reflexivity|]. intros _.
    replace (c + PADDED_HEADER_SIZE - PADDED_HEADER_SIZE) with c by lia.
    eauto.
Qed.

Lemma addresses_nonneg_fresh : addresses_nonneg fresh.
Proof.
  split.
  - intros a h H. unfold fresh, initial_state in H. cbn [hdr] in H.
    rewrite lookup_empty in H. discriminate.
  - vm_compute. discriminate.
Qed.

(** X12. In a state with no header and no break below address zero,
    [malloc] of the logging build is [malloc] of the plain build
    followed by at most one trace line: same pointer, same heap, break and
    [errno], and undefined exactly where the plain build is.  The line is
    printed when the pointer returned is not null, and it carries the size
    asked for, the pointer and the size recorded in the block's header; a
    request of zero bytes and a refused growth print nothing. *)
Theorem malloc_logged_refines sz s :
  addresses_nonneg s ->
  Debug.malloc sz s
  = match Plain.malloc sz s with
    | Some (p, s1) => Some (p, with_out (out s ++ malloc_line sz p s1) s1)
    | None => None
    end.
Proof.
  intros Hs. pose proof (malloc_logged sz s Hs) as H.
  destruct (Plain.malloc sz s) as [[p s1]|]; [apply H|exact H].
Qed.

Lemma malloc_logged_refines_witness :
  Debug.malloc 100 fresh
  = match Plain.malloc 100 fresh with
    | Some (p, s1) => Some (p, with_out (out fresh ++ malloc_line 100 p s1) s1)
    | None => None
    end.
Proof. apply (malloc_logged_refines 100 fresh), addresses_nonneg_fresh. Defined.

(** X13. In a state with no header and no break below address zero,
    [calloc] of the logging build is [calloc] of the plain build plus
    its trace: on success two lines, the one of the inner [malloc] for the
    product [nmemb * size] and then the one of [calloc], both with the size
    found in the header; nothing is printed when the overflow guard fires
    or the allocation fails.  Pointer, headers, zeroed bytes, break and
    [errno] are those of the plain build. *)
Theorem calloc_logged_refines nmemb sz s :
  addresses_nonneg s ->
  Debug.calloc nmemb sz s
  = match Plain.calloc nmemb sz s with
    | Some (p, s1) =>
        Some (p, with_out (out s ++ calloc_lines nmemb sz p s1) s1)
    | None => None
    end.
Proof.
  intros Hs. unfold Debug.calloc, Plain.calloc.
  destruct (calloc_overflows nmemb sz).
  { unfold bind, put_errno, ret, calloc_lines. cbn [Z.eqb NULL out with_errno].
    rewrite app_nil_r. destruct s. reflexivity. }
  pose proof (malloc_logged (wmul nmemb sz) s Hs) as H.
  unfold bind.
  destruct (Plain.malloc (wmul nmemb sz) s) as [[p s1]|] eqn:Hp.
  2:{ rewrite H. reflexivity. }
  destruct H as (Hd & Ho & Hh). rewrite Hd.
  unfold malloc_line, calloc_lines.
  destruct (p =? NULL) eqn:Hc; cbn [negb].
  - unfold ret. rewrite ?Hc, !app_nil_r, <- Ho, !with_out_id. reflexivity.
  - assert (p <> NULL) as Hc' by (apply Z.eqb_neq; exact Hc).
    destruct (Hh Hc') as [h Hph].
    cbn [Debug.check_debug_mode_designator].
    unfold memset. cbn [brk with_out].
    destruct ((wmul nmemb sz <=? 0) || (p + wmul nmemb sz <=? brk s1));
      [|reflexivity].
    unfold ld_size, load, Debug.pp, ret, size_at.
    cbn [hdr with_hdr with_bytes with_out out bytes].
    rewrite !(clobber_lookup p _ _ (p - PADDED_HEADER_SIZE))
      by (right; left; lia).
    rewrite Hc, Hph.
    cbn [from_option id]. unfold with_hdr, with_bytes, with_out.
    cbn [heap_head hdr bytes brk brk_limit errno debug_mode env_DEBUG_MALLOC
         out].
    rewrite <- app_assoc. reflexivity.
Qed.

Lemma calloc_logged_refines_witness :
  Debug.calloc 4 25 fresh
  = match Plain.calloc 4 25 fresh with
    | Some (p, s1) =>
        Some (p, with_out (out fresh ++ calloc_lines 4 25 p s1) s1)
    | None => None
    end.
Proof. apply (calloc_logged_refines 4 25 fresh), addresses_nonneg_fresh. Defined.

(** X14. [check_debug_mode] reads the environment once.  It always returns;
    on a process that has not asked before, the answer is 1 when
    [DEBUG_MALLOC] is set and 0 when it is not; the answer is stored, and
    every later call returns the stored answer and changes nothing,
    whatever the environment has become in between. *)
Theorem check_debug_mode_reads_once s :
  exists d s1,
    Debug.check_debug_mode s = Some (d, s1)
    /\ (debug_mode s = -1 -> d = if env_DEBUG_MALLOC s then 1 else 0)
    /\ (debug_mode s <> -1 -> d = debug_mode s /\ s1 = s)
    /\ debug_mode s1 = d
    /\ hdr s1 = hdr s /\ out s1 = out s /\ errno s1 = errno s
    /\ forall e,
         Debug.check_debug_mode (with_env e s1) = Some (d, with_env e s1).
Proof.
  unfold Debug.check_debug_mode.
  destruct (debug_mode s =? -1) eqn:Hd.
  - apply Z.eqb_eq in Hd. eexists _, _. split; [reflexivity|].
    split; [reflexivity|]. split; [congruence|].
    repeat split. intros e. cbn [debug_mode with_env with_debug_mode].
    destruct (env_DEBUG_MALLOC s); reflexivity.
  - apply Z.eqb_neq in Hd. eexists _, _. split; [reflexivity|].
    split; [congruence|]. split; [auto|].
    repeat split. intros e. cbn [debug_mode with_env].
    apply Z.eqb_neq in Hd. rewrite Hd. reflexivity.
Qed.

(** * The bytes the directory accounts for *)

Lemma span_merge lo b n l hi :
  geom lo (b :: n :: l) hi -> 0 <= lo -> hi < SIZE_MOD ->
  span (merge b n :: l) = span (b :: n :: l).
Proof.
  intros Hg Hlo Hhi. cbn [span].
  rewrite (merge_size _ _ _ _ _ Hg Hlo Hhi). lia.
Qed.

Lemma span_absorb lo b l hi :
  geom lo (b :: l) hi -> 0 <= lo -> hi < SIZE_MOD ->
  span (absorb b l) = span (b :: l).
Proof.
  revert b. induction l as [|n l IH]; intros b Hg Hlo Hhi; [reflexivity|].
  cbn [absorb]. destruct (bfree n); [|reflexivity].
  rewrite IH; [|apply geom_merge; assumption|exact Hlo|exact Hhi].
  eapply span_merge; eassumption.
Qed.

Lemma span_join_prev lo l1 c r hi :
  geom lo (l1 ++ c :: r) hi -> 0 <= lo -> hi < SIZE_MOD ->
  span (join_prev l1 c r) = span (l1 ++ c :: r).
Proof.
  intros Hg Hlo Hhi. destruct (decide (l1 = [])) as [->|Hne]; [reflexivity|].
  destruct (exists_last Hne) as (l1' & p & ->). rewrite join_prev_snoc.
  rewrite <- app_assoc in *. cbn [app] in *.
  destruct (bfree p); [|reflexivity].
  apply geom_app in Hg as (mid & Hg1 & Hg2).
  assert (0 <= mid) as Hmid by (apply geom_le in Hg1; lia).
  pose proof (merge_size _ _ _ _ _ Hg2 Hmid Hhi) as E.
  rewrite !span_app. cbn [span]. rewrite E. lia.
Qed.

Lemma span_free_list lo l b hi :
  geom lo l hi -> 0 < lo -> hi < SIZE_MOD -> b ∈ l -> bfree b = false ->
  span (free_list (baddr b) l) = span l.
Proof.
  intros Hg Hlo Hhi Hin Hbf.
  apply list_elem_of_split in Hin as (l1 & l2 & ->).
  destruct (absorb_head (mark_free b) l2) as (c & r & Habs & _).
  rewrite (free_list_split (lo - 1) _ _ _ _ _ (geom_ordered _ _ _ Hg) Hbf Habs).
  pose proof Hg as Hg0. apply geom_app in Hg0 as (mid & Hg1 & Hg2).
  assert (geom mid (mark_free b :: l2) hi) as Hg2' by exact Hg2.
  pose proof (geom_le _ _ _ Hg1) as Hmid.
  rewrite (span_join_prev lo _ _ _ hi); [| |lia|exact Hhi].
  - rewrite !span_app, <- Habs.
    rewrite (span_absorb mid _ _ hi Hg2'); [reflexivity|lia|exact Hhi].
  - apply geom_app. exists mid. split; [exact Hg1|]. rewrite <- Habs.
    apply geom_absorb; [exact Hg2'|lia|exact Hhi].
Qed.

Lemma span_carve asz b : span (carve asz b) = span [b].
Proof.
  unfold carve. destruct (_ >=? _); cbn [span bsize]; lia.
Qed.

(** X15. [free] conserves the bytes the directory accounts for: after an
    in-use block of a well-formed arena is freed, the headers and payloads
    of the directory add up to what they did before, however many
    neighbours were merged, and the break has not moved. *)
Theorem free_conserves_span s l b :
  repr s l -> b ∈ l -> bfree b = false ->
  exists s',
    Plain.free (payload b) s = Some (tt, s')
    /\ repr s' (free_list (baddr b) l)
    /\ span (free_list (baddr b) l) = span l
    /\ brk s' = brk s.
Proof.
  intros Hr Hin Hbf.
  destruct (free_repr s l b Hr Hin Hbf) as (m' & Hrun & Hr').
  exists (with_hdr m' s). split; [exact Hrun|]. split; [exact Hr'|].
  split; [|reflexivity].
  destruct Hr as (_ & Hg & Hbrk).
  apply (span_free_list 1 l b (brk s)); [exact Hg|lia| |exact Hin|exact Hbf].
  unfold SIZE_MOD. lia.
Qed.

Lemma free_conserves_span_witness :
  exists s',
    Plain.free 4176 pair_state = Some (tt, s')
    /\ span (free_list 4144 [mkBlock 4096 16 false; mkBlock 4144 16 false;
                             mkBlock 4192 65408 true]) = 65536.
Proof.
  destruct (free_conserves_span pair_state
              [mkBlock 4096 16 false; mkBlock 4144 16 false;
               mkBlock 4192 65408 true] (mkBlock 4144 16 false))
    as (s' & H1 & _ & H2 & _).
  - exact repr_pair.
  - apply elem_of_cons. right. apply elem_of_cons. left. reflexivity.
  - reflexivity.
  - exists s'. split; [exact H1|]. etransitivity; [exact H2|reflexivity].
Defined.

(** X16. [malloc] served from a free block conserves the bytes the
    directory accounts for: whether the block is split or handed out
    whole, headers and payloads add up to what they did before and the
    break has not moved. *)
Theorem malloc_conserves_span s l1 g l2 sz :
  repr s (l1 ++ g :: l2) -> sz <> 0 ->
  Forall (fun x => fits (align_up sz) x = false) l1 ->
  fits (align_up sz) g = true ->
  exists s',
    Plain.malloc sz s = Some (payload g, s')
    /\ repr s' (l1 ++ carve (align_up sz) g ++ l2)
    /\ span (l1 ++ carve (align_up sz) g ++ l2) = span (l1 ++ g :: l2)
    /\ brk s' = brk s.
Proof.
  intros Hr Hsz Hnf Hfit.
  destruct (malloc_fit s l1 g l2 sz Hr Hsz Hnf Hfit) as (m' & Hrun & Hr').
  exists (with_hdr m' s). split; [exact Hrun|]. split; [exact Hr'|].
  split; [|reflexivity].
  rewrite !span_app, span_carve. cbn [span]. lia.
Qed.

Lemma malloc_conserves_span_witness :
  exists s',
    Plain.malloc 100 demo_state = Some (4176, s')
    /\ span ([mkBlock 4096 16 false] ++ carve (align_up 100)
               (mkBlock 4144 65456 true) ++ []) = span demo_dir.
Proof.
  destruct (malloc_conserves_span demo_state [mkBlock 4096 16 false]
              (mkBlock 4144 65456 true) [] 100)
    as (s' & H1 & _ & H2 & _).
  - exact repr_demo.
  - lia.
  - repeat constructor.
  - reflexivity.
  - exists s'. split; [exact H1|exact H2].
Defined.

(** The split of the shrinking [realloc] is the same computation in the two
    builds: the logging build writes the size of the new block in two
    steps. *)
Lemma two_step_size nb v (k : M unit) s :
  (st_size nb v ;;;
   nbsz <- ld_size nb ;;
   st_size nb (wsub nbsz PADDED_HEADER_SIZE) ;;; k) s
  = (st_size nb (wsub v PADDED_HEADER_SIZE) ;;; k) s.
Proof.
  unfold bind, st_size, store, ld_size, load. cbn [hdr brk with_hdr].
  destruct (nb + PADDED_HEADER_SIZE <=? brk s) eqn:E; [|reflexivity].
  cbn [hdr brk with_hdr].
  rewrite lookup_insert_eq. cbn [hdr brk with_hdr from_option id set_size size].
  rewrite E. cbn [hdr brk with_hdr].
  rewrite lookup_insert_eq, insert_insert_eq. reflexivity.
Qed.

Lemma shrink_split_same c asz s :
  Debug.shrink_split c asz s = shrink_split c asz s.
Proof.
  unfold Debug.shrink_split, shrink_split. cbv zeta.
  unfold bind at 1. symmetry. unfold bind at 1. symmetry.
  destruct (ld_size c s) as [[csz s1]|]; [|reflexivity].
  apply two_step_size.
Qed.

Lemma shrink_split_blind c asz : out_blind (shrink_split c asz).
Proof. unfold shrink_split. repeat blind_step. Qed.

Lemma shrink_split_grows c asz : respects hdr_grows (shrink_split c asz).
Proof. unfold shrink_split. repeat grows_step. Qed.

(** The relocating path of [realloc], the two builds side by side. *)
Lemma relocate_logged p sz s :
  addresses_nonneg s -> p <> NULL ->
  (new_ptr <- Debug.malloc sz ;;
   if new_ptr =? NULL then ret NULL else
   csz <- ld_size (p - PADDED_HEADER_SIZE) ;;
   memcpy new_ptr p (if csz <? align_up sz then csz else align_up sz) ;;;
   Debug.free p ;;;
   hsz <- ld_size (new_ptr - PADDED_HEADER_SIZE) ;;
   (if Debug.check_debug_mode_designator
    then Debug.pp (TraceRealloc p sz new_ptr hsz) else ret tt) ;;;
   ret new_ptr) s
  = match (new_ptr <- Plain.malloc sz ;;
           if new_ptr =? NULL then ret NULL else
           csz <- ld_size (p - PADDED_HEADER_SIZE) ;;
           memcpy new_ptr p
                  (if csz <? align_up sz then csz else align_up sz) ;;;
           Plain.free p ;;;
           ret new_ptr) s with
    | Some (q, s1) =>
        Some (q, with_out
                   (out s ++
                    match Plain.malloc sz s with
                    | Some (q', sm) => malloc_line sz q' sm
                    | None => []
                    end
                    ++ (if q =? NULL then []
                        else [TraceFree p;
                              TraceRealloc p sz q (size_at s1 q)])) s1)
    | None => None
    end.
Proof.
  intros Hs Hp. pose proof (malloc_logged sz s Hs) as H.
  unfold bind at 1. symmetry. unfold bind at 1. symmetry.
  destruct (Plain.malloc sz s) as [[q sm]|] eqn:Hm; [|rewrite H; reflexivity].
  destruct H as (Hd & Ho & Hh). rewrite Hd.
  destruct (q =? NULL) eqn:Hq.
  { unfold ret, malloc_line. rewrite Hq. change (NULL =? NULL) with true.
    cbn [app]. rewrite app_nil_r, <- Ho, with_out_id. reflexivity. }
  assert (q <> NULL) as Hq' by (apply Z.eqb_neq; exact Hq).
  destruct (Hh Hq') as [hq Hhq].
  set (o1 := out s ++ malloc_line sz q sm).
  unfold bind at 1, ld_size at 1, load at 1. cbn [hdr with_out].
  symmetry. unfold bind at 1, ld_size at 1, load at 1. symmetry.
  destruct (hdr sm !! (p - PADDED_HEADER_SIZE)) as [hc|] eqn:Hc;
    [|reflexivity].
  cbn [size].
  set (n := if size hc <? align_up sz then size hc else align_up sz).
  unfold bind at 1, memcpy at 1. cbn [brk with_out].
  symmetry. unfold bind at 1, memcpy at 1. symmetry.
  destruct ((n <=? 0) || ((q + n <=? brk sm) && (p + n <=? brk sm)));
    [|reflexivity].
  set (Y := with_hdr (clobber q n (hdr sm)) (with_bytes _ sm)).
  assert (hdr Y !! (q - PADDED_HEADER_SIZE) = Some hq) as HhqY.
  { subst Y. cbn [hdr with_hdr].
    rewrite clobber_lookup by (right; left; lia). exact Hhq. }
  unfold bind at 1, Debug.free at 1.
  cbn [Debug.check_debug_mode_designator].
  unfold bind at 1, Debug.pp at 1.
  change (if p =? NULL then ret tt else release p) with (Plain.free p).
  match goal with
  | |- match Plain.free p ?X with _ => _ end = _ =>
      change X with (with_out (o1 ++ [TraceFree p]) Y)
  end.
  rewrite plain_free_blind.
  symmetry. unfold bind at 1. symmetry.
  destruct (Plain.free p Y) as [[[] sf]|] eqn:Hf; [|reflexivity].
  apply free_effect in Hf as (_ & Hkeep & Hat).
  assert (is_Some (hdr sf !! (q - PADDED_HEADER_SIZE))) as [hf Hhf].
  { destruct (decide (q - PADDED_HEADER_SIZE = p - PADDED_HEADER_SIZE))
      as [E|E].
    - rewrite E. destruct (Hat Hp) as (h' & Hh' & _). eauto.
    - destruct (Hkeep _ _ E HhqY) as (h' & Hh' & _). eauto. }
  unfold bind, ld_size, load, Debug.pp, ret. cbn [hdr with_out out].
  rewrite Hhf, Hq. unfold size_at. rewrite Hhf. cbn [from_option id].
  subst o1. unfold with_out.
  cbn [heap_head hdr bytes brk brk_limit errno debug_mode env_DEBUG_MALLOC
       out].
  rewrite <- !app_assoc. reflexivity.
Qed.

(** X17. Outside its in-place growth (and in a state with no header and no
    break below address zero), [realloc] of the logging build is
    [realloc] of the plain build plus trace lines: it returns the same
    pointer and leaves the same headers, bytes, break and [errno], and is
    undefined exactly where the plain build is.  It prints the line of
    [malloc] for a null pointer, the line of [free] for a size of zero,
    one [realloc] line when the block is large enough, and on relocation
    the lines of the inner [malloc] and [free] followed by its own, or
    nothing when the allocation failed. *)
Theorem realloc_logged_refines p sz s :
  addresses_nonneg s -> grows_in_place p sz s = false ->
  Debug.realloc p sz s
  = match Plain.realloc p sz s with
    | Some (q, s1) =>
        Some (q, with_out (out s ++ realloc_lines p sz q s s1) s1)
    | None => None
    end.
Proof.
  intros Hs Hg.
  destruct (p =? NULL) eqn:Hp.
  { unfold Debug.realloc, Plain.realloc, realloc_lines. rewrite Hp.
    pose proof (malloc_logged sz s Hs) as H.
    destruct (Plain.malloc sz s) as [[q s1]|]; [apply H|exact H]. }
  assert (p <> NULL) as Hp' by (apply Z.eqb_neq; exact Hp).
  destruct (sz =? 0) eqn:Hz.
  { unfold Debug.realloc, Plain.realloc, realloc_lines. rewrite Hp, Hz.
    unfold Debug.free, Plain.free. rewrite Hp.
    cbn [Debug.check_debug_mode_designator].
    unfold bind, Debug.pp, ret. rewrite (release_blind p).
    destruct (release p s) as [[[] s1]|]; reflexivity. }
  set (cur := p - PADDED_HEADER_SIZE).
  destruct (hdr s !! cur) as [h|] eqn:Hcur.
  2:{ assert (Debug.realloc p sz s = None) as ->.
      { unfold Debug.realloc. rewrite Hp, Hz. cbv zeta. fold cur.
        unfold bind at 1, ld_size at 1, load at 1. rewrite Hcur.
        reflexivity. }
      assert (Plain.realloc p sz s = None) as ->.
      { unfold Plain.realloc. rewrite Hp, Hz. cbv zeta. fold cur.
        unfold bind at 1, ld_size at 1, load at 1. rewrite Hcur.
        reflexivity. }
      reflexivity. }
  assert (size_at s p = size h) as Hsa.
  { unfold size_at. fold cur. rewrite Hcur. reflexivity. }
  unfold realloc_lines. rewrite Hp, Hz, Hsa.
  destruct (size h >=? align_up sz) eqn:Hge.
  - (* the block is large enough *)
    set (thr := wadd (wadd (align_up sz) PADDED_HEADER_SIZE) ALGN).
    set (c0 := (if size h >=? thr
                then shrink_split cur (align_up sz) else ret tt) : M unit).
    assert (Plain.realloc p sz s
            = match c0 s with
              | Some (_, s1) => Some (p, s1)
              | None => None
              end) as HP.
    { unfold Plain.realloc. rewrite Hp, Hz. cbv zeta. fold cur.
      unfold bind at 1, ld_size at 1, load at 1. rewrite Hcur. cbn [size].
      rewrite Hge. fold thr. fold c0. unfold bind at 1.
      destruct (c0 s) as [[[] s1]|]; reflexivity. }
    assert (Debug.realloc p sz s
            = match c0 s with
              | Some (_, s1) =>
                  match hdr s1 !! cur with
                  | Some h1 =>
                      Some (p, with_out
                                 (out s1 ++ [TraceRealloc p sz p (size h1)]) s1)
                  | None => None
                  end
              | None => None
              end) as HD.
    { unfold Debug.realloc. rewrite Hp, Hz. cbv zeta. fold cur.
      unfold bind at 1, ld_size at 1, load at 1. rewrite Hcur. cbn [size].
      rewrite Hge. fold thr. unfold bind at 1.
      assert ((if size h >=? thr
               then Debug.shrink_split cur (align_up sz) else ret tt) s
              = c0 s) as ->.
      { subst c0. destruct (size h >=? thr);
          [apply shrink_split_same|reflexivity]. }
      destruct (c0 s) as [[[] s1]|]; [|reflexivity].
      cbn [Debug.check_debug_mode_designator].
      unfold bind, ld_size, load, Debug.pp, ret.
      destruct (hdr s1 !! cur); reflexivity. }
    rewrite HD, HP. clear HD HP.
    assert (respects hdr_grows c0) as Hgr.
    { subst c0. destruct (size h >=? thr);
        [apply shrink_split_grows|apply (respects_ret _ hdr_grows_refl)]. }
    assert (out_blind c0) as Hbl.
    { subst c0. destruct (size h >=? thr);
        [apply shrink_split_blind|apply out_blind_ret]. }
    destruct (c0 s) as [[[] s1]|] eqn:Hc0; [|reflexivity].
    destruct (Hgr _ _ _ Hc0) as [_ Hk].
    destruct (Hk cur) as [h1 Hh1]; [eauto|]. rewrite Hh1.
    rewrite (out_blind_keeps _ _ _ _ Hbl Hc0).
    unfold size_at. fold cur. rewrite Hh1. reflexivity.
  - (* the block is too small *)
    pose (Dreloc :=
      (new_ptr <- Debug.malloc sz ;;
       if new_ptr =? NULL then ret NULL else
       csz <- ld_size cur ;;
       memcpy new_ptr p (if csz <? align_up sz then csz else align_up sz) ;;;
       Debug.free p ;;;
       hsz <- ld_size (new_ptr - PADDED_HEADER_SIZE) ;;
       (if Debug.check_debug_mode_designator
        then Debug.pp (TraceRealloc p sz new_ptr hsz) else ret tt) ;;;
       ret new_ptr) : M Z).
    pose (Preloc :=
      (new_ptr <- Plain.malloc sz ;;
       if new_ptr =? NULL then ret NULL else
       csz <- ld_size cur ;;
       memcpy new_ptr p (if csz <? align_up sz then csz else align_up sz) ;;;
       Plain.free p ;;;
       ret new_ptr) : M Z).
    assert ((hdr s !! next h = None /\ next h <> NULL
             /\ Debug.realloc p sz s = None /\ Plain.realloc p sz s = None)
            \/ (Debug.realloc p sz s = Dreloc s
                /\ Plain.realloc p sz s = Preloc s)) as Hcases.
    { destruct (next h =? NULL) eqn:Hn.
      { right. split; [unfold Debug.realloc|unfold Plain.realloc];
          rewrite Hp, Hz; cbv zeta; fold cur;
          unfold bind at 1, ld_size at 1, load at 1; rewrite Hcur;
          cbn [size]; rewrite Hge;
          unfold bind at 1, ld_next at 1, load at 1; rewrite Hcur;
          cbn [next]; rewrite Hn;
          unfold bind at 1, ret at 1; unfold bind at 1, ret at 1;
          reflexivity. }
      destruct (hdr s !! next h) as [hn|] eqn:Hnx.
      2:{ left. split; [reflexivity|]. split; [apply Z.eqb_neq, Hn|].
          split; [unfold Debug.realloc|unfold Plain.realloc];
            rewrite Hp, Hz; cbv zeta; fold cur;
            unfold bind at 1, ld_size at 1, load at 1; rewrite Hcur;
            cbn [size]; rewrite Hge;
            unfold bind at 1, ld_next at 1, load at 1; rewrite Hcur;
            cbn [next]; rewrite Hn;
            unfold bind at 1, ld_is_free at 1, load at 1; rewrite Hnx;
            reflexivity. }
      right. destruct (is_free hn) eqn:Hf.
      - assert ((wadd (wadd (size h) PADDED_HEADER_SIZE) (size hn)
                 >=? align_up sz) = false) as Hms.
        { unfold grows_in_place in Hg. fold cur in Hg.
          rewrite Hcur, Hge, Hn, Hnx, Hf in Hg. exact Hg. }
        split; [unfold Debug.realloc|unfold Plain.realloc];
          rewrite Hp, Hz; cbv zeta; fold cur;
          unfold bind at 1, ld_size at 1, load at 1; rewrite Hcur;
          cbn [size]; rewrite Hge;
          unfold bind at 1, ld_next at 1, load at 1; rewrite Hcur;
          cbn [next]; rewrite Hn;
          unfold bind at 1, ld_is_free at 1, load at 1; rewrite Hnx;
          cbn [is_free]; rewrite Hf;
          unfold bind at 1;
          unfold bind at 1, ld_size at 1, load at 1; rewrite Hcur;
          unfold bind at 1, ld_size at 1, load at 1; rewrite Hnx;
          cbn [size]; rewrite Hms; unfold ret at 1; reflexivity.
      - split; [unfold Debug.realloc|unfold Plain.realloc];
          rewrite Hp, Hz; cbv zeta; fold cur;
          unfold bind at 1, ld_size at 1, load at 1; rewrite Hcur;
          cbn [size]; rewrite Hge;
          unfold bind at 1, ld_next at 1, load at 1; rewrite Hcur;
          cbn [next]; rewrite Hn;
          unfold bind at 1, ld_is_free at 1, load at 1; rewrite Hnx;
          cbn [is_free]; rewrite Hf;
          unfold bind at 1, ret at 1; unfold bind at 1, ret at 1;
          reflexivity. }
    destruct Hcases as [(_ & _ & -> & ->)|[-> ->]]; [reflexivity|].
    apply (relocate_logged p sz s Hs Hp').
Qed.

Lemma addresses_nonneg_triple : addresses_nonneg triple_state.
Proof.
  split.
  - intros a h H. unfold triple_state in H. cbn [hdr] in H.
    repeat (apply lookup_insert_Some in H as [[<- _]|[_ H]]; [lia|]).
    rewrite lookup_empty in H. discriminate.
  - vm_compute. discriminate.
Qed.

Lemma realloc_logged_refines_witness :
  Debug.realloc 4128 100 triple_state
  = match Plain.realloc 4128 100 triple_state with
    | Some (q, s1) =>
        Some (q, with_out (out triple_state
                           ++ realloc_lines 4128 100 q triple_state s1) s1)
    | None => None
    end.
Proof.
  apply (realloc_logged_refines 4128 100 triple_state).
  - exact addresses_nonneg_triple.
  - vm_compute. reflexivity.
Defined.
